(** * pyon: the CouchDB resource / association datastore

    A shallow embedding of [pyon/datastore/couchdb/datastore.py]
    (class [CouchPyonDataStore]) and of the view definitions of
    [pyon/datastore/couchbase/views.py], with the properties of the
    association manager, the resource query engine, the one-hop graph
    traversal and the row projection stated over it.

    Conventions of the embedding:
    - a persisted document is a record of the fields the views read;
    - the document store is a list of documents in insertion order, the
      views are recomputed from it at every query (CouchDB keeps them
      consistent with the documents);
    - Python exceptions are values of [exn]; a call that can raise returns
      [exn + A];
    - [log.warn] calls are recorded in a list of warnings, [log.debug] and
      the statistics counters ([_count]) are not recorded. *)

From Stdlib Require Import List String Ascii ZArith Bool Lia.
From Stdlib Require Import Permutation Sorted.
Import ListNotations.
Open Scope string_scope.
Open Scope list_scope.

Set Warnings "-register-all".

(* ===================================================================== *)
(** ** Strings as JavaScript and Python use them *)

(** JavaScript truthiness of an optional string field, Python truthiness
    of a [str]-or-[None] argument: defined and not empty. *)
Definition truthy (x : option string) : bool :=
  match x with
  | Some v => negb (v =? "")
  | None => false
  end.

(** [x != 'RETIRED'] in JavaScript: an undefined field is different. *)
Definition not_retired (lc : option string) : bool :=
  match lc with
  | Some v => negb (v =? "RETIRED")
  | None => true
  end.

Definition defined {A} (x : option A) : bool :=
  match x with Some _ => true | None => false end.

(** Text is held as Python 2 and the JSON of the store have it, in UTF-8;
    JavaScript sees it as a sequence of UTF-16 code units and cuts and
    counts in those.  A continuation byte (10xxxxxx) starts no character;
    the lead byte of a four-byte character (11110xxx) starts a character
    of two code units, a surrogate pair; every other byte starts a
    character of one code unit. *)
Definition is_continuation (a : ascii) : bool :=
  N.leb 128 (N_of_ascii a) && N.ltb (N_of_ascii a) 192.

Definition is_supplementary (a : ascii) : bool :=
  N.leb 240 (N_of_ascii a).



(** The six payload bits of the continuation byte at position [i]. *)
Definition payload (v : string) (i : nat) : N :=
  match get i v with
  | Some b => N.land (N_of_ascii b) 63
  | None => 0%N
  end.

(** The first code unit of the four-byte character with lead byte [a] and
    continuation bytes [r], its high surrogate
    [0xD800 + ((code point - 0x10000) >> 10)], written as the three bytes
    that generalised UTF-8 has for a lone surrogate. *)
Definition high_surrogate (a : ascii) (r : string) : string :=
  let high := (55232 + N.land (N_of_ascii a) 7 * 256 + payload r 0 * 4
               + payload r 1 / 16)%N in
  String (ascii_of_N 237)
    (String (ascii_of_N (128 + (high / 64) mod 64)%N)
       (String (ascii_of_N (128 + high mod 64)%N) EmptyString)).

(** [v.substring(0, n)]: the first [n] code units; a surrogate pair that
    the cut falls into leaves its high surrogate. *)
Fixpoint js_substring (n : nat) (v : string) {struct v} : string :=
  match v with
  | EmptyString => EmptyString
  | String a r =>
      if is_continuation a then String a (js_substring n r)
      else match n with
           | 0 => EmptyString
           | S n' =>
               if is_supplementary a
               then match n' with
                    | 0 => high_surrogate a r
                    | S n'' => String a (js_substring n'' r)
                    end
               else String a (js_substring n' r)
           end
  end.

(** [String(x).substring(0,200)] *)
Definition substring200 (v : string) : string := js_substring 200 v.

(** [c in s] for a one-character needle. *)
Fixpoint contains (c : ascii) (v : string) : bool :=
  match v with
  | EmptyString => false
  | String a r => if Ascii.eqb a c then true else contains c r
  end.

(** JavaScript [v.split(c)] for a one-character separator: the pieces
    between the separators, in order; never an empty list. *)
Fixpoint split (c : ascii) (v : string) : list string :=
  match v with
  | EmptyString => [EmptyString]
  | String a r =>
      if Ascii.eqb a c then EmptyString :: split c r
      else match split c r with
           | h :: t => String a h :: t
           | [] => [String a EmptyString]
           end
  end.

(** Python [v.split(c, 1)] when [c in v]: the text before the first
    separator and the text after it. *)
Fixpoint split_first (c : ascii) (v : string) : string * string :=
  match v with
  | EmptyString => (EmptyString, EmptyString)
  | String a r =>
      if Ascii.eqb a c then (EmptyString, r)
      else let '(h, t) := split_first c r in (String a h, t)
  end.

Definition mem (x : string) (l : list string) : bool :=
  existsb (String.eqb x) l.

(* ===================================================================== *)
(** ** Index keys and the collation of the store *)

(** One component of a composite key.

    Modelled from the spec: END_MARKER ([couch_common], not part of the
    sources at hand) is the terminal sentinel that [_get_endkey] appends,
    "a value guaranteed by the store's collation to sort after every real
    value of the varying component". *)
Inductive KeyPart : Type :=
| KNull
| KNum (n : Z)
| KStr (v : string)
| END_MARKER.

(** A key is what a map function passes to [emit]: one value or an array. *)
Inductive Key : Type :=
| KScalar (c : KeyPart)
| KArray (l : list KeyPart).

(** [emit] of a field that may be undefined: JSON has [null] for it. *)
Definition part (x : option string) : KeyPart :=
  match x with Some v => KStr v | None => KNull end.

(** Modelled from the spec: the collation of the store, "null < boolean <
    number < string < array/sequence, lexicographic within each type,
    sequence elements compared pairwise"; a proper prefix sorts before its
    extensions and the sentinel after every real component. *)
Definition part_compare (a b : KeyPart) : comparison :=
  match a, b with
  | KNull, KNull => Eq
  | KNull, _ => Lt
  | KNum _, KNull => Gt
  | KNum x, KNum y => Z.compare x y
  | KNum _, _ => Lt
  | KStr _, KNull => Gt
  | KStr _, KNum _ => Gt
  | KStr x, KStr y => String.compare x y
  | KStr _, END_MARKER => Lt
  | END_MARKER, END_MARKER => Eq
  | END_MARKER, _ => Gt
  end.

Fixpoint parts_compare (l1 l2 : list KeyPart) : comparison :=
  match l1, l2 with
  | [], [] => Eq
  | [], _ :: _ => Lt
  | _ :: _, [] => Gt
  | a :: t1, b :: t2 =>
      match part_compare a b with
      | Eq => parts_compare t1 t2
      | c => c
      end
  end.

Definition key_compare (k1 k2 : Key) : comparison :=
  match k1, k2 with
  | KScalar a, KScalar b => part_compare a b
  | KScalar _, KArray _ => Lt
  | KArray _, KScalar _ => Gt
  | KArray a, KArray b => parts_compare a b
  end.

Definition key_leb (k1 k2 : Key) : bool :=
  match key_compare k1 k2 with Gt => false | _ => true end.

Definition key_eqb (k1 k2 : Key) : bool :=
  match key_compare k1 k2 with Eq => true | _ => false end.

(** A component that a map function can emit. *)
Definition real (c : KeyPart) : Prop := c <> END_MARKER.

(* ===================================================================== *)
(** ** Documents *)

(** The fields of a persisted document that the views and the datastore
    read.  [type_] is the empty string and [retired] is [false] when the
    document does not carry the field (both are only tested for truth or
    compared with a non-empty literal); [nested] lists the [type_] of the
    attributes that are themselves typed objects, in attribute order;
    [contact_email] is [doc.contact.email]. *)
Module Doc.
Record t : Type := mk {
  _id : string;
  _rev : string;
  type_ : string;
  lcstate : option string;
  availability : option string;
  name : option string;
  alt_ids : option (list string);
  uirefid : option string;
  keywords : option (list string);
  nested : list string;
  contact_email : option string;
  s : option string;
  st : option string;
  p : option string;
  o : option string;
  ot : option string;
  ts : option string;
  retired : bool
}.
End Doc.

(** An object in memory ([IonObjectBase]): the same fields, [_id] and
    [_rev] present only once the object has been persisted. *)
Record IonObject : Type := {
  obj_id : option string;
  obj_rev : option string;
  obj_body : Doc.t
}.

Definition _get_type (x : IonObject) : string := Doc.type_ (obj_body x).

(** Modelled from the spec: [fromDocument(Document) -> Object] of the
    object marshalling ([IonObjectDeserializer], not part of the sources at
    hand); it keeps the fields. *)
Definition deserialize (d : Doc.t) : IonObject :=
  {| obj_id := Some (Doc._id d); obj_rev := Some (Doc._rev d); obj_body := d |}.

Definition with_id_rev (d : Doc.t) (i r : string) : Doc.t :=
  Doc.mk i r (Doc.type_ d) (Doc.lcstate d) (Doc.availability d) (Doc.name d)
    (Doc.alt_ids d) (Doc.uirefid d) (Doc.keywords d) (Doc.nested d)
    (Doc.contact_email d) (Doc.s d) (Doc.st d) (Doc.p d) (Doc.o d) (Doc.ot d)
    (Doc.ts d) (Doc.retired d).

(** Modelled from the spec: [toDocument(object) -> Document] of the object
    marshalling ([IonObjectSerializer], not part of the sources at hand). *)
Definition serialize (x : IonObject) : Doc.t :=
  with_id_rev (obj_body x)
    (match obj_id x with Some i => i | None => "" end)
    (match obj_rev x with Some r => r | None => "" end).

Definition _persistence_dict_to_ion_object (obj_dict : option Doc.t)
    : option IonObject :=
  match obj_dict with
  | None => None
  | Some d => Some (deserialize d)
  end.

Definition _ion_object_to_persistence_dict (ion_object : IonObject) : Doc.t :=
  serialize ion_object.

(** The store: the documents of one database. *)
Definition Store : Type := list Doc.t.

(* ===================================================================== *)
(** ** View rows *)

Module Row.
Record t : Type := mk {
  id : string;
  key : Key;
  value : option Doc.t;
  doc : option Doc.t
}.
End Row.

(** Rows of a view come back ordered by key, rows of equal key by
    document id. *)
Definition row_leb (r1 r2 : Row.t) : bool :=
  match key_compare (Row.key r1) (Row.key r2) with
  | Lt => true
  | Gt => false
  | Eq => String.leb (Row.id r1) (Row.id r2)
  end.

(** The store keeps every index ordered; an insertion sort stands for it. *)
Fixpoint insert_row (r : Row.t) (l : list Row.t) : list Row.t :=
  match l with
  | [] => [r]
  | h :: t => if row_leb r h then r :: l else h :: insert_row r t
  end.

Definition sort_rows (l : list Row.t) : list Row.t :=
  fold_right insert_row [] l.

(* ===================================================================== *)
(** ** The views ([COUCHDB_VIEWS]) *)

Definition has_type (d : Doc.t) : bool := negb (Doc.type_ d =? "").

(** [doc.type_ == "Association" &&! doc.retired] *)
Definition is_association (d : Doc.t) : bool :=
  (Doc.type_ d =? "Association") && negb (Doc.retired d).

(** What [emit(key, value)] records: the value is [null] or the document. *)
Definition Emit : Type := (Key * option Doc.t)%type.

Module resource.

Definition by_type (d : Doc.t) : list Emit :=
  match Doc.lcstate d, Doc.name d with
  | Some lc, Some n =>
      if has_type d && negb (lc =? "RETIRED")
      then [(KArray [KStr (Doc.type_ d); KStr (substring200 n)], None)]
      else []
  | _, _ => []
  end.

Definition by_lcstate (d : Doc.t) : list Emit :=
  match Doc.lcstate d, Doc.availability d, Doc.name d with
  | Some lc, Some av, Some n =>
      if has_type d
      then [(KArray [KNum 0; KStr lc; KStr (Doc.type_ d); KStr (substring200 n)], None);
            (KArray [KNum 1; KStr av; KStr (Doc.type_ d); KStr (substring200 n)], None)]
      else []
  | _, _, _ => []
  end.

Definition by_name (d : Doc.t) : list Emit :=
  match Doc.lcstate d, Doc.name d with
  | Some lc, Some n =>
      if has_type d && negb (lc =? "RETIRED")
      then [(KArray [KStr n; KStr (Doc.type_ d)], None)]
      else []
  | _, _ => []
  end.

(** One alternate id: [namespace:value] is indexed as [[value, namespace]],
    everything else as [[altid, "_"]]. *)
Definition altid_key (altid : string) : Key :=
  match split ":" altid with
  | [ns; v] => KArray [KStr v; KStr ns]
  | _ => KArray [KStr altid; KStr "_"]
  end.

Definition by_altid (d : Doc.t) : list Emit :=
  match Doc.alt_ids d with
  | Some ids =>
      if has_type d && not_retired (Doc.lcstate d)
      then map (fun altid => (altid_key altid, None)) ids
      else if has_type d && truthy (Doc.uirefid d) && not_retired (Doc.lcstate d)
      then [(KArray [part (Doc.uirefid d); KStr "UIREFID"], None)]
      else []
  | None =>
      if has_type d && truthy (Doc.uirefid d) && not_retired (Doc.lcstate d)
      then [(KArray [part (Doc.uirefid d); KStr "UIREFID"], None)]
      else []
  end.

Definition by_keyword (d : Doc.t) : list Emit :=
  match Doc.keywords d with
  | Some kws =>
      if has_type d && not_retired (Doc.lcstate d)
      then map (fun kw => (KArray [KStr kw; KStr (Doc.type_ d)], None)) kws
      else []
  | None => []
  end.

Definition by_nestedtype (d : Doc.t) : list Emit :=
  if has_type d && not_retired (Doc.lcstate d)
  then map (fun nt => (KArray [KStr nt; KStr (Doc.type_ d)], None))
           (filter (fun nt => negb (nt =? "")) (Doc.nested d))
  else [].

Definition by_attribute (d : Doc.t) : list Emit :=
  if has_type d && not_retired (Doc.lcstate d)
  then match Doc.contact_email d with
       | Some email =>
           if Doc.type_ d =? "UserInfo"
           then [(KArray [KStr (Doc.type_ d); KStr "contact.email"; KStr email], None)]
           else []
       | None => []
       end
  else [].

End resource.

Module association.

Definition by_sub (d : Doc.t) : list Emit :=
  if is_association d
  then [(KArray [part (Doc.s d); part (Doc.p d); part (Doc.ot d); part (Doc.o d)], Some d)]
  else [].

Definition by_obj (d : Doc.t) : list Emit :=
  if is_association d
  then [(KArray [part (Doc.o d); part (Doc.p d); part (Doc.st d); part (Doc.s d)], Some d)]
  else [].

Definition by_match (d : Doc.t) : list Emit :=
  if is_association d
  then [(KArray [part (Doc.s d); part (Doc.o d); part (Doc.p d)], Some d)]
  else [].

Definition by_idpred (d : Doc.t) : list Emit :=
  if is_association d
  then [(KArray [part (Doc.s d); part (Doc.p d)], Some d);
        (KArray [part (Doc.o d); part (Doc.p d)], Some d)]
  else [].

Definition by_id (d : Doc.t) : list Emit :=
  if is_association d
  then [(KScalar (part (Doc.s d)), Some d); (KScalar (part (Doc.o d)), Some d)]
  else [].

Definition by_pred (d : Doc.t) : list Emit :=
  if is_association d
  then [(KArray [part (Doc.p d); part (Doc.s d); part (Doc.o d)], Some d)]
  else [].

End association.

(* ===================================================================== *)
(** ** Querying a view *)

(** The pagination options of a query, "forwarded unmodified to the
    store". *)
Record ViewArgs : Type := {
  limit : option nat;
  skip : option nat;
  descending : bool
}.

Definition no_filter : ViewArgs :=
  {| limit := None; skip := None; descending := false |}.

(** What part of the view is asked for: all of it ([rows = view]), a key
    range ([view[key:endkey]]) or a list of exact keys ([keys=...]). *)
Inductive Selector : Type :=
| All
| Range (startkey endkey : Key)
| Keys (keys : list Key).

(** The rows a map function emits for the documents of the store, before
    they are ordered. *)
Definition emitted (map_fun : Doc.t -> list Emit) (include_docs : bool)
    (db : Store) : list Row.t :=
  flat_map (fun d =>
    map (fun e => Row.mk (Doc._id d) (fst e) (snd e)
                    (if include_docs then Some d else None))
        (map_fun d)) db.

Definition in_range (startkey endkey : Key) (r : Row.t) : bool :=
  key_leb startkey (Row.key r) && key_leb (Row.key r) endkey.

Definition paginate (a : ViewArgs) (rows : list Row.t) : list Row.t :=
  let rows := match skip a with Some n => List.skipn n rows | None => rows end in
  match limit a with Some n => List.firstn n rows | None => rows end.

(** Modelled from the spec: [queryIndex(indexName, {startKey?, endKey?,
    keys?, limit?, skip?, descending?, includeDocuments?}) -> ordered
    sequence of Row] of the store.  The index in collation order (reversed
    when descending, the range then running from [startkey] down to
    [endkey]), restricted by the selector, then skip and limit. *)
Definition view (db : Store) (map_fun : Doc.t -> list Emit)
    (include_docs : bool) (a : ViewArgs) (sel : Selector) : list Row.t :=
  let index := sort_rows (emitted map_fun include_docs db) in
  let index := if descending a then rev index else index in
  let rows :=
    match sel with
    | All => index
    | Range startkey endkey =>
        if descending a then filter (in_range endkey startkey) index
        else filter (in_range startkey endkey) index
    | Keys keys =>
        flat_map (fun k => filter (fun r => key_eqb (Row.key r) k) index) keys
    end in
  paginate a rows.

(** Modelled from the spec: [_get_endkey] of the base store
    ([base_store.py], not part of the sources at hand), "the same sequence
    with a terminal maximal sentinel appended". *)
Definition _get_endkey (key : list KeyPart) : list KeyPart :=
  key ++ [END_MARKER].

(** [view[key:endkey]] with [endkey = _get_endkey(key)]. *)
Definition prefix_scan (key : list KeyPart) : Selector :=
  Range (KArray key) (KArray (_get_endkey key)).

(** [row['key'][i]] *)
Definition key_at (r : Row.t) (i : nat) : KeyPart :=
  match Row.key r with
  | KArray l => nth i l KNull
  | KScalar c => KNull
  end.

(* ===================================================================== *)
(** ** Exceptions, results and effects *)

(** What the store's client library ([couchdb.http]) raises. *)
Inductive http_exn : Type :=
| ResourceNotFound (reason : string)
| ServerError (reason : string).

(** The exceptions of [pyon.core.exception] that the datastore raises, with
    the message template of the raise site (before [%] interpolation), and
    the exceptions that pass through from below; [TypeError] is what the
    JSON encoder of the client library raises for a query key that holds
    an object. *)
Inductive exn : Type :=
| BadRequest (msg : string)
| NotFound (msg : string)
| Conflict (msg : string)
| AttributeError (msg : string)
| Http (e : http_exn)
| TypeError (msg : string).

Definition result (A : Type) : Type := (exn + A)%type.

Definition ok {A} (a : A) : result A := inr a.
Definition raise {A} (e : exn) : result A := inl e.

Definition bind {A B} (c : result A) (k : A -> result B) : result B :=
  match c with
  | inl e => inl e
  | inr a => k a
  end.

Notation "x <- c ;; k" := (bind c (fun x => k))
  (at level 61, c at next level, right associativity).

(** A call that writes to the store or to the log: the warnings logged,
    the store it leaves (also when it raises) and its outcome. *)
Definition M (A : Type) : Type := Store -> (list string * Store * result A).

Definition retM {A} (a : A) : M A := fun db => ([], db, inr a).
Definition raiseM {A} (e : exn) : M A := fun db => ([], db, inl e).
Definition lift {A} (q : Store -> result A) : M A := fun db => ([], db, q db).
Definition warn (msg : string) : M unit := fun db => ([msg], db, inr tt).
Definition modify (f : Store -> Store) : M unit := fun db => ([], f db, inr tt).

Definition bindM {A B} (c : M A) (k : A -> M B) : M B :=
  fun db =>
    match c db with
    | (w, db', inl e) => (w, db', inl e)
    | (w, db', inr a) =>
        match k a db' with
        | (w', db'', r) => (w ++ w', db'', r)
        end
    end.

Notation "x <~ c ;; k" := (bindM c (fun x => k))
  (at level 61, c at next level, right associativity).

(* ===================================================================== *)
(** ** Arguments *)

(** A document given by its id (a [str]) or as a loaded object. *)
Inductive Ref : Type :=
| ById (object_id : string)
| Loaded (x : IonObject).

(** Python truthiness of such an argument; [None] is the default. *)
Definition given (r : option Ref) : bool :=
  match r with
  | None => false
  | Some (ById i) => negb (i =? "")
  | Some (Loaded _) => true
  end.

(** An element of an [anyside] list: an id (a [str]), a list or tuple of
    JSON scalars, as (object id, predicate) is, or anything else (an
    object, a number, [None]). *)
Inductive AnyElement : Type :=
| ElemId (object_id : string)
| ElemTuple (parts : list KeyPart)
| ElemOther.

(** The [anyside] argument: one id, a list or tuple of elements, or a
    loaded object. *)
Inductive Anyside : Type :=
| AnyId (object_id : string)
| AnyList (elements : list AnyElement)
| AnyObject (x : IonObject).

(** Python truthiness of the argument; [None] is the default. *)
Definition given_anyside (a : option Anyside) : bool :=
  match a with
  | None => false
  | Some (AnyId i) => negb (i =? "")
  | Some (AnyList l) => negb (Nat.eqb (List.length l) 0)
  | Some (AnyObject _) => true
  end.

(** [type(anyside) in (list, tuple)] *)
Definition is_list (a : option Anyside) : bool :=
  match a with
  | Some (AnyList _) => true
  | _ => false
  end.

(** [type(o) in (str, list, tuple)] *)
Definition is_id_or_tuple (o : AnyElement) : bool :=
  match o with
  | ElemId _ | ElemTuple _ => true
  | ElemOther => false
  end.

(** An element of [anyside_ids] as a key of the query. *)
Definition element_key (o : AnyElement) : Key :=
  match o with
  | ElemId i => KScalar (KStr i)
  | ElemTuple parts => KArray parts
  | ElemOther => KScalar KNull
  end.

(** A list of ids or a list of objects, as [id_only] selects. *)
Inductive Found : Type :=
| Ids (l : list string)
| Objects (l : list (option IonObject)).

(** [dict(...)] of index-key fields, as the find functions return them. *)
Definition Dict : Type := list (string * KeyPart).

(** The argument of [delete_doc]: an id or a persistence dict. *)
Inductive DocArg : Type :=
| DocId (doc_id : string)
| DocDict (d : Doc.t).

(** The argument of [delete_association]: a 3-list or anything else. *)
Inductive AssocArg : Type :=
| Triple (subject : option Ref) (predicate : option string) (obj : option Ref)
| One (association : Ref).

(** A predicate definition of [pyon.ion.resource.Predicates]. *)
Record PredicateDef : Type := {
  domain : list string;
  range : list string
}.

(* ===================================================================== *)
(** ** The base store ([CouchDataStore], an external collaborator) *)

(** Modelled from the spec: [get(id) -> Document] of the base store
    ([base_store.py] is not part of the sources at hand); an absent id is
    [NotFound]. *)
Definition read_doc (db : Store) (doc_id : string) : result Doc.t :=
  match find (fun d => Doc._id d =? doc_id) db with
  | Some d => ok d
  | None => raise (NotFound "Object with id %s does not exist.")
  end.

(** Modelled from the spec: [getMany(ids)] of the base store. *)
Fixpoint read_doc_mult (db : Store) (object_ids : list string)
    : result (list Doc.t) :=
  match object_ids with
  | [] => ok []
  | i :: rest =>
      d <- read_doc db i ;;
      ds <- read_doc_mult db rest ;;
      ok (d :: ds)
  end.

(** Modelled from the spec: [put(doc) -> (id, revision)] of the base store
    with a suggested id; the revision is the store's. *)
Definition create_doc (d : Doc.t) (object_id : string) : M (string * string) :=
  fun db =>
    if existsb (fun x => Doc._id x =? object_id) db
    then ([], db, inl (BadRequest "Object with id %s already exist"))
    else ([], db ++ [with_id_rev d object_id "1"], inr (object_id, "1")).

(** Modelled from the spec: [delete(id, revision)] of the base store; an
    absent id is [NotFound], a stale revision is [Conflict]. *)
Definition base_delete_doc (doc : DocArg) : M unit :=
  fun db =>
    let doc_id := match doc with DocId i => i | DocDict d => Doc._id d end in
    match find (fun d => Doc._id d =? doc_id) db with
    | None => ([], db, inl (NotFound "Object with id %s does not exist."))
    | Some stored =>
        let stale := match doc with
                     | DocId _ => false
                     | DocDict d => negb (Doc._rev d =? Doc._rev stored)
                     end in
        if stale then ([], db, inl (Conflict "Object not based on most current version"))
        else ([], filter (fun d => negb (Doc._id d =? doc_id)) db, inr tt)
    end.

(** Modelled from the spec: [deleteMany(ids)] of the base store. *)
Definition delete_doc_mult (object_ids : list string) : M unit :=
  modify (filter (fun d => negb (mem (Doc._id d) object_ids))).

(* ===================================================================== *)
(** ** The view designs of a profile ([get_couch_view_designs]) *)

(** A Python dict with string keys, in insertion order: [d[k]] (a missing
    key is a [KeyError], here [None]) and [d[k] = v]. *)
Fixpoint getitem {V} (d : list (string * V)) (k : string) : option V :=
  match d with
  | [] => None
  | (k', v) :: rest => if k' =? k then Some v else getitem rest k
  end.

Fixpoint setitem {V} (d : list (string * V)) (k : string) (v : V)
    : list (string * V) :=
  match d with
  | [] => [(k, v)]
  | (k', v') :: rest =>
      if k' =? k then (k, v) :: rest else (k', v') :: setitem rest k v
  end.

(** [COUCHDB_CONFIGS]: the view categories of every datastore profile. *)
Definition COUCHDB_CONFIGS : list (string * list string) :=
  [("OBJECTS", ["object"; "association"; "attachment"]);
   ("RESOURCES", ["resource"; "directory"; "association"; "attachment"]);
   ("EVENTS", ["event"]);
   ("STATE", []);
   ("SCIDATA", ["datasets"; "manifest"]);
   ("EXAMPLES", ["posts"]);
   ("BASIC", []);
   ("FILESYSTEM", ["catalog"])].

(** [COUCHDB_VIEWS]: the views of every category, each view standing for
    its map function. *)
Definition COUCHDB_VIEWS : list (string * list string) :=
  [("resource", ["by_type"; "by_lcstate"; "by_name"; "by_altid"; "by_keyword";
                 "by_nestedtype"; "by_attribute"]);
   ("object", ["by_type"]);
   ("attachment", ["by_resource"]);
   ("association", ["by_doc"; "by_sub"; "by_obj"; "by_match"; "by_idpred"; "by_id";
                    "by_pred"; "by_bulk"; "by_subject_bulk"]);
   ("directory", ["by_path"; "by_key"; "by_parent"; "by_attribute"]);
   ("event", ["by_time"; "by_type"; "by_origin"; "by_origintype"]);
   ("posts", ["dataset_by_id"; "posts_by_id"; "posts_by_title"; "posts_by_updated";
              "posts_by_author"; "comments_by_post_id"; "comments_by_author";
              "comments_by_updated"; "posts_join_comments"; "posts_by_author_date"]);
   ("datasets", ["bounds"; "stream_join_granule"; "dataset_by_id";
                 "dataset_by_latest"]);
   ("manifest", ["by_dataset"]);
   ("catalog", ["file_by_name"; "file_by_created_date"; "file_by_modified_date";
                "file_by_owner"])].

Definition get_couch_view_designs (config : string)
    : option (list (string * list string)) :=
  match getitem COUCHDB_CONFIGS config with
  | None => None
  | Some views =>
      fold_left
        (fun res_views view =>
           match res_views with
           | None => None
           | Some res =>
               match getitem COUCHDB_VIEWS view with
               | None => None
               | Some design => Some (setitem res view design)
               end
           end)
        views (Some [])
  end.

(* ===================================================================== *)
(** ** The directory index by path *)

Module directory.

(** The fields of a directory entry that the view reads. *)
Record DirEntry : Type := {
  type_ : string;
  org : string;
  parent : string;
  key : string
}.

(** [levels] as the map function computes it: the pieces of the parent
    path without the first one ([splice(0, 1)]), without the second one
    too when the parent is the root, then the key of the entry. *)
Definition levels (doc : DirEntry) : list string :=
  let levels := split "/" (parent doc) in
  let levels := tl levels in
  let levels := if parent doc =? "/" then tl levels else levels in
  levels ++ [key doc].

(** [emit([doc.org, levels], doc)] *)
Definition by_path (doc : DirEntry) : list ((string * list string) * DirEntry) :=
  if type_ doc =? "DirEntry" then [((org doc, levels doc), doc)] else [].

End directory.

(* ===================================================================== *)
(** ** [CouchPyonDataStore] *)

Section Datastore.

(** Static metadata of the container, declared outside these sources:
    [pyon.core.registry.getextends] (the types that extend a type),
    [pyon.ion.resource.Predicates] and
    [CommonResourceLifeCycleSM.AVAILABILITY]. *)
Variable getextends : string -> list string.
Variable Predicates : string -> option PredicateDef.
Variable AVAILABILITY : list string.

(** *** Document operations *)

Definition create (obj : IonObject) (object_id : string) : M (string * string) :=
  create_doc (_ion_object_to_persistence_dict obj) object_id.

Definition read (db : Store) (object_id : string) : result IonObject :=
  d <- read_doc db object_id ;;
  ok (deserialize d).

(** [read_mult]: the ids come from association fields and may be [None],
    which is not a [str]. *)
Definition read_mult (db : Store) (object_ids : list (option string))
    : result (list (option IonObject)) :=
  if existsb (fun i => negb (defined i)) object_ids
  then raise (BadRequest "Object ids are not string: %s")
  else
    docs <- read_doc_mult db
              (flat_map (fun i => match i with Some v => [v] | None => [] end)
                        object_ids) ;;
    ok (map (fun d => _persistence_dict_to_ion_object (Some d)) docs).

(** *** View operations on associations *)

(** [subject_id = subject if type(subject) is str else subject._id], with
    the check that a loaded object carries an ["_id"]; only evaluated when
    the argument is given. *)
Definition ref_id (msg : string) (r : option Ref) : result string :=
  match r with
  | Some (ById i) => ok i
  | Some (Loaded x) =>
      match obj_id x with
      | Some i => ok i
      | None => raise (BadRequest msg)
      end
  | None => ok ""
  end.

(** [anyside_ids], computed when [anyside] is given: the id, the list
    once its elements are checked, or the id of the loaded object. *)
Definition anyside_ids_of (anyside : option Anyside) : result (list AnyElement) :=
  match anyside with
  | Some (AnyId i) => ok [ElemId i]
  | Some (AnyList l) =>
      if negb (forallb is_id_or_tuple l)
      then raise (BadRequest "List of object ids or (object id, predicate) expected")
      else ok l
  | Some (AnyObject x) =>
      match obj_id x with
      | None => raise (BadRequest "Object id not available in anyside")
      | Some i => ok [ElemId i]
      end
  | None => ok []
  end.

(** The rows that [find_associations] selects, before [id_only] projects
    them.  With a predicate the any-side key is [[anyside, predicate]],
    built from the argument itself: an id gives a scan of the by-idpred
    index; a loaded object cannot be written as JSON, and the client
    library raises [TypeError] when the rows are read; a list does not
    get there.  Without a predicate the first element of [anyside_ids]
    (there is one, [anyside] being given) selects the index. *)
Definition find_associations_rows (db : Store) (subject : option Ref)
    (predicate : option string) (obj : option Ref) (anyside : option Anyside)
    (kwargs : ViewArgs) : result (list Row.t) :=
  if negb (given subject || given obj || truthy predicate || given_anyside anyside)
  then raise (BadRequest "Illegal parameters: No S/P/O or anyside")
  else if given_anyside anyside && (given subject || given obj)
  then raise (BadRequest "Illegal parameters: anyside cannot be combined with S/O")
  else if given_anyside anyside && truthy predicate && is_list anyside
  then raise (BadRequest "Illegal parameters: anyside list cannot be combined with P")
  else
    subject_id <- (if given subject
                   then ref_id "Object id not available in subject" subject
                   else ok "") ;;
    object_id <- (if given obj
                  then ref_id "Object id not available in object" obj
                  else ok "") ;;
    anyside_ids <- (if given_anyside anyside
                    then anyside_ids_of anyside
                    else ok []) ;;
    let pred := if truthy predicate then [part predicate] else [] in
    if given subject && given obj
    then ok (view db association.by_match false kwargs
               (prefix_scan ([KStr subject_id; KStr object_id] ++ pred)))
    else if given subject
    then ok (view db association.by_sub false kwargs
               (prefix_scan ([KStr subject_id] ++ pred)))
    else if given obj
    then ok (view db association.by_obj false kwargs
               (prefix_scan ([KStr object_id] ++ pred)))
    else if given_anyside anyside
    then
      if truthy predicate
      then match anyside with
           | Some (AnyId i) =>
               ok (view db association.by_idpred false kwargs
                     (prefix_scan [KStr i; part predicate]))
           | _ => raise (TypeError "%r is not JSON serializable")
           end
      else match anyside_ids with
           | ElemId _ :: _ =>
               ok (view db association.by_id false kwargs
                     (Keys (map element_key anyside_ids)))
           | _ =>
               ok (view db association.by_idpred false kwargs
                     (Keys (map element_key anyside_ids)))
           end
    else if truthy predicate
    then ok (view db association.by_pred false kwargs
               (prefix_scan [part predicate]))
    else raise (BadRequest "Illegal arguments").

Definition find_associations (db : Store) (subject : option Ref)
    (predicate : option string) (obj : option Ref) (id_only : bool)
    (anyside : option Anyside) (kwargs : ViewArgs) : result Found :=
  rows <- find_associations_rows db subject predicate obj anyside kwargs ;;
  if id_only
  then ok (Ids (map Row.id rows))
  else ok (Objects (map (fun row => _persistence_dict_to_ion_object (Row.value row)) rows)).

(** Python truthiness and [len] of the list returned. *)
Definition found_length (f : Found) : nat :=
  match f with
  | Ids l => List.length l
  | Objects l => List.length l
  end.

(** The ids of a result asked for with [id_only=True]. *)
Definition found_ids (f : Found) : list string :=
  match f with
  | Ids l => l
  | Objects _ => []
  end.

Definition _is_in_association (db : Store) (obj_id : string) : result bool :=
  if obj_id =? ""
  then raise (BadRequest "Must provide object id")
  else
    assoc_ids <- find_associations db None None None true (Some (AnyId obj_id))
                   {| limit := Some 1; skip := None; descending := false |} ;;
    ok (negb (Nat.eqb (found_length assoc_ids) 0)).

(** *** Deleting *)

Definition delete_doc (doc : DocArg) (del_associations : bool) : M unit :=
  let doc_id := match doc with DocId i => i | DocDict d => Doc._id d end in
  _ <~ (if del_associations
        then
          assoc_ids <~ lift (fun db =>
            find_associations db None None None true (Some (AnyId doc_id)) no_filter) ;;
          delete_doc_mult (found_ids assoc_ids)
        else
          referenced <~ lift (fun db => _is_in_association db doc_id) ;;
          if referenced : bool
          then warn "Deleting object %s that still has associations"
          else retM tt) ;;
  base_delete_doc doc.

Definition delete (obj : Ref) (del_associations : bool) : M unit :=
  match obj with
  | ById i => delete_doc (DocId i) del_associations
  | Loaded x =>
      match obj_id x, obj_rev x with
      | None, _ => raiseM (BadRequest "Doc must have '_id'")
      | Some _, None => raiseM (BadRequest "Doc must have '_rev'")
      | Some _, Some _ =>
          delete_doc (DocDict (_ion_object_to_persistence_dict x)) del_associations
      end
  end.

(** *** Association operations *)

(** Lines 149-157 and 159-167 of [create_association]: an id is read from
    the store, a loaded object must carry ["_id"] and ["_rev"]; the result
    is the object, its id and its type. *)
Definition resolve (db : Store) (msg : string) (r : Ref)
    : result (IonObject * string * string) :=
  match r with
  | ById i =>
      x <- read db i ;;
      ok (x, i, _get_type x)
  | Loaded x =>
      match obj_id x, obj_rev x with
      | Some i, Some _ => ok (x, i, _get_type x)
      | _, _ => raise (BadRequest msg)
      end
  end.

(** The type check of lines 179-194: the type is in the declared set, or
    among the types that extend one of the declared types. *)
Definition type_permitted (t : string) (allowed : list string) : bool :=
  mem t allowed || existsb (fun a => mem t (getextends a)) allowed.

(** [IonObject("Association", s=..., st=..., p=..., o=..., ot=..., ts=...)] *)
Definition new_association (subject_id subject_type predicate object_id
    object_type ts : string) : IonObject :=
  {| obj_id := None; obj_rev := None;
     obj_body := Doc.mk "" "" "Association" None None None None None None []
                   None (Some subject_id) (Some subject_type) (Some predicate)
                   (Some object_id) (Some object_type) (Some ts) false |}.

(** [create_association]; [new_id] is what [create_unique_association_id()]
    returns and [ts] what [get_ion_ts()] returns at the call.  A predicate
    that [Predicates] does not know is the [except AttributeError] branch. *)
Definition create_association (subject : option Ref) (predicate : option string)
    (obj : option Ref) (new_id ts : string) : M (string * string) :=
  match subject, predicate, obj with
  | Some sref, Some pred, Some oref =>
      if negb (given subject && truthy predicate && given obj)
      then raiseM (BadRequest "Association must have all elements set")
      else
        sub <~ lift (fun db => resolve db "Subject id or rev not available" sref) ;;
        ob <~ lift (fun db => resolve db "Object id or rev not available" oref) ;;
        let '(sx, subject_id, subject_type) := sub in
        let '(ox, object_id, object_type) := ob in
        match Predicates pred with
        | None => raiseM (BadRequest "Predicate unknown %s")
        | Some pt =>
            if negb (type_permitted subject_type (domain pt))
            then raiseM (BadRequest "Illegal subject type %s for predicate %s")
            else if negb (type_permitted object_type (range pt))
            then raiseM (BadRequest "Illegal object type %s for predicate %s")
            else
              assoc_list <~ lift (fun db =>
                find_associations db (Some (Loaded sx)) predicate (Some (Loaded ox))
                  false None no_filter) ;;
              if negb (Nat.eqb (found_length assoc_list) 0)
              then raiseM (BadRequest
                     "Association between %s and %s with predicate %s already exists")
              else create (new_association subject_id subject_type pred
                             object_id object_type ts) new_id
        end
  | _, _, _ => raiseM (BadRequest "Association must have all elements set")
  end.

(** [delete_association]: [self.delete] returns [None], so in the loop
    [success = success and self.delete(aid)] the first id is deleted, the
    conjunction becomes [None] and short-circuits for the ids that follow. *)
Definition delete_association (association : AssocArg) : M (option bool) :=
  match association with
  | Triple subject predicate obj =>
      assoc_id_list <~ lift (fun db =>
        find_associations db subject predicate obj true None no_filter) ;;
      match found_ids assoc_id_list with
      | [] => retM (Some true)
      | aid :: _ =>
          _ <~ delete (ById aid) false ;;
          retM None
      end
  | One a =>
      _ <~ delete a false ;;
      retM None
  end.

(** *** One-hop traversal *)

(** What [find_objects] and [find_subjects] return first: the neighbour
    ids, or the neighbours read from the store. *)
Inductive Neighbours : Type :=
| NeighbourIds (l : list (option string))
| NeighbourObjects (l : list (option IonObject)).

(** [[assoc.o for assoc in obj_assocs]] *)
Fixpoint attr_of (f : Doc.t -> option string) (l : list (option IonObject))
    : result (list (option string)) :=
  match l with
  | [] => ok []
  | None :: _ => raise (AttributeError "'NoneType' object has no attribute")
  | Some x :: rest =>
      ids <- attr_of f rest ;;
      ok (f (obj_body x) :: ids)
  end.

Definition find_objects (db : Store) (subject : option Ref)
    (predicate object_type : option string) (id_only : bool)
    (kwargs : ViewArgs) : result (Neighbours * list (option IonObject)) :=
  if negb (given subject)
  then raise (BadRequest "Must provide subject")
  else if truthy object_type && negb (truthy predicate)
  then raise (BadRequest "Cannot provide object type without a predictate")
  else
    subject_id <- ref_id "Object id not available in subject" subject ;;
    let key := [KStr subject_id] ++
               (if truthy predicate
                then [part predicate] ++
                     (if truthy object_type then [part object_type] else [])
                else []) in
    let rows := view db association.by_sub false kwargs (prefix_scan key) in
    let obj_assocs :=
      map (fun row => _persistence_dict_to_ion_object (Row.value row)) rows in
    obj_ids <- attr_of Doc.o obj_assocs ;;
    if id_only
    then ok (NeighbourIds obj_ids, obj_assocs)
    else
      obj_list <- read_mult db obj_ids ;;
      ok (NeighbourObjects obj_list, obj_assocs).

Definition find_subjects (db : Store) (subject_type predicate : option string)
    (obj : option Ref) (id_only : bool) (kwargs : ViewArgs)
    : result (Neighbours * list (option IonObject)) :=
  if negb (given obj)
  then raise (BadRequest "Must provide object")
  else if truthy subject_type && negb (truthy predicate)
  then raise (BadRequest "Cannot provide subject type without a predicate")
  else
    object_id <- ref_id "Object id not available in object" obj ;;
    let key := [KStr object_id] ++
               (if truthy predicate
                then [part predicate] ++
                     (if truthy subject_type then [part subject_type] else [])
                else []) in
    let rows := view db association.by_obj false kwargs (prefix_scan key) in
    let sub_assocs :=
      map (fun row => _persistence_dict_to_ion_object (Row.value row)) rows in
    sub_ids <- attr_of Doc.s sub_assocs ;;
    if id_only
    then ok (NeighbourIds sub_ids, sub_assocs)
    else
      sub_list <- read_mult db sub_ids ;;
      ok (NeighbourObjects sub_list, sub_assocs).

(** *** Resource queries *)

Definition ResourceResult : Type := (Found * list Dict)%type.

Definition _prepare_find_return (rows : list Row.t) (res_assocs : list Dict)
    (id_only : bool) : ResourceResult :=
  if id_only
  then (Ids (map Row.id rows), res_assocs)
  else (Objects (map (fun row => _persistence_dict_to_ion_object (Row.doc row)) rows),
        res_assocs).

(** [filter if filter is not None else {}] *)
Definition filter_args (f : option ViewArgs) : ViewArgs :=
  match f with Some a => a | None => no_filter end.

(** [key.append(restype)] under [if restype:] *)
Definition optional (x : option string) : list KeyPart :=
  if truthy x then [part x] else [].

Definition find_res_by_type (db : Store) (restype lcstate : option string)
    (id_only : bool) (filter : option ViewArgs) : result ResourceResult :=
  if truthy lcstate
  then raise (BadRequest "lcstate not supported anymore in find_res_by_type")
  else
    let rows := view db resource.by_type (negb id_only) (filter_args filter)
                  (if truthy restype then prefix_scan [part restype] else All) in
    let res_assocs :=
      map (fun row => [("type", key_at row 0); ("name", key_at row 1);
                       ("id", KStr (Row.id row))]) rows in
    ok (_prepare_find_return rows res_assocs id_only).

(** [find_res_by_lcstate]; the first component is what [log.warn] received. *)
Definition find_res_by_lcstate (db : Store) (lcstate : string)
    (restype : option string) (id_only : bool) (filter : option ViewArgs)
    : list string * result ResourceResult :=
  let compound := contains "_" lcstate in
  let lcstate := if compound then fst (split_first "_" lcstate) else lcstate in
  let key := (if mem lcstate AVAILABILITY
              then [KNum 1; KStr lcstate]
              else [KNum 0; KStr lcstate]) ++ optional restype in
  let rows := view db resource.by_lcstate (negb id_only) (filter_args filter)
                (prefix_scan key) in
  let res_assocs :=
    map (fun row => [("lcstate", key_at row 1); ("type", key_at row 2);
                     ("name", key_at row 3); ("id", KStr (Row.id row))]) rows in
  (if compound then ["Search for compound lcstate restricted to maturity: %s"] else [],
   ok (_prepare_find_return rows res_assocs id_only)).

Definition find_res_by_name (db : Store) (name : string) (restype : option string)
    (id_only : bool) (filter : option ViewArgs) : result ResourceResult :=
  let rows := view db resource.by_name (negb id_only) (filter_args filter)
                (prefix_scan ([KStr name] ++ optional restype)) in
  let res_assocs :=
    map (fun row => [("name", key_at row 0); ("type", key_at row 1);
                     ("id", KStr (Row.id row))]) rows in
  ok (_prepare_find_return rows res_assocs id_only).

Definition find_res_by_keyword (db : Store) (keyword restype : option string)
    (id_only : bool) (filter : option ViewArgs) : result ResourceResult :=
  if negb (truthy keyword)
  then raise (BadRequest "Argument keyword illegal")
  else
    let rows := view db resource.by_keyword (negb id_only) (filter_args filter)
                  (prefix_scan ([part keyword] ++ optional restype)) in
    let res_assocs :=
      map (fun row => [("keyword", key_at row 0); ("type", key_at row 1);
                       ("id", KStr (Row.id row))]) rows in
    ok (_prepare_find_return rows res_assocs id_only).

Definition find_res_by_nested_type (db : Store) (nested_type restype : option string)
    (id_only : bool) (filter : option ViewArgs) : result ResourceResult :=
  if negb (truthy nested_type)
  then raise (BadRequest "Argument nested_type illegal")
  else
    let rows := view db resource.by_nestedtype (negb id_only) (filter_args filter)
                  (prefix_scan ([part nested_type] ++ optional restype)) in
    let res_assocs :=
      map (fun row => [("nested_type", key_at row 0); ("type", key_at row 1);
                       ("id", KStr (Row.id row))]) rows in
    ok (_prepare_find_return rows res_assocs id_only).

Definition find_res_by_attribute (db : Store) (restype attr_name attr_value : option string)
    (id_only : bool) (filter : option ViewArgs) : result ResourceResult :=
  if negb (truthy attr_name)
  then raise (BadRequest "Argument attr_name illegal")
  else
    let rows := view db resource.by_attribute (negb id_only) (filter_args filter)
                  (prefix_scan ([part restype; part attr_name] ++ optional attr_value)) in
    let res_assocs :=
      map (fun row => [("type", key_at row 0); ("attr_name", key_at row 1);
                       ("attr_value", key_at row 2); ("id", KStr (Row.id row))]) rows in
    ok (_prepare_find_return rows res_assocs id_only).

(** [row['key'][1] == alt_id_ns] *)
Definition in_namespace (alt_id_ns : option string) (row : Row.t) : bool :=
  match key_at row 1, alt_id_ns with
  | KStr ns, Some v => ns =? v
  | _, _ => false
  end.

Definition find_res_by_alternative_id (db : Store) (alt_id alt_id_ns : option string)
    (id_only : bool) (filter : option ViewArgs) : result ResourceResult :=
  let key := if truthy alt_id
             then [part alt_id] ++
                  (match alt_id_ns with Some ns => [KStr ns] | None => [] end)
             else [] in
  let rows := view db resource.by_altid (negb id_only) (filter_args filter)
                (prefix_scan key) in
  let kept := if truthy alt_id_ns && negb (truthy alt_id)
              then List.filter (in_namespace alt_id_ns) rows
              else rows in
  let res_assocs :=
    map (fun row => [("alt_id", key_at row 0); ("alt_id_ns", key_at row 1);
                     ("id", KStr (Row.id row))]) kept in
  if id_only
  then ok (Ids (map Row.id kept), res_assocs)
  else ok (Objects (map (fun row => _persistence_dict_to_ion_object (Row.doc row)) kept),
           res_assocs).

(** Modelled from the spec: [_get_view_args] of the base store
    ([base_store.py], not part of the sources at hand); the pagination
    arguments are "forwarded unmodified to the store". *)
Definition _get_view_args (limit skip : option nat) (descending : bool) : ViewArgs :=
  {| limit := limit; skip := skip; descending := descending |}.

(** The dispatcher; the warnings are those of the function it calls.  The
    last [elif] of the source holds whenever it is reached. *)
Definition find_resources_ext (db : Store) (restype lcstate name : string)
    (keyword nested_type attr_name attr_value alt_id alt_id_ns : option string)
    (limit skip : option nat) (descending id_only : bool)
    : list string * result ResourceResult :=
  let filter_kwargs := Some (_get_view_args limit skip descending) in
  if truthy (Some name)
  then
    if truthy (Some lcstate)
    then ([], raise (BadRequest "find by name does not support lcstate"))
    else ([], find_res_by_name db name (Some restype) id_only filter_kwargs)
  else if truthy keyword
  then ([], find_res_by_keyword db keyword (Some restype) id_only filter_kwargs)
  else if truthy alt_id || truthy alt_id_ns
  then ([], find_res_by_alternative_id db alt_id alt_id_ns id_only filter_kwargs)
  else if truthy nested_type
  then ([], find_res_by_nested_type db nested_type (Some restype) id_only filter_kwargs)
  else if truthy (Some restype) && truthy attr_name
  then ([], find_res_by_attribute db (Some restype) attr_name attr_value id_only
              filter_kwargs)
  else if truthy (Some restype) && truthy (Some lcstate)
  then find_res_by_lcstate db lcstate (Some restype) id_only filter_kwargs
  else if truthy (Some restype)
  then ([], find_res_by_type db (Some restype) (Some lcstate) id_only filter_kwargs)
  else if truthy (Some lcstate)
  then find_res_by_lcstate db lcstate (Some restype) id_only filter_kwargs
  else ([], find_res_by_type db None None id_only filter_kwargs).

Definition find_resources (db : Store) (restype lcstate name : string)
    (id_only : bool) : list string * result ResourceResult :=
  find_resources_ext db restype lcstate name None None None None None None
    None None false id_only.

(* ===================================================================== *)
(** ** Row projection ([query_view], [_parse_results]) *)

(** Primitive values of a store response. *)
Inductive Prim : Type :=
| PNone
| PBool (b : bool)
| PInt (n : Z)
| PStr (v : string).

(** What [_parse_results] receives: a [ViewResults] whose [rows] are fetched
    from the store when first read (and the fetch can fail), a [Row], a
    list, a dict, or anything else. *)
Inductive Raw : Type :=
| ViewResults (rows : http_exn + list Raw)
| RawRow (id : option string) (key value : Raw) (doc : option Raw)
| RawList (l : list Raw)
| RawDict (items : list (string * Raw))
| RawPrim (x : Prim).

(** What it returns. *)
Inductive Parsed : Type :=
| ParsedList (l : list Parsed)
| ParsedDict (items : list (string * Parsed))
| ParsedObject (x : IonObject)
| ParsedPrim (x : Prim).

(** The deserializer applied to a dict of a store response, an external
    collaborator. *)
Variable _io_deserializer : list (string * Raw) -> IonObject.

(** [except ResourceNotFound as e: raise BadRequest(...)] *)
Definition except_ResourceNotFound {A} (r : result A) : result A :=
  match r with
  | inl (Http (ResourceNotFound _)) =>
      raise (BadRequest "The desired resource does not exist.")
  | _ => r
  end.

Fixpoint _parse_results (doc : Raw) : result Parsed :=
  match doc with
  | ViewResults rows =>
      except_ResourceNotFound
        match rows with
        | inl e => raise (Http e)
        | inr l =>
            ret <- (fix elements (l : list Raw) : result (list Parsed) :=
                      match l with
                      | [] => ok []
                      | element :: rest =>
                          x <- _parse_results element ;;
                          xs <- elements rest ;;
                          ok (x :: xs)
                      end) l ;;
            ok (ParsedList ret)
        end
  | RawRow id key value doc' =>
      k <- _parse_results key ;;
      v <- _parse_results value ;;
      d <- match doc' with
           | Some x => y <- _parse_results x ;; ok [("doc", y)]
           | None => ok []
           end ;;
      ok (ParsedDict
            ((match id with Some i => [("id", ParsedPrim (PStr i))] | None => [] end)
             ++ [("key", k); ("value", v)] ++ d))
  | RawList l =>
      ret <- (fix elements (l : list Raw) : result (list Parsed) :=
                match l with
                | [] => ok []
                | element :: rest =>
                    x <- _parse_results element ;;
                    xs <- elements rest ;;
                    ok (x :: xs)
                end) l ;;
      ok (ParsedList ret)
  | RawDict items =>
      if existsb (fun kv => fst kv =? "_id") items
      then ok (ParsedObject (_io_deserializer items))
      else
        ret <- (fix entries (l : list (string * Raw)) : result (list (string * Parsed)) :=
                  match l with
                  | [] => ok []
                  | (key, value) :: rest =>
                      x <- _parse_results value ;;
                      xs <- entries rest ;;
                      ok ((key, x) :: xs)
                  end) items ;;
        ok (ParsedDict ret)
  | RawPrim x => ok (ParsedPrim x)
  end.

(** [query_view]: the store's answer to [ds.view(view_name, **opts)],
    parsed. *)
Definition query_view (answer : Raw) : result Parsed :=
  _parse_results answer.

(* ===================================================================== *)
(** ** Vocabulary of the properties *)

(** A resource that is not retired: a typed document with a lifecycle
    state other than RETIRED and a name. *)
Definition live_resource (d : Doc.t) : bool :=
  has_type d
  && match Doc.lcstate d with Some lc => negb (lc =? "RETIRED") | None => false end
  && defined (Doc.name d).

Definition name_of (d : Doc.t) : string :=
  match Doc.name d with Some n => n | None => "" end.

(** The row of the by-type index for a document: the key is the type and
    the first 200 characters of the name. *)
Definition by_type_row (include_docs : bool) (d : Doc.t) : Row.t :=
  Row.mk (Doc._id d) (KArray [KStr (Doc.type_ d); KStr (substring200 (name_of d))])
    None (if include_docs then Some d else None).



(** Rows in the order of the index: by key, then by document id. *)
Definition row_le (r1 r2 : Row.t) : Prop := row_leb r1 r2 = true.

(** Rows whose key is an array of real components and whose value is the
    document: what every association index with array keys holds. *)
Definition edge_row (r : Row.t) : Prop :=
  (exists l, Row.key r = KArray l /\ Forall real l)
  /\ (exists d, Row.value r = Some d).

(** Rows in the order of their keys. *)
Definition key_le (r1 r2 : Row.t) : Prop :=
  key_leb (Row.key r1) (Row.key r2) = true.

(** The descriptive mapping that [find_res_by_type] builds for a row. *)
Definition type_name_id (row : Row.t) : Dict :=
  [("type", key_at row 0); ("name", key_at row 1); ("id", KStr (Row.id row))].

(** How often a character occurs in a string. *)
Fixpoint occurrences (c : ascii) (v : string) : nat :=
  match v with
  | EmptyString => 0
  | String a r => (if Ascii.eqb a c then 1 else 0) + occurrences c r
  end.

(** The descriptive mapping that [find_res_by_lcstate] builds for a row. *)
Definition lcstate_type_name_id (row : Row.t) : Dict :=
  [("lcstate", key_at row 1); ("type", key_at row 2); ("name", key_at row 3);
   ("id", KStr (Row.id row))].

(** The scan key of a one-hop traversal: the seed id, then the predicate
    when given, then the endpoint type when given with a predicate. *)
Definition traversal_key (seed : string) (predicate endpoint_type : option string)
    : list KeyPart :=
  [KStr seed] ++
  (if truthy predicate
   then [part predicate] ++ (if truthy endpoint_type then [part endpoint_type] else [])
   else []).

(** The edges of a list of association rows:
    [[self._persistence_dict_to_ion_object(row['value']) for row in rows]]. *)
Definition edges (rows : list Row.t) : list (option IonObject) :=
  map (fun row => _persistence_dict_to_ion_object (Row.value row)) rows.

Definition opt_eqb (x : option string) (v : string) : bool :=
  match x with Some y => y =? v | None => false end.

(** An association that is not retired and has the document as subject or
    as object. *)
Definition references (doc_id : string) (a : Doc.t) : bool :=
  is_association a && (opt_eqb (Doc.s a) doc_id || opt_eqb (Doc.o a) doc_id).

(** The any-side lookup for one id: the rows of the by-id index. *)
Definition anyside_rows (db : Store) (kwargs : ViewArgs) (doc_id : string)
    : list Row.t :=
  view db association.by_id false kwargs (Keys [KScalar (KStr doc_id)]).

(** An association that is not retired and has the triple
    (subject, predicate, object). *)
Definition matches (sid pred oid : string) (a : Doc.t) : bool :=
  is_association a && opt_eqb (Doc.s a) sid && opt_eqb (Doc.p a) pred
  && opt_eqb (Doc.o a) oid.

Definition triple_count (sid pred oid : string) (db : Store) : nat :=
  List.length (filter (matches sid pred oid) db).

(** At most one association that is not retired per triple. *)
Definition unique_triples (db : Store) : Prop :=
  forall sid pred oid, triple_count sid pred oid db <= 1.

(** The document that a successful [create_association] persists. *)
Definition association_doc (new_id sid st pred oid ot ts : string) : Doc.t :=
  Doc.mk new_id "1" "Association" None None None None None None [] None
    (Some sid) (Some st) (Some pred) (Some oid) (Some ot) (Some ts) false.

(** The operations of the association manager, run one after the other. *)
Inductive Operation : Type :=
| CreateAssociation (subject : option Ref) (predicate : option string)
    (obj : option Ref) (new_id ts : string)
| DeleteAssociation (association : AssocArg)
| Delete (obj : Ref) (del_associations : bool).

(** The store that a call leaves, also when it raises. *)
Definition store_after {A} (m : M A) (db : Store) : Store :=
  snd (fst (m db)).

Definition apply_operation (op : Operation) (db : Store) : Store :=
  match op with
  | CreateAssociation subject predicate obj new_id ts =>
      store_after (create_association subject predicate obj new_id ts) db
  | DeleteAssociation association =>
      store_after (delete_association association) db
  | Delete obj del_associations =>
      store_after (delete obj del_associations) db
  end.

Definition run (ops : list Operation) (db : Store) : Store :=
  fold_left (fun db op => apply_operation op db) ops db.

(** The type check as the spec words it: the type is in the declared set
    or extends a type of the declared set. *)
Definition permitted (t : string) (allowed : list string) : Prop :=
  In t allowed \/ exists a, In a allowed /\ In t (getextends a).

(** The call passes everything that [create_association] checks before it
    looks for a duplicate: the three arguments are given, both ends
    resolve, to the ids and types [sid], [st], [oid], [ot], the predicate
    is known and its domain and range permit the types. *)
Definition validated (db : Store) (sref : Ref) (pred : string) (oref : Ref)
    (sid st oid ot : string) : Prop :=
  given (Some sref) = true /\ pred <> "" /\ given (Some oref) = true
  /\ (exists sx, resolve db "Subject id or rev not available" sref = ok (sx, sid, st))
  /\ (exists ox, resolve db "Object id or rev not available" oref = ok (ox, oid, ot))
  /\ (exists pt, Predicates pred = Some pt
                 /\ type_permitted st (domain pt) = true
                 /\ type_permitted ot (range pt) = true).

(** The store [db'] is [db] with some documents removed. *)
Definition shrinks (db' db : Store) : Prop :=
  exists f, db' = filter f db.

(** Applying a fallible function to the elements of a list, in order,
    stopping at the first failure. *)
Fixpoint traverse {A B} (f : A -> result B) (l : list A) : result (list B) :=
  match l with
  | [] => ok []
  | x :: rest =>
      y <- f x ;;
      ys <- traverse f rest ;;
      ok (y :: ys)
  end.

(** The failures that row projection lets out: its own BadRequest and the
    failures of the store other than ResourceNotFound. *)
Definition surfaces (e : exn) : Prop :=
  (exists msg, e = BadRequest msg) \/ (exists reason, e = Http (ServerError reason)).

(* ===================================================================== *)
(** ** Example data *)

Definition resource_doc (id type lc av name : string) : Doc.t :=
  Doc.mk id "1" type (Some lc) (Some av) (Some name) None None None [] None
    None None None None None None false.

(** The resources of the range-scan scenario: two of type A, one of type B. *)
Definition three_resources : Store :=
  [resource_doc "r1" "A" "DRAFT" "PRIVATE" "beta";
   resource_doc "r2" "A" "DEPLOYED" "AVAILABLE" "alpha";
   resource_doc "r3" "B" "DRAFT" "PRIVATE" "alpha"].

(** A platform, two devices and the associations of the platform. *)
Definition platform_store : Store :=
  [resource_doc "p1" "PlatformDevice" "DEPLOYED" "AVAILABLE" "platform";
   resource_doc "d1" "InstrumentDevice" "DEPLOYED" "AVAILABLE" "ctd";
   resource_doc "d2" "InstrumentDevice" "DRAFT" "PRIVATE" "adcp";
   association_doc "a1" "p1" "PlatformDevice" "hasDevice" "d1" "InstrumentDevice" "1";
   association_doc "a2" "p1" "PlatformDevice" "hasModel" "d2" "InstrumentDevice" "2"].

Definition example_getextends (t : string) : list string :=
  if t =? "Device" then ["InstrumentDevice"; "PlatformDevice"] else [].

Definition example_Predicates (p : string) : option PredicateDef :=
  if p =? "hasDevice"
  then Some {| domain := ["PlatformDevice"]; range := ["Device"] |}
  else if p =? "hasModel"
  then Some {| domain := ["PlatformDevice"]; range := ["InstrumentDevice"] |}
  else None.

Definition example_AVAILABILITY : list string :=
  ["PRIVATE"; "DISCOVERABLE"; "AVAILABLE"].

Definition example_deserializer (items : list (string * Raw)) : IonObject :=
  {| obj_id := Some "doc"; obj_rev := None; obj_body := resource_doc "doc" "" "" "" "" |}.

(** A resource with a plain and a namespaced alternate id. *)
Definition resource_with_alt_ids : Doc.t :=
  Doc.mk "r7" "1" "A" (Some "DRAFT") (Some "PRIVATE") (Some "gamma")
    (Some ["PRE:123"; "legacy"; "a:b:c"]) None None [] None
    None None None None None None false.

(* ===================================================================== *)
(** ** Vocabulary of the further properties *)

(** A loaded object given as argument carries an ["_id"]. *)
Definition has_id (r : option Ref) : bool :=
  match r with
  | Some (Loaded x) => defined (obj_id x)
  | _ => true
  end.

(** The elements of an [anyside] list are ids or tuples, and a loaded
    object given as [anyside] carries an ["_id"]. *)
Definition anyside_expected (anyside : option Anyside) : bool :=
  match anyside with
  | Some (AnyList l) => forallb is_id_or_tuple l
  | Some (AnyObject x) => defined (obj_id x)
  | _ => true
  end.

(** The arguments that [find_associations] does not refuse: something is
    given, [anyside] comes without subject and object, an [anyside] list
    comes without predicate, the loaded objects carry an id and the
    elements of an [anyside] list are ids or tuples. *)
Definition well_formed_arguments (subject : option Ref) (predicate : option string)
    (obj : option Ref) (anyside : option Anyside) : bool :=
  (given subject || given obj || truthy predicate || given_anyside anyside)
  && negb (given_anyside anyside && (given subject || given obj))
  && negb (given_anyside anyside && truthy predicate && is_list anyside)
  && has_id subject && has_id obj && anyside_expected anyside.

(** A loaded object as [anyside] together with a predicate: the object
    itself becomes a component of the scan key. *)
Definition object_as_key (predicate : option string) (anyside : option Anyside)
    : bool :=
  match anyside with
  | Some (AnyObject _) => truthy predicate
  | _ => false
  end.

(** The arguments that [find_associations] accepts. *)
Definition accepted_arguments (subject : option Ref) (predicate : option string)
    (obj : option Ref) (anyside : option Anyside) : bool :=
  well_formed_arguments subject predicate obj anyside
  && negb (object_as_key predicate anyside).

(** An association that is not retired and has the components that are
    asked for. *)
Definition pattern (sid pred oid : option string) (a : Doc.t) : bool :=
  is_association a
  && match sid with Some i => opt_eqb (Doc.s a) i | None => true end
  && match pred with Some v => opt_eqb (Doc.p a) v | None => true end
  && match oid with Some i => opt_eqb (Doc.o a) i | None => true end.

(** The id behind an argument that is given. *)
Definition id_of (r : option Ref) : option string :=
  match r with
  | Some (ById i) => if i =? "" then None else Some i
  | Some (Loaded x) => obj_id x
  | None => None
  end.

(** A predicate argument that is given. *)
Definition asked (predicate : option string) : option string :=
  if truthy predicate then predicate else None.

Definition same_part (a b : KeyPart) : bool :=
  match part_compare a b with Eq => true | _ => false end.

(** [l] starts with [pre]. *)
Fixpoint extends (pre l : list KeyPart) : bool :=
  match pre, l with
  | [], _ => true
  | _ :: _, [] => false
  | x :: pre', y :: l' => same_part x y && extends pre' l'
  end.

(** The key is an array that starts with [pre]. *)
Definition key_extends (pre : list KeyPart) (k : Key) : bool :=
  match k with
  | KArray l => extends pre l
  | KScalar _ => false
  end.

(** The row that the index holds for an emission of the document. *)
Definition row_of (include_docs : bool) (d : Doc.t) (e : Emit) : Row.t :=
  Row.mk (Doc._id d) (fst e) (snd e) (if include_docs then Some d else None).

(** The ids of a list of documents. *)
Definition ids_of (l : list Doc.t) : list string := map Doc._id l.

(** [doc if type(doc) is str else doc["_id"]] *)
Definition doc_id_of (doc : DocArg) : string :=
  match doc with DocId i => i | DocDict d => Doc._id d end.


(** Some association of the store that is not retired has the document as
    subject or as object. *)
Definition referenced (db : Store) (doc_id : string) : bool :=
  existsb (references doc_id) db.

(** The type of the document is the one asked for, when one is asked
    for. *)
Definition of_type (restype : option string) (d : Doc.t) : bool :=
  match restype with
  | Some t => (t =? "") || (Doc.type_ d =? t)
  | None => true
  end.

(** A typed document whose lifecycle state is not RETIRED; the state may
    be undefined. *)
Definition current (d : Doc.t) : bool :=
  has_type d && not_retired (Doc.lcstate d).

Definition keywords_of (d : Doc.t) : list string :=
  match Doc.keywords d with Some l => l | None => [] end.

(** The id of every current document of the type asked for, once per
    occurrence of [v] among its values. *)
Definition entries (vals : Doc.t -> list string) (v : string)
    (restype : option string) (db : Store) : list string :=
  flat_map (fun d => map (fun _ => Doc._id d) (filter (String.eqb v) (vals d)))
    (filter (fun d => current d && of_type restype d) db).

(** What [find_res_by_attribute] can find: the e-mail address of a
    current UserInfo document. *)
Definition user_email (restype attr_name attr_value : option string)
    (d : Doc.t) : bool :=
  current d && (Doc.type_ d =? "UserInfo")
  && opt_eqb restype "UserInfo" && opt_eqb attr_name "contact.email"
  && match Doc.contact_email d with
     | Some email => if truthy attr_value then opt_eqb attr_value email else true
     | None => false
     end.

(** A typed document with lifecycle state, availability and name, whose
    availability is [state] when [state] is an availability state and
    whose lifecycle state is [state] otherwise. *)
Definition in_state (state : string) (restype : option string) (d : Doc.t) : bool :=
  has_type d && defined (Doc.lcstate d) && defined (Doc.availability d)
  && defined (Doc.name d)
  && (if mem state AVAILABILITY
      then opt_eqb (Doc.availability d) state
      else opt_eqb (Doc.lcstate d) state)
  && of_type restype d.

(** The entries of the by-altid index that [find_res_by_alternative_id]
    is asked for: the value, in the namespace when one is given (also the
    empty one); without a value, every entry of the namespace; without
    both, every entry. *)
Definition altid_wanted (alt_id alt_id_ns : option string) (k : Key) : bool :=
  match k with
  | KArray [KStr v; KStr ns] =>
      if truthy alt_id
      then opt_eqb alt_id v
           && match alt_id_ns with Some x => ns =? x | None => true end
      else if truthy alt_id_ns then opt_eqb alt_id_ns ns else true
  | _ => false
  end.

(** A response in which a fetch of rows fails where [_parse_results]
    reads it: anywhere but inside a dict that carries ["_id"]. *)
Fixpoint fetch_fails (doc : Raw) : bool :=
  match doc with
  | ViewResults (inl _) => true
  | ViewResults (inr rows) => existsb fetch_fails rows
  | RawRow _ key value doc' =>
      fetch_fails key || fetch_fails value
      || match doc' with Some x => fetch_fails x | None => false end
  | RawList l => existsb fetch_fails l
  | RawDict items =>
      if existsb (fun kv => fst kv =? "_id") items then false
      else existsb (fun kv => fetch_fails (snd kv)) items
  | RawPrim _ => false
  end.

Definition is_ok {A} (r : result A) : bool :=
  match r with inr _ => true | inl _ => false end.

(** The subject or the object of an edge. *)
Definition endpoint (f : Doc.t -> option string) (a : option IonObject)
    : option string :=
  match a with
  | Some x => f (obj_body x)
  | None => None
  end.

(** The ids of the neighbours that a traversal returns. *)
Definition neighbour_ids (n : Neighbours) : list (option string) :=
  match n with
  | NeighbourIds l => l
  | NeighbourObjects l =>
      map (fun x => match x with Some y => obj_id y | None => None end) l
  end.

(** *** Further example data *)

(** A node that is part of itself. *)
Definition self_reference : Store :=
  [resource_doc "n1" "Node" "DEPLOYED" "AVAILABLE" "node";
   association_doc "l1" "n1" "Node" "partOf" "n1" "Node" "1"].

(** The directory entry of a service. *)
Definition service_entry : directory.DirEntry :=
  {| directory.type_ := "DirEntry"; directory.org := "ION";
     directory.parent := "/Services"; directory.key := "resource_registry" |}.

(* ===================================================================== *)
(** * Properties *)

(* ===================================================================== *)
(** ** Facts on the collation *)

Lemma string_compare_refl v : String.compare v v = Eq.
Proof.
  pose proof (String.compare_antisym v v) as H.
  destruct (String.compare v v); simpl in H; auto; discriminate.
Qed.

Lemma part_compare_refl a : part_compare a a = Eq.
Proof.
  destruct a; simpl; auto.
  - apply Z.compare_refl.
  - apply string_compare_refl.
Qed.

Lemma part_compare_eq a b : part_compare a b = Eq -> a = b.
Proof.
  destruct a, b; simpl; intros H; try discriminate; auto.
  - apply Z.compare_eq in H. now subst.
  - apply String.compare_eq_iff in H. now subst.
Qed.

Lemma part_compare_antisym a b :
  part_compare b a = CompOpp (part_compare a b).
Proof.
  destruct a, b; simpl; auto.
  - apply Z.compare_antisym.
  - apply String.compare_antisym.
Qed.

Lemma parts_compare_refl l : parts_compare l l = Eq.
Proof.
  induction l as [|a l IH]; simpl; auto.
  now rewrite part_compare_refl.
Qed.

Lemma parts_compare_eq l1 : forall l2, parts_compare l1 l2 = Eq -> l1 = l2.
Proof.
  induction l1 as [|a l1 IH]; intros [|b l2]; simpl; intros H;
    try discriminate; auto.
  destruct (part_compare a b) eqn:E; try discriminate.
  apply part_compare_eq in E. apply IH in H. now subst.
Qed.

Lemma parts_compare_antisym l1 :
  forall l2, parts_compare l2 l1 = CompOpp (parts_compare l1 l2).
Proof.
  induction l1 as [|a l1 IH]; intros [|b l2]; simpl; auto.
  rewrite (part_compare_antisym a b).
  destruct (part_compare a b); simpl; auto.
Qed.

Lemma key_compare_refl k : key_compare k k = Eq.
Proof.
  destruct k; simpl; [apply part_compare_refl | apply parts_compare_refl].
Qed.

Lemma key_compare_eq k1 k2 : key_compare k1 k2 = Eq -> k1 = k2.
Proof.
  destruct k1, k2; simpl; intros H; try discriminate.
  - now apply part_compare_eq in H; subst.
  - now apply parts_compare_eq in H; subst.
Qed.

Lemma key_compare_antisym k1 k2 :
  key_compare k2 k1 = CompOpp (key_compare k1 k2).
Proof.
  destruct k1, k2; simpl; auto using part_compare_antisym, parts_compare_antisym.
Qed.

Lemma key_eqb_eq k1 k2 : key_eqb k1 k2 = true <-> k1 = k2.
Proof.
  unfold key_eqb. split.
  - destruct (key_compare k1 k2) eqn:E; try discriminate.
    intros _. now apply key_compare_eq.
  - intros ->. now rewrite key_compare_refl.
Qed.

Lemma real_below_END c : real c -> part_compare c END_MARKER = Lt.
Proof. destruct c; simpl; auto. intros H. now elim H. Qed.

Lemma real_part x : real (part x).
Proof. destruct x; discriminate. Qed.

(** The range that [_get_endkey] closes is a genuine prefix query: a key
    of real components lies between [pre] and [pre + [END_MARKER]] exactly
    when it extends [pre]. *)
Lemma prefix_range pre :
  forall l, Forall real l ->
    (key_leb (KArray pre) (KArray l)
     && key_leb (KArray l) (KArray (pre ++ [END_MARKER])) = true
     <-> exists rest, l = pre ++ rest).
Proof.
  unfold key_leb. simpl.
  induction pre as [|x pre IH]; intros l Hl.
  - split; [intros _; now exists l|intros _].
    destruct l as [|y l]; simpl; auto.
    inversion Hl; subst. now rewrite real_below_END.
  - destruct l as [|y l]; simpl.
    + split; [discriminate|intros [rest H]; discriminate].
    + inversion Hl as [|? ? Hy Hl']; subst.
      rewrite (part_compare_antisym x y).
      destruct (part_compare x y) eqn:E; simpl.
      * apply part_compare_eq in E. subst y.
        rewrite (IH l Hl'). split; intros [rest H]; exists rest.
        -- now subst.
        -- now inversion H.
      * split; [discriminate|intros [rest H]].
        inversion H; subst. rewrite part_compare_refl in E. discriminate.
      * split; [discriminate|intros [rest H]].
        inversion H; subst. rewrite part_compare_refl in E. discriminate.
Qed.

Lemma row_leb_total r1 r2 : row_leb r1 r2 = true \/ row_leb r2 r1 = true.
Proof.
  unfold row_leb. rewrite (key_compare_antisym (Row.key r1) (Row.key r2)).
  destruct (key_compare (Row.key r1) (Row.key r2)); simpl; auto.
  apply String.leb_total.
Qed.

(** *** Transitivity *)

Lemma ascii_compare_lt_trans a b c :
  Ascii.compare a b = Lt -> Ascii.compare b c = Lt -> Ascii.compare a c = Lt.
Proof.
  unfold Ascii.compare. rewrite !N.compare_lt_iff. apply N.lt_trans.
Qed.

Lemma string_compare_lt_trans a :
  forall b c, String.compare a b = Lt -> String.compare b c = Lt ->
              String.compare a c = Lt.
Proof.
  induction a as [|x a IH]; intros [|y b] [|z c]; simpl; auto; try discriminate.
  destruct (Ascii.compare x y) eqn:Exy; try discriminate;
    destruct (Ascii.compare y z) eqn:Eyz; try discriminate; intros H1 H2.
  - apply Ascii.compare_eq_iff in Exy, Eyz. subst.
    replace (Ascii.compare z z) with Eq; eauto.
    symmetry. unfold Ascii.compare. apply N.compare_refl.
  - apply Ascii.compare_eq_iff in Exy. subst. now rewrite Eyz.
  - apply Ascii.compare_eq_iff in Eyz. subst. now rewrite Exy.
  - now rewrite (ascii_compare_lt_trans x y z).
Qed.

Lemma part_compare_lt_trans a b c :
  part_compare a b = Lt -> part_compare b c = Lt -> part_compare a c = Lt.
Proof.
  destruct a, b, c; simpl; auto; try discriminate.
  - rewrite !Z.compare_lt_iff. apply Z.lt_trans.
  - apply string_compare_lt_trans.
Qed.

Lemma parts_compare_lt_trans a :
  forall b c, parts_compare a b = Lt -> parts_compare b c = Lt ->
              parts_compare a c = Lt.
Proof.
  induction a as [|x a IH]; intros [|y b] [|z c]; simpl; auto; try discriminate.
  destruct (part_compare x y) eqn:Exy; try discriminate;
    destruct (part_compare y z) eqn:Eyz; try discriminate; intros H1 H2.
  - apply part_compare_eq in Exy, Eyz. subst.
    rewrite part_compare_refl. eauto.
  - apply part_compare_eq in Exy. subst. now rewrite Eyz.
  - apply part_compare_eq in Eyz. subst. now rewrite Exy.
  - now rewrite (part_compare_lt_trans x y z).
Qed.

Lemma key_compare_lt_trans a b c :
  key_compare a b = Lt -> key_compare b c = Lt -> key_compare a c = Lt.
Proof.
  destruct a, b, c; simpl; auto; try discriminate.
  - apply part_compare_lt_trans.
  - apply parts_compare_lt_trans.
Qed.

(** A three-way comparison that is reflexive, decides equality and is
    transitive on [Lt] gives a transitive "not greater". *)
Section Comparison.
Context {A : Type} (cmp : A -> A -> comparison).
Hypothesis cmp_eq : forall a b, cmp a b = Eq -> a = b.
Hypothesis cmp_lt_trans : forall a b c, cmp a b = Lt -> cmp b c = Lt -> cmp a c = Lt.

Lemma not_gt_trans a b c : cmp a b <> Gt -> cmp b c <> Gt -> cmp a c <> Gt.
Proof.
  intros H1 H2.
  destruct (cmp a b) eqn:Eab; [| |congruence].
  - apply cmp_eq in Eab. now subst.
  - destruct (cmp b c) eqn:Ebc; [| |congruence].
    + apply cmp_eq in Ebc. subst. congruence.
    + rewrite (cmp_lt_trans a b c) by auto. discriminate.
Qed.
End Comparison.

Lemma string_leb_trans a b c :
  String.leb a b = true -> String.leb b c = true -> String.leb a c = true.
Proof.
  unfold String.leb. intros H1 H2.
  assert (String.compare a c <> Gt) as H.
  { apply (not_gt_trans String.compare String.compare_eq_iff
             string_compare_lt_trans a b c).
    - destruct (String.compare a b); congruence.
    - destruct (String.compare b c); congruence. }
  destruct (String.compare a c); congruence.
Qed.

Lemma row_le_trans r1 r2 r3 : row_le r1 r2 -> row_le r2 r3 -> row_le r1 r3.
Proof.
  unfold row_le, row_leb.
  destruct (key_compare (Row.key r1) (Row.key r2)) eqn:E12; try discriminate;
    destruct (key_compare (Row.key r2) (Row.key r3)) eqn:E23; try discriminate;
    intros H1 H2.
  - apply key_compare_eq in E12. rewrite E12, E23.
    eapply string_leb_trans; eauto.
  - apply key_compare_eq in E12. now rewrite E12, E23.
  - apply key_compare_eq in E23. now rewrite <- E23, E12.
  - now rewrite (key_compare_lt_trans _ _ _ E12 E23).
Qed.

(** *** The index is a sorted permutation of what the map function emits *)

Lemma insert_row_perm r l : Permutation (insert_row r l) (r :: l).
Proof.
  induction l as [|h t IH]; simpl; auto.
  destruct (row_leb r h); auto.
  rewrite IH. apply perm_swap.
Qed.

Lemma sort_rows_perm l : Permutation (sort_rows l) l.
Proof.
  induction l as [|h t IH]; simpl; auto.
  rewrite insert_row_perm. now constructor.
Qed.

Lemma insert_row_sorted r l :
  StronglySorted row_le l -> StronglySorted row_le (insert_row r l).
Proof.
  induction 1 as [|h t Hs IH Hh]; simpl.
  - repeat constructor.
  - destruct (row_leb r h) eqn:E.
    + constructor; [now constructor|].
      constructor; [exact E|].
      eapply Forall_impl; [|exact Hh]. intros x Hx.
      eapply row_le_trans; eauto.
    + constructor; auto.
      rewrite Forall_forall. intros x Hx.
      apply (Permutation_in _ (insert_row_perm r t)) in Hx.
      destruct Hx as [<-|Hx].
      * destruct (row_leb_total r h) as [H|H]; [congruence|exact H].
      * rewrite Forall_forall in Hh. auto.
Qed.

Lemma sort_rows_sorted l : StronglySorted row_le (sort_rows l).
Proof.
  induction l as [|h t IH]; simpl; [constructor|].
  now apply insert_row_sorted.
Qed.

Lemma StronglySorted_filter {A} (R : A -> A -> Prop) (f : A -> bool) l :
  StronglySorted R l -> StronglySorted R (filter f l).
Proof.
  induction 1 as [|h t Hs IH Hh]; simpl; [constructor|].
  destruct (f h); auto. constructor; auto.
  rewrite Forall_forall in *. intros x Hx.
  apply filter_In in Hx. now apply Hh.
Qed.

Lemma Permutation_filter {A} (f : A -> bool) l l' :
  Permutation l l' -> Permutation (filter f l) (filter f l').
Proof.
  induction 1; simpl; auto.
  - destruct (f x); auto.
  - destruct (f x), (f y); auto. apply perm_swap.
  - etransitivity; eauto.
Qed.

Lemma bool_ext (a b : bool) : (a = true <-> b = true) -> a = b.
Proof. destruct a, b; intuition congruence. Qed.

(** *** What a view returns *)

Lemma in_emitted map_fun inc db r :
  In r (emitted map_fun inc db) <->
  exists d e, In d db /\ In e (map_fun d) /\
    r = Row.mk (Doc._id d) (fst e) (snd e) (if inc then Some d else None).
Proof.
  unfold emitted. rewrite in_flat_map. split.
  - intros (d & Hd & Hr). apply in_map_iff in Hr as (e & <- & He).
    now exists d, e.
  - intros (d & e & Hd & He & ->). exists d. split; auto.
    apply in_map_iff. now exists e.
Qed.

Lemma view_all db map_fun inc :
  view db map_fun inc no_filter All = sort_rows (emitted map_fun inc db).
Proof. reflexivity. Qed.

Lemma view_range db map_fun inc lo hi :
  view db map_fun inc no_filter (Range lo hi)
  = filter (in_range lo hi) (sort_rows (emitted map_fun inc db)).
Proof. reflexivity. Qed.

Lemma view_keys db map_fun inc keys :
  view db map_fun inc no_filter (Keys keys)
  = flat_map (fun k => filter (fun r => key_eqb (Row.key r) k)
                         (sort_rows (emitted map_fun inc db))) keys.
Proof. reflexivity. Qed.

Lemma in_sort_rows r l : In r (sort_rows l) <-> In r l.
Proof.
  split; apply Permutation_in; [|symmetry]; apply sort_rows_perm.
Qed.

Lemma in_firstn {A} (x : A) n : forall l, In x (firstn n l) -> In x l.
Proof.
  induction n as [|n IH]; intros [|h t]; simpl; try tauto.
  intros [H|H]; auto.
Qed.

Lemma in_skipn {A} (x : A) n : forall l, In x (skipn n l) -> In x l.
Proof.
  induction n as [|n IH]; intros [|h t]; simpl; try tauto.
  intros H. right. now apply IH.
Qed.

Lemma in_paginate a r rows : In r (paginate a rows) -> In r rows.
Proof.
  unfold paginate. intros H.
  assert (In r (match skip a with Some n => skipn n rows | None => rows end)) as H'.
  { destruct (limit a); auto. eapply in_firstn; eauto. }
  destruct (skip a); auto. eapply in_skipn; eauto.
Qed.

(** Every row of an answer was emitted for a document of the store. *)
Lemma view_emitted db map_fun inc a sel r :
  In r (view db map_fun inc a sel) -> In r (emitted map_fun inc db).
Proof.
  unfold view. intros H. apply in_paginate in H.
  assert (forall x, In x (if descending a then rev (sort_rows (emitted map_fun inc db))
                          else sort_rows (emitted map_fun inc db)) ->
                    In x (emitted map_fun inc db)) as Hidx.
  { intros x Hx. destruct (descending a).
    - apply in_rev in Hx. now apply in_sort_rows.
    - now apply in_sort_rows. }
  destruct sel as [|lo hi|keys].
  - auto.
  - destruct (descending a); apply filter_In in H; apply Hidx, H.
  - apply in_flat_map in H as (k & _ & H). apply filter_In in H. apply Hidx, H.
Qed.

Lemma view_range_perm db map_fun inc lo hi :
  Permutation (view db map_fun inc no_filter (Range lo hi))
              (filter (in_range lo hi) (emitted map_fun inc db)).
Proof. rewrite view_range. apply Permutation_filter, sort_rows_perm. Qed.

Lemma view_range_sorted db map_fun inc lo hi :
  StronglySorted row_le (view db map_fun inc no_filter (Range lo hi)).
Proof. rewrite view_range. apply StronglySorted_filter, sort_rows_sorted. Qed.

(** A map function that emits at most one row per document. *)
Lemma flat_map_single {A B} (c : A -> bool) (g : A -> B) (f : A -> list B) l :
  (forall x, f x = if c x then [g x] else []) ->
  flat_map f l = map g (filter c l).
Proof.
  intros Hf. induction l as [|x l IH]; simpl; auto.
  rewrite Hf, IH. now destruct (c x).
Qed.

(** A prefix scan keeps the rows whose key extends the prefix. *)
Lemma in_prefix_range pre r l :
  Row.key r = KArray l -> Forall real l ->
  (in_range (KArray pre) (KArray (_get_endkey pre)) r = true
   <-> exists rest, l = pre ++ rest).
Proof.
  intros Hk Hl. unfold in_range, _get_endkey. rewrite Hk.
  now apply prefix_range.
Qed.

(* ===================================================================== *)
(** ** Resource queries: find by type *)

Lemma by_type_live d :
  resource.by_type d =
  if live_resource d
  then [(KArray [KStr (Doc.type_ d); KStr (substring200 (name_of d))], None)]
  else [].
Proof.
  unfold resource.by_type, live_resource, name_of.
  destruct (Doc.lcstate d), (Doc.name d), (has_type d); simpl; auto.
  - now rewrite andb_true_r.
  - now rewrite andb_false_r.
Qed.

Lemma emitted_by_type inc db :
  emitted resource.by_type inc db
  = map (by_type_row inc) (filter live_resource db).
Proof.
  unfold emitted. apply flat_map_single. intros d.
  rewrite by_type_live. now destruct (live_resource d).
Qed.

Lemma filter_filter {A} (f g : A -> bool) l :
  filter f (filter g l) = filter (fun x => g x && f x) l.
Proof.
  induction l as [|x l IH]; simpl; auto.
  destruct (g x); simpl; rewrite IH; auto.
Qed.

Lemma by_type_row_in_range inc restype d :
  in_range (KArray [KStr restype]) (KArray (_get_endkey [KStr restype]))
    (by_type_row inc d)
  = (Doc.type_ d =? restype).
Proof.
  apply bool_ext.
  rewrite (in_prefix_range [KStr restype] (by_type_row inc d)
             [KStr (Doc.type_ d); KStr (substring200 (name_of d))]);
    [|reflexivity|repeat constructor; discriminate].
  rewrite String.eqb_eq. split.
  - intros [rest H]. now inversion H.
  - intros <-. now exists [KStr (substring200 (name_of d))].
Qed.

Lemma row_le_key_le r1 r2 : row_le r1 r2 -> key_le r1 r2.
Proof.
  unfold row_le, key_le, row_leb, key_leb.
  destruct (key_compare (Row.key r1) (Row.key r2)); auto.
Qed.

Lemma StronglySorted_weaken {A} (R S : A -> A -> Prop) l :
  (forall x y, R x y -> S x y) -> StronglySorted R l -> StronglySorted S l.
Proof.
  intros H. induction 1 as [|h t Hs IH Hh]; constructor; auto.
  eapply Forall_impl; [|exact Hh]. intros x. apply H.
Qed.

(** The rows of [find_res_by_type] without pagination. *)
Lemma find_res_by_type_rows (db : Store) (restype : option string) (id_only : bool)
    (filter : option ViewArgs) :
  filter_args filter = no_filter ->
  exists rows,
    find_res_by_type db restype None id_only filter
      = ok (_prepare_find_return rows (map type_name_id rows) id_only)
    /\ Permutation rows
         (map (by_type_row (negb id_only))
            (List.filter (fun d => live_resource d
                              && (match restype with
                                  | Some t => if t =? "" then true else Doc.type_ d =? t
                                  | None => true
                                  end)) db))
    /\ StronglySorted key_le rows.
Proof.
  intros Hf. unfold find_res_by_type. rewrite Hf. simpl.
  assert (exists rows,
            ok (_prepare_find_return
                  (view db resource.by_type (negb id_only) no_filter All)
                  (map type_name_id
                     (view db resource.by_type (negb id_only) no_filter All)) id_only)
            = ok (_prepare_find_return rows (map type_name_id rows) id_only)
            /\ Permutation rows
                 (map (by_type_row (negb id_only))
                    (List.filter (fun d => live_resource d && true) db))
            /\ StronglySorted key_le rows) as Hall.
  { exists (view db resource.by_type (negb id_only) no_filter All).
    split; [reflexivity|]. rewrite view_all. split.
    - rewrite sort_rows_perm, emitted_by_type.
      rewrite (filter_ext (fun d => live_resource d && true) live_resource);
        [reflexivity|].
      intros d. apply andb_true_r.
    - eapply StronglySorted_weaken; [apply row_le_key_le|apply sort_rows_sorted]. }
  destruct restype as [restype|]; simpl.
  2:{ exact Hall. }
  destruct (restype =? "") eqn:E; simpl.
  - exact Hall.
  - exists (view db resource.by_type (negb id_only) no_filter
              (prefix_scan [KStr restype])).
    split; [reflexivity|]. unfold prefix_scan. split.
    + rewrite view_range_perm, emitted_by_type, filter_map_swap, filter_filter.
      rewrite (filter_ext _ (fun d => live_resource d && (Doc.type_ d =? restype)));
        [reflexivity|].
      intros d. now rewrite by_type_row_in_range.
    + eapply StronglySorted_weaken; [apply row_le_key_le|apply view_range_sorted].
Qed.

(** *** The first 200 code units of a name *)








(* ===================================================================== *)
(** ** The dispatcher [find_resources_ext] *)








Lemma truthy_Some v : truthy (Some v) = negb (v =? "").
Proof. reflexivity. Qed.




(* ===================================================================== *)
(** ** Splitting strings *)

Lemma split_first_spec c v :
  contains c v = true ->
  v = (fst (split_first c v) ++ String c (snd (split_first c v)))%string
  /\ contains c (fst (split_first c v)) = false.
Proof.
  induction v as [|a r IH]; simpl; [discriminate|].
  destruct (Ascii.eqb a c) eqn:E.
  - apply Ascii.eqb_eq in E. subst. simpl. auto.
  - intros H. destruct (IH H) as [H1 H2].
    destruct (split_first c r) as [h t]. simpl in *.
    rewrite E. split; [now f_equal|exact H2].
Qed.

Lemma split_length c v : List.length (split c v) = S (occurrences c v).
Proof.
  induction v as [|a r IH]; simpl; auto.
  destruct (Ascii.eqb a c); simpl.
  - now rewrite IH.
  - destruct (split c r); simpl in *; congruence.
Qed.

Lemma occurrences_contains c v : contains c v = false <-> occurrences c v = 0.
Proof.
  induction v as [|a r IH]; simpl; [tauto|].
  destruct (Ascii.eqb a c); simpl; [split; discriminate|exact IH].
Qed.

Lemma split_no_separator c v : contains c v = false -> split c v = [v].
Proof.
  induction v as [|a r IH]; simpl; auto.
  destruct (Ascii.eqb a c); [discriminate|].
  intros H. now rewrite (IH H).
Qed.

Lemma split_at_separator c a b :
  contains c a = false ->
  split c (a ++ String c b)%string = a :: split c b.
Proof.
  induction a as [|x a IH]; simpl.
  - now rewrite Ascii.eqb_refl.
  - destruct (Ascii.eqb x c); [discriminate|].
    intros H. now rewrite (IH H).
Qed.

Lemma occurrences_app c a b :
  occurrences c (a ++ b)%string = occurrences c a + occurrences c b.
Proof.
  induction a as [|x a IH]; simpl; auto.
  rewrite IH. lia.
Qed.

(* ===================================================================== *)
(** ** Find by lifecycle state *)

(** C7. For a lifecycle state that contains an underscore,
    [find_res_by_lcstate] logs a warning and searches for the text before
    the first underscore; the scan key starts with 1 when that text is an
    availability state and with 0 otherwise, then has the state and, when a
    resource type is supplied, the type. *)
Theorem find_res_by_lcstate_compound db lcstate restype id_only filter :
  contains "_" lcstate = true ->
  let state := fst (split_first "_" lcstate) in
  let key := [KNum (if mem state AVAILABILITY then 1 else 0); KStr state]
             ++ (if truthy restype then [part restype] else []) in
  let rows := view db resource.by_lcstate (negb id_only) (filter_args filter)
                (prefix_scan key) in
  (exists rest, lcstate = (state ++ String "_" rest)%string)
  /\ contains "_" state = false
  /\ find_res_by_lcstate db lcstate restype id_only filter
     = (["Search for compound lcstate restricted to maturity: %s"],
        ok (_prepare_find_return rows (map lcstate_type_name_id rows) id_only)).
Proof.
  intros H state key rows.
  destruct (split_first_spec "_" lcstate H) as [H1 H2].
  split; [eexists; exact H1|]. split; [exact H2|].
  unfold find_res_by_lcstate. rewrite H.
  unfold rows, key, state, optional.
  destruct (mem (fst (split_first "_" lcstate)) AVAILABILITY); reflexivity.
Qed.

(* ===================================================================== *)
(** ** Find by alternate id *)

Lemma altid_key_two_parts ns v :
  contains ":" ns = false -> contains ":" v = false ->
  resource.altid_key (ns ++ String ":" v)%string = KArray [KStr v; KStr ns].
Proof.
  intros Hns Hv. unfold resource.altid_key.
  now rewrite (split_at_separator ":" ns v Hns), (split_no_separator ":" v Hv).
Qed.

Lemma altid_key_fallback altid :
  occurrences ":" altid <> 1 ->
  resource.altid_key altid = KArray [KStr altid; KStr "_"].
Proof.
  intros H. unfold resource.altid_key.
  pose proof (split_length ":" altid) as Hl.
  destruct (split ":" altid) as [|x [|y [|z t]]]; simpl in Hl; auto.
  congruence.
Qed.

Lemma in_view_range db map_fun inc lo hi r :
  In r (view db map_fun inc no_filter (Range lo hi))
  <-> In r (emitted map_fun inc db) /\ in_range lo hi r = true.
Proof. now rewrite view_range, filter_In, in_sort_rows. Qed.

Lemma by_altid_entries d ids :
  has_type d = true -> not_retired (Doc.lcstate d) = true ->
  Doc.alt_ids d = Some ids ->
  resource.by_altid d = map (fun altid => (resource.altid_key altid, None)) ids.
Proof.
  intros Ht Hl Ha. unfold resource.by_altid. now rewrite Ha, Ht, Hl.
Qed.

(** C8. For a typed document that is not retired, the by-altid index has
    one key per entry of [alt_ids]: [[value, namespace]] for an entry
    [namespace:value] with a single colon, and [[entry, "_"]] for every
    other entry (no colon, or more than one); so
    [find_res_by_alternative_id(altId)] finds an alt-id that carries no
    namespace, under the namespace ["_"]. *)
Theorem by_altid_index :
  (forall d ids, has_type d = true -> not_retired (Doc.lcstate d) = true ->
     Doc.alt_ids d = Some ids ->
     resource.by_altid d = map (fun altid => (resource.altid_key altid, None)) ids)
  /\ (forall ns v, contains ":" ns = false -> contains ":" v = false ->
        resource.altid_key (ns ++ String ":" v)%string = KArray [KStr v; KStr ns])
  /\ (forall altid, occurrences ":" altid <> 1 ->
        resource.altid_key altid = KArray [KStr altid; KStr "_"])
  /\ (forall db d ids altid id_only,
        In d db -> has_type d = true -> not_retired (Doc.lcstate d) = true ->
        Doc.alt_ids d = Some ids -> In altid ids ->
        occurrences ":" altid <> 1 -> altid <> "" ->
        exists rows,
          find_res_by_alternative_id db (Some altid) None id_only None
          = ok (if id_only then Ids (map Row.id rows)
                else Objects (map (fun row => _persistence_dict_to_ion_object (Row.doc row)) rows),
                map (fun row => [("alt_id", key_at row 0); ("alt_id_ns", key_at row 1);
                                 ("id", KStr (Row.id row))]) rows)
          /\ In (Row.mk (Doc._id d) (KArray [KStr altid; KStr "_"]) None
                   (if negb id_only then Some d else None)) rows).
Proof.
  split; [exact by_altid_entries|]. split; [exact altid_key_two_parts|].
  split; [exact altid_key_fallback|].
  intros db d ids altid id_only Hd Ht Hl Ha Hin Hc Hne.
  exists (view db resource.by_altid (negb id_only) no_filter
            (prefix_scan [KStr altid])).
  split.
  - unfold find_res_by_alternative_id. rewrite truthy_Some.
    apply String.eqb_neq in Hne. rewrite Hne. simpl.
    now destruct id_only.
  - unfold prefix_scan. apply in_view_range. split.
    + apply in_emitted. exists d, (KArray [KStr altid; KStr "_"], None).
      split; [exact Hd|]. split; [|reflexivity].
      rewrite (by_altid_entries d ids Ht Hl Ha). apply in_map_iff.
      exists altid. split; [|exact Hin].
      now rewrite altid_key_fallback.
    + apply (in_prefix_range [KStr altid] _ [KStr altid; KStr "_"]);
        [reflexivity|repeat constructor; discriminate|].
      now exists [KStr "_"].
Qed.

(* ===================================================================== *)
(** ** One-hop traversal *)

Lemma in_by_sub inc db r :
  In r (emitted association.by_sub inc db) <->
  exists d, In d db /\ is_association d = true /\
    r = Row.mk (Doc._id d)
          (KArray [part (Doc.s d); part (Doc.p d); part (Doc.ot d); part (Doc.o d)])
          (Some d) (if inc then Some d else None).
Proof.
  rewrite in_emitted. unfold association.by_sub. split.
  - intros (d & e & Hd & He & ->). exists d.
    destruct (is_association d); [|contradiction].
    destruct He as [<-|[]]. auto.
  - intros (d & Hd & Ha & ->). exists d. rewrite Ha.
    eexists. split; [exact Hd|]. split; [left; reflexivity|reflexivity].
Qed.

Lemma in_by_obj inc db r :
  In r (emitted association.by_obj inc db) <->
  exists d, In d db /\ is_association d = true /\
    r = Row.mk (Doc._id d)
          (KArray [part (Doc.o d); part (Doc.p d); part (Doc.st d); part (Doc.s d)])
          (Some d) (if inc then Some d else None).
Proof.
  rewrite in_emitted. unfold association.by_obj. split.
  - intros (d & e & Hd & He & ->). exists d.
    destruct (is_association d); [|contradiction].
    destruct He as [<-|[]]. auto.
  - intros (d & Hd & Ha & ->). exists d. rewrite Ha.
    eexists. split; [exact Hd|]. split; [left; reflexivity|reflexivity].
Qed.

Lemma by_sub_edge_row inc db r :
  In r (emitted association.by_sub inc db) -> edge_row r.
Proof.
  intros H. apply in_by_sub in H as (d & _ & _ & ->). split.
  - eexists. split; [reflexivity|]. repeat constructor; apply real_part.
  - now exists d.
Qed.

Lemma by_obj_edge_row inc db r :
  In r (emitted association.by_obj inc db) -> edge_row r.
Proof.
  intros H. apply in_by_obj in H as (d & _ & _ & ->). split.
  - eexists. split; [reflexivity|]. repeat constructor; apply real_part.
  - now exists d.
Qed.

(** A longer prefix selects fewer rows. *)
Lemma scan_narrows db map_fun inc pre ext :
  (forall r, In r (emitted map_fun inc db) -> edge_row r) ->
  incl (view db map_fun inc no_filter (prefix_scan (pre ++ ext)))
       (view db map_fun inc no_filter (prefix_scan pre)).
Proof.
  intros Hrows r. unfold prefix_scan. rewrite !in_view_range.
  intros [He Hr]. split; [exact He|].
  destruct (Hrows r He) as [(l & Hk & Hl) _].
  apply (in_prefix_range pre r l Hk Hl).
  apply (in_prefix_range (pre ++ ext) r l Hk Hl) in Hr.
  destruct Hr as [rest Hrest].
  exists (ext ++ rest). now rewrite app_assoc.
Qed.

Lemma attr_of_edges f rows :
  (forall r, In r rows -> edge_row r) ->
  attr_of f (edges rows)
  = ok (map (fun row => match Row.value row with
                        | Some d => f d
                        | None => None
                        end) rows).
Proof.
  unfold edges.
  induction rows as [|r rows IH]; intros H; [reflexivity|].
  destruct (H r (or_introl eq_refl)) as [_ [d Hd]].
  cbn [map attr_of]. rewrite Hd. cbn [_persistence_dict_to_ion_object].
  rewrite IH by (intros x Hx; apply H; now right).
  reflexivity.
Qed.

Lemma in_edges d rows :
  In (Some (deserialize d)) (edges rows)
  <-> exists r, In r rows /\ Row.value r = Some d.
Proof.
  unfold edges. rewrite in_map_iff. split.
  - intros (r & Hr & Hin). exists r. split; auto.
    destruct (Row.value r) as [d'|]; simpl in Hr; [|discriminate].
    inversion Hr. reflexivity.
  - intros (r & Hin & Hr). exists r. rewrite Hr. auto.
Qed.

(** The edges that [find_objects] returns are those of the prefix scan of
    the by-subject index. *)
Lemma find_objects_edges db subject predicate object_type id_only kwargs n assocs :
  find_objects db subject predicate object_type id_only kwargs = ok (n, assocs) ->
  exists sid,
    ref_id "Object id not available in subject" subject = ok sid
    /\ assocs = edges (view db association.by_sub false kwargs
                         (prefix_scan (traversal_key sid predicate object_type))).
Proof.
  unfold find_objects.
  destruct (negb (given subject)); [discriminate|].
  destruct (truthy object_type && negb (truthy predicate)); [discriminate|].
  destruct (ref_id _ subject) as [e|sid]; simpl; [discriminate|].
  fold (traversal_key sid predicate object_type).
  fold (edges (view db association.by_sub false kwargs
                 (prefix_scan (traversal_key sid predicate object_type)))).
  destruct (attr_of Doc.o _) as [e|ids]; simpl; [discriminate|].
  destruct id_only.
  - intros H. inversion H. now exists sid.
  - destruct (read_mult db ids); simpl; [discriminate|].
    intros H. inversion H. now exists sid.
Qed.

Lemma find_subjects_edges db subject_type predicate obj id_only kwargs n assocs :
  find_subjects db subject_type predicate obj id_only kwargs = ok (n, assocs) ->
  exists oid,
    ref_id "Object id not available in object" obj = ok oid
    /\ assocs = edges (view db association.by_obj false kwargs
                         (prefix_scan (traversal_key oid predicate subject_type))).
Proof.
  unfold find_subjects.
  destruct (negb (given obj)); [discriminate|].
  destruct (truthy subject_type && negb (truthy predicate)); [discriminate|].
  destruct (ref_id _ obj) as [e|oid]; simpl; [discriminate|].
  fold (traversal_key oid predicate subject_type).
  fold (edges (view db association.by_obj false kwargs
                 (prefix_scan (traversal_key oid predicate subject_type)))).
  destruct (attr_of Doc.s _) as [e|ids]; simpl; [discriminate|].
  destruct id_only.
  - intros H. inversion H. now exists oid.
  - destruct (read_mult db ids); simpl; [discriminate|].
    intros H. inversion H. now exists oid.
Qed.

(** With [id_only=True] a well-formed call returns. *)
Lemma find_objects_ids_total db subject predicate object_type sid :
  given subject = true ->
  ref_id "Object id not available in subject" subject = ok sid ->
  (truthy object_type = true -> truthy predicate = true) ->
  exists ids,
    find_objects db subject predicate object_type true no_filter
    = ok (NeighbourIds ids,
          edges (view db association.by_sub false no_filter
                   (prefix_scan (traversal_key sid predicate object_type)))).
Proof.
  intros Hg Hid Hp. unfold find_objects. rewrite Hg, Hid. simpl.
  assert (truthy object_type && negb (truthy predicate) = false) as ->.
  { destruct (truthy object_type); auto. now rewrite Hp. }
  fold (traversal_key sid predicate object_type).
  fold (edges (view db association.by_sub false no_filter
                 (prefix_scan (traversal_key sid predicate object_type)))).
  rewrite attr_of_edges.
  - eexists. reflexivity.
  - intros r Hr. apply view_emitted in Hr. eapply by_sub_edge_row; eauto.
Qed.

Lemma find_subjects_ids_total db subject_type predicate obj oid :
  given obj = true ->
  ref_id "Object id not available in object" obj = ok oid ->
  (truthy subject_type = true -> truthy predicate = true) ->
  exists ids,
    find_subjects db subject_type predicate obj true no_filter
    = ok (NeighbourIds ids,
          edges (view db association.by_obj false no_filter
                   (prefix_scan (traversal_key oid predicate subject_type)))).
Proof.
  intros Hg Hid Hp. unfold find_subjects. rewrite Hg, Hid. simpl.
  assert (truthy subject_type && negb (truthy predicate) = false) as ->.
  { destruct (truthy subject_type); auto. now rewrite Hp. }
  fold (traversal_key oid predicate subject_type).
  fold (edges (view db association.by_obj false no_filter
                 (prefix_scan (traversal_key oid predicate subject_type)))).
  rewrite attr_of_edges.
  - eexists. reflexivity.
  - intros r Hr. apply view_emitted in Hr. eapply by_obj_edge_row; eauto.
Qed.

Lemma traversal_key_predicate seed predicate :
  traversal_key seed predicate None
  = traversal_key seed None None ++ (if truthy predicate then [part predicate] else []).
Proof. unfold traversal_key. simpl. now destruct (truthy predicate). Qed.

Lemma traversal_key_endpoint seed predicate endpoint_type :
  traversal_key seed predicate endpoint_type
  = traversal_key seed predicate None
    ++ (if truthy predicate
        then if truthy endpoint_type then [part endpoint_type] else []
        else []).
Proof.
  unfold traversal_key. simpl.
  destruct (truthy predicate), (truthy endpoint_type); reflexivity.
Qed.

Lemma in_prefix_range_row pre i l v dd :
  Forall real l ->
  (in_range (KArray pre) (KArray (_get_endkey pre)) (Row.mk i (KArray l) v dd) = true
   <-> exists rest, l = pre ++ rest).
Proof. now apply in_prefix_range. Qed.

Lemma edges_incl rows rows' : incl rows rows' -> incl (edges rows) (edges rows').
Proof. apply incl_map. Qed.

Lemma part_KStr x v : part x = KStr v <-> x = Some v.
Proof.
  destruct x; simpl; split; intros H; try discriminate; now inversion H.
Qed.

(** Scanning the by-subject index with the subject id alone gives every
    association of the store with that subject. *)
Lemma by_sub_seed db sid d :
  In (Some (deserialize d))
     (edges (view db association.by_sub false no_filter
               (prefix_scan (traversal_key sid None None))))
  <-> In d db /\ is_association d = true /\ Doc.s d = Some sid.
Proof.
  rewrite in_edges. unfold prefix_scan, traversal_key. simpl. split.
  - intros (r & Hr & Hv). apply in_view_range in Hr as [He Hr].
    apply in_by_sub in He as (d' & Hd & Ha & ->).
    simpl in Hv. inversion Hv. subst d'.
    apply in_prefix_range_row in Hr as [rest Hrest].
    + inversion Hrest as [[Hs Hrest']]. apply part_KStr in Hs. auto.
    + repeat constructor; apply real_part.
  - intros (Hd & Ha & Hs).
    exists (Row.mk (Doc._id d)
              (KArray [part (Doc.s d); part (Doc.p d); part (Doc.ot d); part (Doc.o d)])
              (Some d) None).
    split; [|reflexivity]. apply in_view_range. split.
    + apply in_by_sub. now exists d.
    + apply in_prefix_range_row.
      * repeat constructor; apply real_part.
      * rewrite Hs. simpl. eexists. reflexivity.
Qed.

Lemma by_obj_seed db oid d :
  In (Some (deserialize d))
     (edges (view db association.by_obj false no_filter
               (prefix_scan (traversal_key oid None None))))
  <-> In d db /\ is_association d = true /\ Doc.o d = Some oid.
Proof.
  rewrite in_edges. unfold prefix_scan, traversal_key. simpl. split.
  - intros (r & Hr & Hv). apply in_view_range in Hr as [He Hr].
    apply in_by_obj in He as (d' & Hd & Ha & ->).
    simpl in Hv. inversion Hv. subst d'.
    apply in_prefix_range_row in Hr as [rest Hrest].
    + inversion Hrest as [[Hs Hrest']]. apply part_KStr in Hs. auto.
    + repeat constructor; apply real_part.
  - intros (Hd & Ha & Hs).
    exists (Row.mk (Doc._id d)
              (KArray [part (Doc.o d); part (Doc.p d); part (Doc.st d); part (Doc.s d)])
              (Some d) None).
    split; [|reflexivity]. apply in_view_range. split.
    + apply in_by_obj. now exists d.
    + apply in_prefix_range_row.
      * repeat constructor; apply real_part.
      * rewrite Hs. simpl. eexists. reflexivity.
Qed.

Ltac inversion_ok :=
  match goal with
  | H : ok _ = ok _ |- _ => inversion H
  end.

(** C4. On a fixed store and without pagination, the edges of
    [find_objects(s, p)] are among those of [find_objects(s)], and the edges
    of [find_objects(s, p, ot)] among those of [find_objects(s, p)]; with the
    subject alone the call returns every association of the store that is
    not retired and has that subject.  The same holds for [find_subjects]
    on the object side.  With [id_only=True] the calls return whenever the
    seed is given and an endpoint type comes with a predicate. *)
Theorem traversal_narrows (db : Store) (seed : option Ref)
    (predicate endpoint_type : option string) (id_only : bool) :
  (forall n1 a1 n0 a0,
     find_objects db seed predicate None id_only no_filter = ok (n1, a1) ->
     find_objects db seed None None id_only no_filter = ok (n0, a0) ->
     incl a1 a0)
  /\ (forall n2 a2 n1 a1,
     find_objects db seed predicate endpoint_type id_only no_filter = ok (n2, a2) ->
     find_objects db seed predicate None id_only no_filter = ok (n1, a1) ->
     incl a2 a1)
  /\ (forall n0 a0 sid,
     find_objects db seed None None id_only no_filter = ok (n0, a0) ->
     ref_id "Object id not available in subject" seed = ok sid ->
     forall d, In (Some (deserialize d)) a0
               <-> In d db /\ is_association d = true /\ Doc.s d = Some sid)
  /\ (forall sid,
     given seed = true ->
     ref_id "Object id not available in subject" seed = ok sid ->
     (truthy endpoint_type = true -> truthy predicate = true) ->
     exists ids a,
       find_objects db seed predicate endpoint_type true no_filter
       = ok (NeighbourIds ids, a))
  /\ (forall n1 a1 n0 a0,
     find_subjects db None predicate seed id_only no_filter = ok (n1, a1) ->
     find_subjects db None None seed id_only no_filter = ok (n0, a0) ->
     incl a1 a0)
  /\ (forall n2 a2 n1 a1,
     find_subjects db endpoint_type predicate seed id_only no_filter = ok (n2, a2) ->
     find_subjects db None predicate seed id_only no_filter = ok (n1, a1) ->
     incl a2 a1)
  /\ (forall n0 a0 oid,
     find_subjects db None None seed id_only no_filter = ok (n0, a0) ->
     ref_id "Object id not available in object" seed = ok oid ->
     forall d, In (Some (deserialize d)) a0
               <-> In d db /\ is_association d = true /\ Doc.o d = Some oid)
  /\ (forall oid,
     given seed = true ->
     ref_id "Object id not available in object" seed = ok oid ->
     (truthy endpoint_type = true -> truthy predicate = true) ->
     exists ids a,
       find_subjects db endpoint_type predicate seed true no_filter
       = ok (NeighbourIds ids, a)).
Proof.
  split; [|split; [|split; [|split; [|split; [|split; [|split]]]]]].
  - intros n1 a1 n0 a0 H1 H0.
    apply find_objects_edges in H1 as (sid & Hs & ->).
    apply find_objects_edges in H0 as (sid' & Hs' & ->).
    assert (sid' = sid) as -> by (rewrite Hs in *; now inversion_ok).
    rewrite traversal_key_predicate.
    apply edges_incl, scan_narrows, by_sub_edge_row.
  - intros n2 a2 n1 a1 H2 H1.
    apply find_objects_edges in H2 as (sid & Hs & ->).
    apply find_objects_edges in H1 as (sid' & Hs' & ->).
    assert (sid' = sid) as -> by (rewrite Hs in *; now inversion_ok).
    rewrite (traversal_key_endpoint sid predicate endpoint_type).
    apply edges_incl, scan_narrows, by_sub_edge_row.
  - intros n0 a0 sid H Hs' d.
    apply find_objects_edges in H as (sid' & Hs & ->).
    assert (sid' = sid) as -> by (rewrite Hs in *; now inversion_ok).
    apply by_sub_seed.
  - intros sid Hg Hs Hp.
    destruct (find_objects_ids_total db seed predicate endpoint_type sid Hg Hs Hp)
      as [ids H].
    eauto.
  - intros n1 a1 n0 a0 H1 H0.
    apply find_subjects_edges in H1 as (oid & Hs & ->).
    apply find_subjects_edges in H0 as (oid' & Hs' & ->).
    assert (oid' = oid) as -> by (rewrite Hs in *; now inversion_ok).
    rewrite traversal_key_predicate.
    apply edges_incl, scan_narrows, by_obj_edge_row.
  - intros n2 a2 n1 a1 H2 H1.
    apply find_subjects_edges in H2 as (oid & Hs & ->).
    apply find_subjects_edges in H1 as (oid' & Hs' & ->).
    assert (oid' = oid) as -> by (rewrite Hs in *; now inversion_ok).
    rewrite (traversal_key_endpoint oid predicate endpoint_type).
    apply edges_incl, scan_narrows, by_obj_edge_row.
  - intros n0 a0 oid H Hs' d.
    apply find_subjects_edges in H as (oid' & Hs & ->).
    assert (oid' = oid) as -> by (rewrite Hs in *; now inversion_ok).
    apply by_obj_seed.
  - intros oid Hg Hs Hp.
    destruct (find_subjects_ids_total db endpoint_type predicate seed oid Hg Hs Hp)
      as [ids H].
    eauto.
Qed.

(* ===================================================================== *)
(** ** Any-side lookup and deletion *)

Lemma mem_In x l : mem x l = true <-> In x l.
Proof.
  unfold mem. rewrite existsb_exists. split.
  - intros (y & Hy & E). apply String.eqb_eq in E. now subst.
  - intros H. exists x. split; auto. apply String.eqb_refl.
Qed.

Lemma opt_eqb_eq x v : opt_eqb x v = true <-> x = Some v.
Proof.
  destruct x as [y|]; simpl; [|split; discriminate].
  rewrite String.eqb_eq. split; [now intros ->|intros H; now inversion H].
Qed.

Lemma part_eqb x v : key_eqb (KScalar (part x)) (KScalar (KStr v)) = opt_eqb x v.
Proof.
  apply bool_ext. rewrite key_eqb_eq, opt_eqb_eq. split.
  - intros H. inversion H as [H']. now apply part_KStr.
  - now intros ->.
Qed.

Lemma in_by_id inc db r :
  In r (emitted association.by_id inc db) <->
  exists a, In a db /\ is_association a = true /\
    (r = Row.mk (Doc._id a) (KScalar (part (Doc.s a))) (Some a)
           (if inc then Some a else None)
     \/ r = Row.mk (Doc._id a) (KScalar (part (Doc.o a))) (Some a)
             (if inc then Some a else None)).
Proof.
  rewrite in_emitted. unfold association.by_id. split.
  - intros (a & e & Ha & He & ->). exists a.
    destruct (is_association a); [|contradiction].
    destruct He as [<-|[<-|[]]]; auto.
  - intros (a & Ha & Hassoc & Hr). exists a. rewrite Hassoc.
    destruct Hr as [-> | ->].
    + exists (KScalar (part (Doc.s a)), Some a). simpl. auto.
    + exists (KScalar (part (Doc.o a)), Some a). simpl. auto.
Qed.

Lemma anyside_row_references db kwargs d r :
  In r (anyside_rows db kwargs d) ->
  exists a, In a db /\ references d a = true /\ Row.id r = Doc._id a.
Proof.
  unfold anyside_rows. intros H.
  pose proof (view_emitted _ _ _ _ _ _ H) as He.
  apply in_by_id in He as (a & Ha & Hassoc & Hr).
  unfold view in H. apply in_paginate in H.
  apply in_flat_map in H as (k & [<-|[]] & H). apply filter_In in H as [_ Hk].
  exists a. split; [exact Ha|]. unfold references. rewrite Hassoc. simpl.
  destruct Hr as [-> | ->]; simpl in Hk; rewrite part_eqb in Hk; rewrite Hk;
    auto using orb_true_r.
Qed.

Lemma references_anyside_row db d a :
  In a db -> references d a = true ->
  In (Doc._id a) (map Row.id (anyside_rows db no_filter d)).
Proof.
  unfold references. intros Ha H. apply andb_true_iff in H as [Hassoc H].
  apply in_map_iff. unfold anyside_rows. rewrite view_keys. simpl.
  apply orb_true_iff in H as [H|H].
  - exists (Row.mk (Doc._id a) (KScalar (part (Doc.s a))) (Some a) None).
    split; [reflexivity|]. rewrite app_nil_r. apply filter_In. split.
    + apply in_sort_rows, in_by_id. exists a. auto.
    + simpl. now rewrite part_eqb.
  - exists (Row.mk (Doc._id a) (KScalar (part (Doc.o a))) (Some a) None).
    split; [reflexivity|]. rewrite app_nil_r. apply filter_In. split.
    + apply in_sort_rows, in_by_id. exists a. auto.
    + simpl. now rewrite part_eqb.
Qed.

Lemma find_associations_anyside db d id_only kwargs :
  d <> "" ->
  find_associations db None None None id_only (Some (AnyId d)) kwargs
  = ok (if id_only then Ids (map Row.id (anyside_rows db kwargs d))
        else Objects (edges (anyside_rows db kwargs d))).
Proof.
  intros Hd. apply String.eqb_neq in Hd.
  unfold find_associations, find_associations_rows. simpl. rewrite Hd. simpl.
  now destruct id_only.
Qed.

Lemma no_element {A} (l : list A) : (forall x, ~ In x l) -> l = [].
Proof.
  destruct l as [|x l]; auto. intros H. elim (H x). now left.
Qed.

(** When no association of the store references the document, the
    any-side lookup is empty. *)
Lemma anyside_rows_empty db kwargs d :
  (forall a, In a db -> references d a = false) ->
  anyside_rows db kwargs d = [].
Proof.
  intros H. apply no_element. intros r Hr.
  apply anyside_row_references in Hr as (a & Ha & Href & _).
  rewrite (H a Ha) in Href. discriminate.
Qed.

Lemma find_some_id (db : Store) d :
  (exists x, In x db /\ Doc._id x = d) ->
  exists x, find (fun y => Doc._id y =? d) db = Some x.
Proof.
  intros (x & Hx & Hid).
  destruct (find (fun y => Doc._id y =? d) db) as [y|] eqn:E; [now exists y|].
  apply (find_none _ _ E) in Hx. subst d. rewrite String.eqb_refl in Hx.
  discriminate.
Qed.

Lemma anyside_rows_limit db d :
  anyside_rows db {| limit := Some 1; skip := None; descending := false |} d
  = firstn 1 (anyside_rows db no_filter d).
Proof. reflexivity. Qed.

(** Deleting with cascade is deleting the associations that the any-side
    lookup finds and then the document. *)
Lemma delete_doc_cascade_run db d :
  d <> "" ->
  delete_doc (DocId d) true db
  = base_delete_doc (DocId d)
      (filter (fun x => negb (mem (Doc._id x)
                                 (map Row.id (anyside_rows db no_filter d)))) db).
Proof.
  intros Hd. unfold delete_doc, bindM, lift, delete_doc_mult, modify.
  rewrite (find_associations_anyside db d true no_filter Hd). simpl.
  destruct (base_delete_doc (DocId d) _) as [[w db2] r]. reflexivity.
Qed.

Lemma base_delete_doc_sub doc db w db' r x :
  base_delete_doc doc db = (w, db', r) -> In x db' -> In x db.
Proof.
  unfold base_delete_doc.
  destruct (find _ db) as [stored|].
  - destruct (match doc with DocId _ => false | DocDict d0 => _ end);
      intros H; inversion H; subst; auto.
    intros Hx. now apply filter_In in Hx.
  - intros H; inversion H; subst; auto.
Qed.

Lemma base_delete_doc_id d db :
  (exists x, In x db /\ Doc._id x = d) ->
  base_delete_doc (DocId d) db
  = ([], filter (fun x => negb (Doc._id x =? d)) db, inr tt).
Proof.
  intros H. unfold base_delete_doc.
  destruct (find_some_id db d H) as [x ->]. reflexivity.
Qed.

(** C5. Deleting the document [d] with [del_associations=True] deletes the
    associations that the any-side index finds for [d], that is every
    association that is not retired and has [d] as subject or object, and
    then the document: whatever the outcome, an any-side lookup for [d]
    in the store it leaves is empty; the call succeeds when the document
    exists (and is not itself such an association).  Without cascade, when
    associations still reference [d], the call logs one warning, raises
    nothing and deletes the document, leaving the associations. *)
Theorem delete_doc_associations (db : Store) (d : string) :
  d <> "" ->
  (forall w db' r,
     delete_doc (DocId d) true db = (w, db', r) ->
     (forall id_only,
        find_associations db' None None None id_only (Some (AnyId d)) no_filter
        = ok (if id_only then Ids [] else Objects []))
     /\ (forall a, In a db -> references d a = true -> ~ In a db')
     /\ ((exists x, In x db /\ Doc._id x = d /\ references d x = false) ->
         (forall y, In y db -> Doc._id y = d -> references d y = false) ->
         w = [] /\ r = inr tt /\ forall y, In y db' -> Doc._id y <> d))
  /\ ((exists a, In a db /\ references d a = true) ->
      (exists x, In x db /\ Doc._id x = d) ->
      delete_doc (DocId d) false db
      = (["Deleting object %s that still has associations"],
         filter (fun x => negb (Doc._id x =? d)) db, inr tt)).
Proof.
  intros Hd. split.
  - intros w db' r. rewrite (delete_doc_cascade_run db d Hd).
    set (ids := map Row.id (anyside_rows db no_filter d)).
    set (db1 := filter (fun x => negb (mem (Doc._id x) ids)) db).
    intros Hrun.
    assert (forall a, In a db -> references d a = true -> ~ In a db1) as Hgone.
    { intros a Ha Href Hin. apply filter_In in Hin as [_ Hin].
      apply negb_true_iff in Hin.
      assert (mem (Doc._id a) ids = true) as Hm
        by now apply mem_In, references_anyside_row.
      congruence. }
    assert (forall x, In x db' -> In x db1) as Hsub
      by (intros x; eapply base_delete_doc_sub; eauto).
    split; [|split].
    + intros id_only. rewrite (find_associations_anyside db' d id_only no_filter Hd).
      rewrite anyside_rows_empty; [now destruct id_only|].
      intros a Ha. destruct (references d a) eqn:Href; auto.
      exfalso. apply Hsub in Ha. pose proof Ha as Ha1.
      apply filter_In in Ha as [Ha _]. exact (Hgone a Ha Href Ha1).
    + intros a Ha Href Hin. exact (Hgone a Ha Href (Hsub a Hin)).
    + intros (x & Hx & Hid & Hx') Hall.
      assert (exists y, In y db1 /\ Doc._id y = d) as Hy.
      { exists x. split; auto. apply filter_In. split; auto.
        apply negb_true_iff. destruct (mem (Doc._id x) ids) eqn:Hm; auto.
        apply mem_In, in_map_iff in Hm as (row & Hrow & Hin).
        apply anyside_row_references in Hin as (a & Ha & Href & Hra).
        rewrite (Hall a Ha) in Href; [discriminate|congruence]. }
      rewrite (base_delete_doc_id d db1 Hy) in Hrun. inversion Hrun; subst.
      split; [reflexivity|]. split; [reflexivity|].
      intros y Hin. apply filter_In in Hin as [_ Hin].
      apply negb_true_iff, String.eqb_neq in Hin. exact Hin.
  - intros (a & Ha & Href) Hx.
    unfold delete_doc, bindM, lift, _is_in_association.
    apply String.eqb_neq in Hd as Hd'. rewrite Hd'.
    rewrite (find_associations_anyside db d true _ Hd). simpl.
    rewrite anyside_rows_limit.
    pose proof (references_anyside_row db d a Ha Href) as Hin.
    destruct (anyside_rows db no_filter d) as [|row rows]; [contradiction|].
    simpl. rewrite (base_delete_doc_id d db Hx). reflexivity.
Qed.

(* ===================================================================== *)
(** ** Creating associations *)

Lemma type_permitted_spec t allowed :
  type_permitted t allowed = true <-> permitted t allowed.
Proof.
  unfold type_permitted, permitted.
  rewrite orb_true_iff, mem_In, existsb_exists.
  split; intros [H|(a & Ha & H)]; auto; right; exists a;
    (split; [exact Ha|]); now apply mem_In.
Qed.

Lemma in_by_match inc db r :
  In r (emitted association.by_match inc db) <->
  exists a, In a db /\ is_association a = true /\
    r = Row.mk (Doc._id a)
          (KArray [part (Doc.s a); part (Doc.o a); part (Doc.p a)])
          (Some a) (if inc then Some a else None).
Proof.
  rewrite in_emitted. unfold association.by_match. split.
  - intros (a & e & Ha & He & ->). exists a.
    destruct (is_association a); [|contradiction].
    destruct He as [<-|[]]. auto.
  - intros (a & Ha & Hassoc & ->). exists a. rewrite Hassoc.
    exists (KArray [part (Doc.s a); part (Doc.o a); part (Doc.p a)], Some a).
    simpl. auto.
Qed.

Lemma emitted_by_match inc db :
  emitted association.by_match inc db
  = map (fun a => Row.mk (Doc._id a)
                    (KArray [part (Doc.s a); part (Doc.o a); part (Doc.p a)])
                    (Some a) (if inc then Some a else None))
        (filter is_association db).
Proof.
  unfold emitted. apply flat_map_single. intros a.
  unfold association.by_match. now destruct (is_association a).
Qed.

(** The duplicate check: the scan of the by-match index with the whole
    triple has one row per association with that triple. *)
Lemma by_match_scan db sid pred oid :
  List.length (view db association.by_match false no_filter
                 (prefix_scan [KStr sid; KStr oid; KStr pred]))
  = triple_count sid pred oid db.
Proof.
  unfold prefix_scan, triple_count.
  rewrite (Permutation_length (view_range_perm _ _ _ _ _)).
  rewrite emitted_by_match, filter_map_swap, length_map, filter_filter.
  f_equal. apply filter_ext. intros a. unfold matches.
  destruct (is_association a); simpl; auto.
  apply bool_ext. rewrite in_prefix_range_row
    by (repeat constructor; apply real_part).
  rewrite !andb_true_iff, !opt_eqb_eq. split.
  - intros [rest H]. inversion H as [[Hs Ho Hp]].
    apply part_KStr in Hs, Ho, Hp. auto.
  - intros [[-> ->] ->]. now exists [].
Qed.

Lemma resolve_id db msg r x i t :
  resolve db msg r = ok (x, i, t) -> obj_id x = Some i /\ t = _get_type x.
Proof.
  unfold resolve, read, read_doc. destruct r as [j|y].
  - destruct (find _ db) as [d|] eqn:E; simpl; [|discriminate].
    intros H. inversion H. subst. apply find_some in E as [_ E].
    apply String.eqb_eq in E. simpl. now rewrite E.
  - destruct (obj_id y) as [j|] eqn:Ej; [|discriminate].
    destruct (obj_rev y); [|discriminate].
    intros H. inversion H. subst. auto.
Qed.

Lemma find_associations_triple db sx ox sid oid pred :
  obj_id sx = Some sid -> obj_id ox = Some oid -> pred <> "" ->
  find_associations db (Some (Loaded sx)) (Some pred) (Some (Loaded ox)) false
    None no_filter
  = ok (Objects (edges (view db association.by_match false no_filter
                          (prefix_scan [KStr sid; KStr oid; KStr pred])))).
Proof.
  intros Hs Ho Hp. apply String.eqb_neq in Hp.
  unfold find_associations, find_associations_rows. simpl.
  rewrite Hp, Hs, Ho. reflexivity.
Qed.

(** [create_association] once the arguments are resolved and the predicate
    is known: the type checks, the duplicate check, the write. *)
Lemma create_association_run db sref pred oref new_id ts sx sid st ox oid ot pt :
  given (Some sref) = true -> pred <> "" -> given (Some oref) = true ->
  resolve db "Subject id or rev not available" sref = ok (sx, sid, st) ->
  resolve db "Object id or rev not available" oref = ok (ox, oid, ot) ->
  Predicates pred = Some pt ->
  create_association (Some sref) (Some pred) (Some oref) new_id ts db
  = if negb (type_permitted st (domain pt))
    then ([], db, raise (BadRequest "Illegal subject type %s for predicate %s"))
    else if negb (type_permitted ot (range pt))
    then ([], db, raise (BadRequest "Illegal object type %s for predicate %s"))
    else if negb (Nat.eqb (triple_count sid pred oid db) 0)
    then ([], db, raise (BadRequest
            "Association between %s and %s with predicate %s already exists"))
    else if existsb (fun x => Doc._id x =? new_id) db
    then ([], db, raise (BadRequest "Object with id %s already exist"))
    else ([], db ++ [association_doc new_id sid st pred oid ot ts],
          ok (new_id, "1")).
Proof.
  intros Hgs Hp Hgo Hs Ho Hpt.
  destruct (resolve_id _ _ _ _ _ _ Hs) as [Hsid _].
  destruct (resolve_id _ _ _ _ _ _ Ho) as [Hoid _].
  unfold create_association. rewrite Hgs, Hgo, truthy_Some.
  apply String.eqb_neq in Hp as Hp'. rewrite Hp'. cbn [negb andb].
  unfold bindM, lift. unfold ok in Hs, Ho. rewrite Hs, Ho. cbv beta iota.
  rewrite Hpt.
  destruct (type_permitted st (domain pt)); cbn [negb]; [|reflexivity].
  destruct (type_permitted ot (range pt)); cbn [negb]; [|reflexivity].
  rewrite (find_associations_triple db sx ox sid oid pred Hsid Hoid Hp).
  unfold ok at 1. cbv beta iota.
  cbn [found_length]. unfold edges. rewrite length_map, by_match_scan.
  destruct (Nat.eqb (triple_count sid pred oid db) 0); cbn [negb]; [|reflexivity].
  unfold raiseM, create, create_doc.
  destruct (existsb (fun x => Doc._id x =? new_id) db); reflexivity.
Qed.

Lemma create_association_validated db sref pred oref new_id ts sid st oid ot :
  validated db sref pred oref sid st oid ot ->
  create_association (Some sref) (Some pred) (Some oref) new_id ts db
  = if negb (Nat.eqb (triple_count sid pred oid db) 0)
    then ([], db, raise (BadRequest
            "Association between %s and %s with predicate %s already exists"))
    else if existsb (fun x => Doc._id x =? new_id) db
    then ([], db, raise (BadRequest "Object with id %s already exist"))
    else ([], db ++ [association_doc new_id sid st pred oid ot ts],
          ok (new_id, "1")).
Proof.
  intros (Hgs & Hp & Hgo & [sx Hs] & [ox Ho] & (pt & Hpt & Hst & Hot)).
  rewrite (create_association_run db sref pred oref new_id ts sx sid st ox oid ot pt)
    by assumption.
  now rewrite Hst, Hot.
Qed.

(** What a call to [create_association] can do: raise and leave the store
    as it is, or pass the checks, find no association with the triple and
    append one. *)
Lemma create_association_outcome subject predicate obj new_id ts db w db' r :
  create_association subject predicate obj new_id ts db = (w, db', r) ->
  w = [] /\
  ((exists e, r = inl e /\ db' = db)
   \/ (exists sref pred oref sid st oid ot,
         subject = Some sref /\ predicate = Some pred /\ obj = Some oref
         /\ validated db sref pred oref sid st oid ot
         /\ triple_count sid pred oid db = 0
         /\ r = ok (new_id, "1")
         /\ db' = db ++ [association_doc new_id sid st pred oid ot ts])).
Proof.
  assert (forall msg, raiseM (A := string * string) (BadRequest msg) db = (w, db', r) ->
            w = [] /\
            ((exists e, r = inl e /\ db' = db)
             \/ (exists sref pred oref sid st oid ot,
                   subject = Some sref /\ predicate = Some pred /\ obj = Some oref
                   /\ validated db sref pred oref sid st oid ot
                   /\ triple_count sid pred oid db = 0
                   /\ r = ok (new_id, "1")
                   /\ db' = db ++ [association_doc new_id sid st pred oid ot ts])))
    as Hraise.
  { intros msg H. inversion H. split; auto. left. eauto. }
  destruct subject as [sref|], predicate as [pred|], obj as [oref|];
    try (now apply Hraise).
  destruct (given (Some sref)) eqn:Hgs;
    [|unfold create_association; rewrite Hgs; now apply Hraise].
  destruct (String.eqb_spec pred "") as [Hp|Hp];
    [subst pred; unfold create_association; rewrite Hgs; now apply Hraise|].
  destruct (given (Some oref)) eqn:Hgo.
  2:{ unfold create_association. rewrite Hgs, Hgo, andb_false_r.
      now apply Hraise. }
  destruct (resolve db "Subject id or rev not available" sref)
    as [e|[[sx sid] st]] eqn:Hs.
  { unfold create_association. rewrite Hgs, Hgo, truthy_Some.
    apply String.eqb_neq in Hp. rewrite Hp. cbn [negb andb].
    unfold bindM, lift. rewrite Hs. intros H. inversion H.
    split; auto. left. eauto. }
  destruct (resolve db "Object id or rev not available" oref)
    as [e|[[ox oid] ot]] eqn:Ho.
  { unfold create_association. rewrite Hgs, Hgo, truthy_Some.
    apply String.eqb_neq in Hp. rewrite Hp. cbn [negb andb].
    unfold bindM, lift. rewrite Hs, Ho. intros H. inversion H.
    split; auto. left. eauto. }
  destruct (Predicates pred) as [pt|] eqn:Hpt.
  2:{ unfold create_association. rewrite Hgs, Hgo, truthy_Some.
      apply String.eqb_neq in Hp. rewrite Hp. cbn [negb andb].
      unfold bindM, lift. rewrite Hs, Ho. cbv beta iota. rewrite Hpt.
      apply Hraise. }
  rewrite (create_association_run db sref pred oref new_id ts sx sid st ox oid ot pt)
    by assumption.
  destruct (type_permitted st (domain pt)) eqn:Hst; cbn [negb];
    [|now apply Hraise].
  destruct (type_permitted ot (range pt)) eqn:Hot; cbn [negb];
    [|now apply Hraise].
  destruct (Nat.eqb (triple_count sid pred oid db) 0) eqn:Hc; cbn [negb];
    [|now apply Hraise].
  destruct (existsb (fun x => Doc._id x =? new_id) db); [now apply Hraise|].
  intros H. inversion H. split; auto. right.
  exists sref, pred, oref, sid, st, oid, ot.
  apply Nat.eqb_eq in Hc. unfold validated. repeat split; eauto.
Qed.

Lemma find_app_some {A} (f : A -> bool) l l' x :
  find f l = Some x -> find f (l ++ l') = Some x.
Proof.
  induction l as [|a l IH]; simpl; [discriminate|].
  destruct (f a); auto.
Qed.

Lemma resolve_app db x msg r res :
  resolve db msg r = ok res -> resolve (db ++ [x]) msg r = ok res.
Proof.
  destruct r as [i|y]; auto.
  unfold resolve, read, read_doc.
  destruct (find (fun d => Doc._id d =? i) db) as [d|] eqn:E; [|discriminate].
  now rewrite (find_app_some _ _ _ _ E).
Qed.

Lemma validated_app db x sref pred oref sid st oid ot :
  validated db sref pred oref sid st oid ot ->
  validated (db ++ [x]) sref pred oref sid st oid ot.
Proof.
  intros (Hgs & Hp & Hgo & [sx Hs] & [ox Ho] & Hpt).
  repeat split; auto; eexists; apply resolve_app; eauto.
Qed.

Lemma matches_association_doc sid' pred' oid' new_id sid st pred oid ot ts :
  matches sid' pred' oid' (association_doc new_id sid st pred oid ot ts)
  = (sid =? sid') && (pred =? pred') && (oid =? oid').
Proof. reflexivity. Qed.

Lemma triple_count_app sid pred oid db x :
  triple_count sid pred oid (db ++ [x])
  = triple_count sid pred oid db + (if matches sid pred oid x then 1 else 0).
Proof.
  unfold triple_count. rewrite filter_app, length_app. simpl.
  now destruct (matches sid pred oid x).
Qed.

Lemma triple_count_positive sid pred oid db :
  (exists a, In a db /\ matches sid pred oid a = true) ->
  Nat.eqb (triple_count sid pred oid db) 0 = false.
Proof.
  intros (a & Ha & Hm). apply Nat.eqb_neq. unfold triple_count.
  assert (In a (filter (matches sid pred oid) db)) as Hin
    by (apply filter_In; auto).
  destruct (filter (matches sid pred oid) db); [contradiction|discriminate].
Qed.

(* ===================================================================== *)
(** ** The stores that the association manager reaches *)

Lemma shrinks_refl db : shrinks db db.
Proof.
  exists (fun _ => true). induction db as [|x db IH]; simpl; congruence.
Qed.

Lemma shrinks_trans db2 db1 db : shrinks db2 db1 -> shrinks db1 db -> shrinks db2 db.
Proof.
  intros [f ->] [g ->]. rewrite filter_filter. now eexists.
Qed.

Lemma filter_and_length {A} (f g : A -> bool) l :
  List.length (filter (fun x => f x && g x) l) <= List.length (filter g l).
Proof.
  induction l as [|x l IH]; simpl; auto.
  destruct (f x), (g x); simpl; lia.
Qed.

Lemma shrinks_count sid pred oid db' db :
  shrinks db' db -> triple_count sid pred oid db' <= triple_count sid pred oid db.
Proof.
  intros [f ->]. unfold triple_count. rewrite filter_filter.
  apply filter_and_length.
Qed.

Lemma shrinks_unique db' db : shrinks db' db -> unique_triples db -> unique_triples db'.
Proof.
  intros Hs Hu sid pred oid.
  pose proof (shrinks_count sid pred oid db' db Hs).
  pose proof (Hu sid pred oid). lia.
Qed.

(** A computation whose parts only remove documents only removes
    documents. *)
Lemma bindM_shrinks {A B} (c : M A) (k : A -> M B) :
  (forall db, shrinks (store_after c db) db) ->
  (forall a db, shrinks (store_after (k a) db) db) ->
  forall db, shrinks (store_after (bindM c k) db) db.
Proof.
  intros Hc Hk db. specialize (Hc db). unfold store_after, bindM in *.
  destruct (c db) as [[w db1] [e|a]]; simpl in *; auto.
  specialize (Hk a db1).
  destruct (k a db1) as [[w' db2] r]; simpl in *.
  eapply shrinks_trans; eauto.
Qed.

Lemma lift_shrinks {A} (q : Store -> result A) db :
  shrinks (store_after (lift q) db) db.
Proof. apply shrinks_refl. Qed.

Lemma base_delete_doc_shrinks doc db :
  shrinks (store_after (base_delete_doc doc) db) db.
Proof.
  unfold store_after, base_delete_doc.
  destruct (find _ db); [|apply shrinks_refl].
  destruct (match doc with DocId _ => false | DocDict d => _ end); simpl;
    [apply shrinks_refl|now eexists].
Qed.

Lemma delete_doc_shrinks doc del db :
  shrinks (store_after (delete_doc doc del) db) db.
Proof.
  revert db. unfold delete_doc.
  apply bindM_shrinks; [|intros _; apply base_delete_doc_shrinks].
  destruct del; apply bindM_shrinks; try apply lift_shrinks.
  - intros ids db. now eexists.
  - intros [|] db; apply shrinks_refl.
Qed.

Lemma delete_shrinks obj del db :
  shrinks (store_after (delete obj del) db) db.
Proof.
  destruct obj as [i|x]; simpl; [apply delete_doc_shrinks|].
  destruct (obj_id x); [|apply shrinks_refl].
  destruct (obj_rev x); [apply delete_doc_shrinks|apply shrinks_refl].
Qed.

Lemma delete_association_shrinks association db :
  shrinks (store_after (delete_association association) db) db.
Proof.
  revert db. destruct association as [subject predicate obj|a]; simpl.
  - apply bindM_shrinks; [apply lift_shrinks|].
    intros ids. destruct (found_ids ids) as [|aid rest].
    + intros db. apply shrinks_refl.
    + apply bindM_shrinks;
        [intros db; apply (delete_shrinks (ById aid) false db)|].
      intros _ db. apply shrinks_refl.
  - apply bindM_shrinks; [intros db; apply (delete_shrinks a false db)|].
    intros _ db. apply shrinks_refl.
Qed.

Lemma create_association_unique_step subject predicate obj new_id ts db :
  unique_triples db ->
  unique_triples (store_after (create_association subject predicate obj new_id ts) db).
Proof.
  intros Hu. unfold store_after.
  destruct (create_association subject predicate obj new_id ts db)
    as [[w db'] r] eqn:E. simpl.
  apply create_association_outcome in E
    as [_ [(e & _ & ->)|(sref & pred & oref & sid & st & oid & ot & _ & _ & _
                          & _ & Hc & _ & ->)]]; auto.
  intros sid' pred' oid'. rewrite triple_count_app, matches_association_doc.
  destruct (String.eqb_spec sid sid') as [<-|]; simpl.
  2:{ pose proof (Hu sid' pred' oid'). lia. }
  destruct (String.eqb_spec pred pred') as [<-|]; simpl.
  2:{ pose proof (Hu sid pred' oid'). lia. }
  destruct (String.eqb_spec oid oid') as [<-|]; simpl.
  2:{ pose proof (Hu sid pred oid'). lia. }
  lia.
Qed.

Lemma apply_operation_unique op db :
  unique_triples db -> unique_triples (apply_operation op db).
Proof.
  destruct op; simpl.
  - apply create_association_unique_step.
  - apply shrinks_unique, delete_association_shrinks.
  - apply shrinks_unique, delete_shrinks.
Qed.

Lemma run_unique ops : forall db, unique_triples db -> unique_triples (run ops db).
Proof.
  induction ops as [|op ops IH]; simpl; auto.
  intros db Hu. apply IH, apply_operation_unique, Hu.
Qed.

Lemma triple_count_zero sid pred oid db :
  (forall a, In a db -> matches sid pred oid a = false) ->
  triple_count sid pred oid db = 0.
Proof.
  intros H. unfold triple_count.
  rewrite (no_element (filter (matches sid pred oid) db)); auto.
  intros a Ha. apply filter_In in Ha as [Ha Hm].
  rewrite (H a Ha) in Hm. discriminate.
Qed.

Lemma fresh_id (db : Store) new_id :
  (forall x, In x db -> Doc._id x <> new_id) ->
  existsb (fun x => Doc._id x =? new_id) db = false.
Proof.
  intros H. destruct (existsb _ db) eqn:E; auto.
  apply existsb_exists in E as (x & Hx & E). apply String.eqb_eq in E.
  now elim (H x Hx).
Qed.

Lemma resolve_ref_id db msg msg' r x i t :
  resolve db msg r = ok (x, i, t) -> ref_id msg' (Some r) = ok i.
Proof.
  intros H. destruct (resolve_id _ _ _ _ _ _ H) as [Hi _].
  destruct r as [j|y]; simpl.
  - unfold resolve in H. destruct (read db j); simpl in H; [discriminate|].
    now inversion H.
  - unfold resolve in H. destruct (obj_id y) as [j|]; [|discriminate].
    destruct (obj_rev y); [|discriminate]. now inversion H.
Qed.

(** C1, as the code has it.  [create_association(s, p, o)] always fails,
    leaving the store as it is, when an association with the triple that is
    not retired exists, and with BadRequest when both ends resolve.  A call
    that passes the other checks (the three arguments given, both ends
    resolving, the predicate known, the types permitted) raises the
    duplicate BadRequest in that case and otherwise appends a new
    Association document to the store and returns its id and revision.  A
    second call with the same arguments after a successful one raises the
    duplicate BadRequest.  Every store reached from a store with at most
    one live association per triple by operations of the association
    manager has at most one live association per triple. *)
Theorem create_association_no_duplicate (db : Store) (sref : Ref) (pred : string)
    (oref : Ref) (new_id ts : string) :
  (forall sid oid w db' r,
     ref_id "Object id not available in subject" (Some sref) = ok sid ->
     ref_id "Object id not available in object" (Some oref) = ok oid ->
     (exists a, In a db /\ matches sid pred oid a = true) ->
     create_association (Some sref) (Some pred) (Some oref) new_id ts db
     = (w, db', r) ->
     w = [] /\ db' = db /\ exists e, r = inl e)
  /\ (forall sx sid st ox oid ot,
     resolve db "Subject id or rev not available" sref = ok (sx, sid, st) ->
     resolve db "Object id or rev not available" oref = ok (ox, oid, ot) ->
     (exists a, In a db /\ matches sid pred oid a = true) ->
     exists msg,
       create_association (Some sref) (Some pred) (Some oref) new_id ts db
       = ([], db, raise (BadRequest msg)))
  /\ (forall sid st oid ot,
     validated db sref pred oref sid st oid ot ->
     ((exists a, In a db /\ matches sid pred oid a = true) ->
      create_association (Some sref) (Some pred) (Some oref) new_id ts db
      = ([], db, raise (BadRequest
           "Association between %s and %s with predicate %s already exists")))
     /\ ((forall a, In a db -> matches sid pred oid a = false) ->
         (forall x, In x db -> Doc._id x <> new_id) ->
         create_association (Some sref) (Some pred) (Some oref) new_id ts db
         = ([], db ++ [association_doc new_id sid st pred oid ot ts],
            ok (new_id, "1"))))
  /\ (forall w db' r new_id' ts',
     create_association (Some sref) (Some pred) (Some oref) new_id ts db
     = (w, db', ok r) ->
     create_association (Some sref) (Some pred) (Some oref) new_id' ts' db'
     = ([], db', raise (BadRequest
          "Association between %s and %s with predicate %s already exists")))
  /\ (forall ops, unique_triples db -> unique_triples (run ops db)).
Proof.
  split; [|split; [|split; [|split]]].
  - intros sid oid w db' r Hsid Hoid Hdup H.
    apply create_association_outcome in H
      as [-> [(e & -> & ->)|(sref' & pred' & oref' & sid' & st & oid' & ot & Es
                             & Ep & Eo & Hv & Hc & _ & _)]]; [eauto|].
    exfalso. inversion Es. inversion Ep. inversion Eo. subst sref' pred' oref'.
    destruct Hv as (_ & _ & _ & [sx Hs] & [ox Ho] & _).
    rewrite (resolve_ref_id _ _ "Object id not available in subject" _ _ _ _ Hs)
      in Hsid.
    rewrite (resolve_ref_id _ _ "Object id not available in object" _ _ _ _ Ho)
      in Hoid.
    inversion Hsid. inversion Hoid. subst sid' oid'.
    apply triple_count_positive in Hdup. rewrite Hc in Hdup. discriminate.
  - intros sx sid st ox oid ot Hs Ho Hdup.
    destruct (given (Some sref)) eqn:Hgs;
      [|unfold create_association; rewrite Hgs; eexists; reflexivity].
    destruct (String.eqb_spec pred "") as [Hp|Hp];
      [subst pred; unfold create_association; rewrite Hgs; eexists; reflexivity|].
    destruct (given (Some oref)) eqn:Hgo;
      [|unfold create_association; rewrite Hgs, Hgo, andb_false_r;
        eexists; reflexivity].
    destruct (Predicates pred) as [pt|] eqn:Hpt.
    + rewrite (create_association_run db sref pred oref new_id ts
                 sx sid st ox oid ot pt) by assumption.
      rewrite (triple_count_positive sid pred oid db Hdup).
      destruct (type_permitted st (domain pt)), (type_permitted ot (range pt));
        eexists; reflexivity.
    + unfold create_association. rewrite Hgs, Hgo, truthy_Some.
      apply String.eqb_neq in Hp. rewrite Hp. cbn [negb andb].
      unfold bindM, lift. unfold ok in Hs, Ho. rewrite Hs, Ho. cbv beta iota.
      rewrite Hpt. eexists. reflexivity.
  - intros sid st oid ot Hv. split.
    + intros Hdup. rewrite (create_association_validated _ _ _ _ _ _ _ _ _ _ Hv).
      now rewrite (triple_count_positive sid pred oid db Hdup).
    + intros Hnone Hfresh.
      rewrite (create_association_validated _ _ _ _ _ _ _ _ _ _ Hv).
      now rewrite (triple_count_zero _ _ _ _ Hnone), (fresh_id _ _ Hfresh).
  - intros w db' r new_id' ts' H.
    apply create_association_outcome in H
      as [_ [(e & He & _)|(sref' & pred' & oref' & sid & st & oid & ot & Es & Ep
                           & Eo & Hv & Hc & _ & ->)]]; [discriminate|].
    inversion Es. inversion Ep. inversion Eo. subst sref' pred' oref'.
    rewrite (create_association_validated _ _ _ _ new_id' ts' _ _ _ _
               (validated_app _ _ _ _ _ _ _ _ _ Hv)).
    rewrite triple_count_app, matches_association_doc, Hc, !String.eqb_refl.
    reflexivity.
  - intros ops. apply run_unique.
Qed.

(* ===================================================================== *)
(** ** The type check of [create_association] *)

(** C2. Once both ends resolve and the predicate is known,
    [create_association] raises an illegal-type BadRequest exactly when the
    subject type is neither in the predicate's domain nor among the types
    extending a type of the domain, or the object type fails the same test
    against the range: the illegal-subject-type error in the first case,
    the illegal-object-type error when the subject passes and the object
    fails; with the subject type in the domain and the object type in the
    range neither is raised. *)
Theorem create_association_type_check (db : Store) (sref : Ref) (pred : string)
    (oref : Ref) (new_id ts : string) (sx : IonObject) (sid st : string)
    (ox : IonObject) (oid ot : string) (pt : PredicateDef) :
  given (Some sref) = true -> pred <> "" -> given (Some oref) = true ->
  resolve db "Subject id or rev not available" sref = ok (sx, sid, st) ->
  resolve db "Object id or rev not available" oref = ok (ox, oid, ot) ->
  Predicates pred = Some pt ->
  let outcome :=
    snd (create_association (Some sref) (Some pred) (Some oref) new_id ts db) in
  let illegal_subject :=
    raise (BadRequest "Illegal subject type %s for predicate %s") in
  let illegal_object :=
    raise (BadRequest "Illegal object type %s for predicate %s") in
  ((outcome = illegal_subject \/ outcome = illegal_object)
   <-> (~ permitted st (domain pt) \/ ~ permitted ot (range pt)))
  /\ (outcome = illegal_subject <-> ~ permitted st (domain pt))
  /\ (outcome = illegal_object
      <-> permitted st (domain pt) /\ ~ permitted ot (range pt))
  /\ (In st (domain pt) -> In ot (range pt) ->
      outcome <> illegal_subject /\ outcome <> illegal_object).
Proof.
  intros Hgs Hp Hgo Hs Ho Hpt outcome illegal_subject illegal_object.
  unfold outcome, illegal_subject, illegal_object.
  rewrite (create_association_run db sref pred oref new_id ts sx sid st ox oid ot pt)
    by assumption.
  rewrite <- !type_permitted_spec.
  assert (In st (domain pt) -> type_permitted st (domain pt) = true) as Hin1
    by (intros H; apply type_permitted_spec; now left).
  assert (In ot (range pt) -> type_permitted ot (range pt) = true) as Hin2
    by (intros H; apply type_permitted_spec; now left).
  destruct (type_permitted st (domain pt)); cbn [negb].
  - destruct (type_permitted ot (range pt)); cbn [negb].
    + assert (forall tail : list string * Store * result (string * string),
                tail = (if negb (Nat.eqb (triple_count sid pred oid db) 0)
                        then ([], db, raise (BadRequest
                          "Association between %s and %s with predicate %s already exists"))
                        else if existsb (fun x => Doc._id x =? new_id) db
                        then ([], db, raise (BadRequest "Object with id %s already exist"))
                        else ([], db ++ [association_doc new_id sid st pred oid ot ts],
                              ok (new_id, "1"))) ->
                snd tail <> raise (BadRequest "Illegal subject type %s for predicate %s")
                /\ snd tail <> raise (BadRequest "Illegal object type %s for predicate %s"))
        as Htail.
      { intros tail ->.
        destruct (Nat.eqb (triple_count sid pred oid db) 0); cbn [negb];
          [destruct (existsb (fun x => Doc._id x =? new_id) db)|];
          cbn [snd]; split; discriminate. }
      destruct (Htail _ eq_refl) as [H1 H2].
      repeat split; try tauto; try congruence; intuition congruence.
    + cbn [snd]. repeat split; try tauto; try congruence; try discriminate;
        intuition (try congruence; try discriminate).
  - cbn [snd]. repeat split; try tauto; try congruence; try discriminate;
      intuition (try congruence; try discriminate).
Qed.

(* ===================================================================== *)
(** ** Row projection *)

(** Induction on a store response, through the lists, dicts and optional
    parts it nests. *)
Section Raw_induction.
Variable P : Raw -> Prop.
Hypothesis P_failed : forall e, P (ViewResults (inl e)).
Hypothesis P_results : forall rows, Forall P rows -> P (ViewResults (inr rows)).
Hypothesis P_row : forall id key value doc,
  P key -> P value -> (forall x, doc = Some x -> P x) -> P (RawRow id key value doc).
Hypothesis P_list : forall l, Forall P l -> P (RawList l).
Hypothesis P_dict : forall items,
  Forall (fun kv => P (snd kv)) items -> P (RawDict items).
Hypothesis P_prim : forall x, P (RawPrim x).

Lemma Raw_nested_ind : forall r, P r.
Proof.
  fix IH 1. intros [[e|rows]|id key value doc|l|items|x].
  - apply P_failed.
  - apply P_results.
    induction rows as [|x rows IHrows]; constructor; [apply IH|exact IHrows].
  - apply P_row; [apply IH|apply IH|].
    destruct doc as [y|]; intros x Hx; [|discriminate].
    inversion Hx. subst x. apply IH.
  - apply P_list.
    induction l as [|x l IHl]; constructor; [apply IH|exact IHl].
  - apply P_dict.
    induction items as [|kv items IHitems]; constructor; [|exact IHitems].
    destruct kv as [k v]. apply IH.
  - apply P_prim.
Qed.
End Raw_induction.

Lemma parse_RawList l :
  _parse_results (RawList l)
  = ret <- traverse _parse_results l ;; ok (ParsedList ret).
Proof.
  cbn [_parse_results]. f_equal.
  induction l as [|x l IH]; cbn [traverse]; [reflexivity|].
  now rewrite IH.
Qed.

Lemma parse_ViewResults rows :
  _parse_results (ViewResults (inr rows))
  = except_ResourceNotFound (_parse_results (RawList rows)).
Proof. reflexivity. Qed.

Lemma parse_RawDict items :
  existsb (fun kv => fst kv =? "_id") items = false ->
  _parse_results (RawDict items)
  = ret <- traverse (fun kv => x <- _parse_results (snd kv) ;; ok (fst kv, x)) items ;;
    ok (ParsedDict ret).
Proof.
  intros H. cbn [_parse_results]. rewrite H. f_equal. clear H.
  induction items as [|[key value] items IH]; cbn [traverse]; [reflexivity|].
  rewrite IH. cbn [fst snd]. unfold bind.
  destruct (_parse_results value); reflexivity.
Qed.

Lemma traverse_failure {A B} (f : A -> result B) l e :
  traverse f l = raise e -> exists x, In x l /\ f x = raise e.
Proof.
  induction l as [|x l IH]; cbn [traverse]; [discriminate|].
  unfold bind. destruct (f x) as [e'|y] eqn:E.
  - intros H. inversion H. subst. exists x. split; [now left|exact E].
  - destruct (traverse f l) as [e'|ys]; [|discriminate].
    intros H. inversion H. subst. destruct (IH eq_refl) as (x' & Hx & Hf).
    exists x'. split; [now right|exact Hf].
Qed.

Lemma except_ResourceNotFound_surfaces {A} (r : result A) e :
  (forall e', r = raise e' ->
     surfaces e' \/ exists reason, e' = Http (ResourceNotFound reason)) ->
  except_ResourceNotFound r = raise e -> surfaces e.
Proof.
  intros H. destruct r as [e'|a]; [|discriminate].
  destruct (H e' eq_refl) as [Hs|[reason ->]].
  - destruct Hs as [[msg ->]|[reason ->]]; simpl; intros E; inversion E; subst.
    + left. eauto.
    + right. eauto.
  - simpl. intros E. inversion E. left. eauto.
Qed.

(** Whatever the response, a failure of [_parse_results] is a BadRequest
    or a failure of the store other than ResourceNotFound. *)
Lemma parse_results_failures doc : forall e, _parse_results doc = raise e -> surfaces e.
Proof.
  induction doc as [err|rows IH|id key value doc IHk IHv IHd|l IH|items IH|x]
    using Raw_nested_ind; intros e.
  - destruct err as [reason|reason]; simpl; intros H; inversion H.
    + left. eauto.
    + right. eauto.
  - rewrite parse_ViewResults. apply except_ResourceNotFound_surfaces.
    intros e' He. left. rewrite parse_RawList in He. unfold bind in He.
    destruct (traverse _parse_results rows) as [e''|ys] eqn:E; [|discriminate].
    inversion He. subst. apply traverse_failure in E as (x & Hx & Hf).
    rewrite Forall_forall in IH. exact (IH x Hx e' Hf).
  - cbn [_parse_results]. unfold bind.
    destruct (_parse_results key) as [e1|k] eqn:Ek.
    { intros H. inversion H. subst. now apply IHk. }
    destruct (_parse_results value) as [e2|v] eqn:Ev.
    { intros H. inversion H. subst. now apply IHv. }
    destruct doc as [x|]; [|discriminate].
    destruct (_parse_results x) as [e3|y] eqn:Ex; [|discriminate].
    intros H. inversion H. subst. now apply (IHd x eq_refl).
  - rewrite parse_RawList. unfold bind.
    destruct (traverse _parse_results l) as [e'|ys] eqn:E; [|discriminate].
    intros H. inversion H. subst. apply traverse_failure in E as (x & Hx & Hf).
    rewrite Forall_forall in IH. exact (IH x Hx e Hf).
  - destruct (existsb (fun kv => fst kv =? "_id") items) eqn:Hid.
    { cbn [_parse_results]. rewrite Hid. discriminate. }
    rewrite (parse_RawDict items Hid). unfold bind at 1.
    destruct (traverse _ items) as [e'|ys] eqn:E; [|discriminate].
    intros H. inversion H. subst. apply traverse_failure in E as (kv & Hkv & Hf).
    rewrite Forall_forall in IH. apply (IH kv Hkv e).
    unfold bind in Hf.
    destruct (_parse_results (snd kv)); [now inversion Hf|discriminate].
  - discriminate.
Qed.

(** C9, as the code has it.  [_parse_results] recurses structurally: a
    results object to its rows, a row to a mapping of id, key, value and
    doc, a list element by element, a dict that carries ["_id"] to the
    deserialized object, another dict entry by entry, anything else
    unchanged.  A ResourceNotFound of the store while the rows are read,
    whatever its reason, surfaces as BadRequest; another failure of the
    store passes through; no response makes [_parse_results] raise
    NotFound. *)
Theorem parse_results_projection :
  (forall rows,
     _parse_results (ViewResults (inr rows))
     = except_ResourceNotFound (_parse_results (RawList rows)))
  /\ (forall id key value doc,
        _parse_results (RawRow id key value doc)
        = k <- _parse_results key ;;
          v <- _parse_results value ;;
          d <- match doc with
               | Some x => y <- _parse_results x ;; ok [("doc", y)]
               | None => ok []
               end ;;
          ok (ParsedDict
                ((match id with Some i => [("id", ParsedPrim (PStr i))] | None => [] end)
                 ++ [("key", k); ("value", v)] ++ d)))
  /\ (forall l,
        _parse_results (RawList l)
        = ret <- traverse _parse_results l ;; ok (ParsedList ret))
  /\ (forall items,
        existsb (fun kv => fst kv =? "_id") items = true ->
        _parse_results (RawDict items) = ok (ParsedObject (_io_deserializer items)))
  /\ (forall items,
        existsb (fun kv => fst kv =? "_id") items = false ->
        _parse_results (RawDict items)
        = ret <- traverse (fun kv => x <- _parse_results (snd kv) ;; ok (fst kv, x))
                   items ;;
          ok (ParsedDict ret))
  /\ (forall x, _parse_results (RawPrim x) = ok (ParsedPrim x))
  /\ (forall reason,
        _parse_results (ViewResults (inl (ResourceNotFound reason)))
        = raise (BadRequest "The desired resource does not exist."))
  /\ (forall reason,
        _parse_results (ViewResults (inl (ServerError reason)))
        = raise (Http (ServerError reason)))
  /\ (forall doc e, _parse_results doc = raise e -> surfaces e)
  /\ (forall doc msg, _parse_results doc <> raise (NotFound msg)).
Proof.
  split; [exact parse_ViewResults|].
  split; [reflexivity|].
  split; [exact parse_RawList|].
  split; [intros items H; cbn [_parse_results]; now rewrite H|].
  split; [exact parse_RawDict|].
  split; [reflexivity|].
  split; [reflexivity|].
  split; [reflexivity|].
  split; [exact parse_results_failures|].
  intros doc msg H. apply parse_results_failures in H.
  destruct H as [[m H]|[r H]]; discriminate.
Qed.

(* ===================================================================== *)
(** * Further properties *)

(** ** The arguments of [find_associations] *)

Lemma ref_id_has_id msg r :
  has_id r = true -> exists i, ref_id msg r = ok i.
Proof.
  destruct r as [[i|x]|]; simpl; eauto.
  destruct (obj_id x); [eauto|discriminate].
Qed.







(** ** Prefix scans *)

Lemma same_part_eq a b : same_part a b = true <-> a = b.
Proof.
  unfold same_part. split.
  - destruct (part_compare a b) eqn:E; try discriminate.
    intros _. now apply part_compare_eq.
  - intros ->. now rewrite part_compare_refl.
Qed.

Lemma extends_spec pre : forall l,
  extends pre l = true <-> exists rest, l = pre ++ rest.
Proof.
  induction pre as [|x pre IH]; intros l; simpl.
  - split; eauto.
  - destruct l as [|y l].
    + split; [discriminate|]. intros [rest H]. discriminate.
    + rewrite andb_true_iff, same_part_eq, IH. split.
      * intros [-> [rest ->]]. eauto.
      * intros [rest H]. inversion H. eauto.
Qed.

Lemma same_part_KStr v x : same_part (KStr v) (part x) = opt_eqb x v.
Proof.
  apply bool_ext. rewrite same_part_eq, opt_eqb_eq. split.
  - intros H. symmetry in H. now apply part_KStr.
  - intros H. symmetry. now apply part_KStr.
Qed.

Lemma in_range_extends pre r :
  (exists l, Row.key r = KArray l /\ Forall real l) ->
  in_range (KArray pre) (KArray (_get_endkey pre)) r = key_extends pre (Row.key r).
Proof.
  intros [l [Hk Hl]]. apply bool_ext.
  rewrite (in_prefix_range pre r l Hk Hl), Hk. simpl.
  now rewrite extends_spec.
Qed.

Lemma filter_flat_map {A B} (f : B -> bool) (g : A -> list B) l :
  filter f (flat_map g l) = flat_map (fun x => filter f (g x)) l.
Proof.
  induction l as [|x l IH]; simpl; auto.
  now rewrite filter_app, IH.
Qed.

Lemma flat_map_ext_in {A B} (f g : A -> list B) l :
  (forall x, In x l -> f x = g x) -> flat_map f l = flat_map g l.
Proof.
  induction l as [|x l IH]; simpl; intros H; auto.
  rewrite H, IH; auto.
Qed.

(** A prefix scan of an index with array keys returns, in some order, the
    emissions whose key starts with the scan key. *)
Lemma prefix_scan_perm db map_fun inc pre :
  (forall d e, In d db -> In e (map_fun d) ->
     exists l, fst e = KArray l /\ Forall real l) ->
  Permutation (view db map_fun inc no_filter (prefix_scan pre))
    (flat_map (fun d => map (row_of inc d)
                          (filter (fun e => key_extends pre (fst e)) (map_fun d))) db).
Proof.
  intros Hk. unfold prefix_scan. rewrite view_range_perm.
  unfold emitted. rewrite filter_flat_map.
  erewrite flat_map_ext_in; [reflexivity|].
  intros d Hd. cbv beta.
  rewrite filter_map_swap. unfold row_of. apply f_equal.
  apply filter_ext_in. intros e He.
  now rewrite in_range_extends by (simpl; eauto).
Qed.

(** The same for an index with one conditional emission per document. *)
Lemma prefix_scan_single db map_fun inc pre (c : Doc.t -> bool)
    (k : Doc.t -> list KeyPart) (v : Doc.t -> option Doc.t) :
  (forall d, map_fun d = if c d then [(KArray (k d), v d)] else []) ->
  (forall d, Forall real (k d)) ->
  Permutation (view db map_fun inc no_filter (prefix_scan pre))
    (map (fun d => Row.mk (Doc._id d) (KArray (k d)) (v d)
                     (if inc then Some d else None))
         (filter (fun d => c d && extends pre (k d)) db)).
Proof.
  intros Hm Hr. rewrite prefix_scan_perm.
  - erewrite flat_map_single; [reflexivity|].
    intros d. rewrite Hm. destruct (c d); simpl; auto.
    destruct (extends pre (k d)); reflexivity.
  - intros d e _. rewrite Hm. destruct (c d); simpl; [|tauto].
    intros [<-|[]]. simpl. eauto.
Qed.

(** ** [find_associations] by subject, predicate and object *)

Lemma id_of_given msg r i :
  given r = true -> ref_id msg r = ok i -> id_of r = Some i.
Proof.
  destruct r as [[j|x]|]; simpl; try discriminate.
  - destruct (j =? ""); [discriminate|]. intros _ H. now inversion H.
  - intros _. destruct (obj_id x); intros H; now inversion H.
Qed.

Lemma id_of_not_given r : given r = false -> id_of r = None.
Proof.
  destruct r as [[j|x]|]; simpl; try discriminate; auto.
  destruct (j =? ""); [auto|discriminate].
Qed.

Lemma asked_truthy predicate :
  truthy predicate = true -> exists v, predicate = Some v /\ asked predicate = Some v.
Proof.
  unfold asked. destruct predicate as [v|]; simpl; [|discriminate].
  intros ->. eauto.
Qed.

(** The index and the scan key that [find_associations] uses when no
    [anyside] is given. *)
Lemma find_associations_rows_scan db subject predicate obj kwargs sid oid :
  given subject || given obj || truthy predicate = true ->
  ref_id "Object id not available in subject" subject = ok sid ->
  ref_id "Object id not available in object" obj = ok oid ->
  find_associations_rows db subject predicate obj None kwargs
  = ok (if given subject && given obj
        then view db association.by_match false kwargs
               (prefix_scan ([KStr sid; KStr oid] ++ optional predicate))
        else if given subject
        then view db association.by_sub false kwargs
               (prefix_scan ([KStr sid] ++ optional predicate))
        else if given obj
        then view db association.by_obj false kwargs
               (prefix_scan ([KStr oid] ++ optional predicate))
        else view db association.by_pred false kwargs
               (prefix_scan [part predicate])).
Proof.
  intros Hg Hs Ho. unfold find_associations_rows, optional.
  cbn [given_anyside andb orb]. rewrite orb_false_r, Hg. cbn [negb].
  rewrite Hs, Ho.
  destruct (given subject), (given obj); cbn [bind ok andb orb]; auto.
  simpl in Hg. rewrite Hg. reflexivity.
Qed.

Lemma pattern_by_match sid oid predicate a :
  is_association a
  && extends ([KStr sid; KStr oid] ++ optional predicate)
       [part (Doc.s a); part (Doc.o a); part (Doc.p a)]
  = pattern (Some sid) (asked predicate) (Some oid) a.
Proof.
  unfold pattern, optional, asked.
  destruct (truthy predicate) eqn:Hp.
  - destruct predicate as [v|]; [|discriminate]. simpl.
    rewrite !same_part_KStr.
    destruct (is_association a), (opt_eqb (Doc.s a) sid), (opt_eqb (Doc.o a) oid),
      (opt_eqb (Doc.p a) v); reflexivity.
  - simpl. rewrite !same_part_KStr.
    destruct (is_association a), (opt_eqb (Doc.s a) sid), (opt_eqb (Doc.o a) oid);
      reflexivity.
Qed.

Lemma pattern_by_sub sid predicate a :
  is_association a
  && extends ([KStr sid] ++ optional predicate)
       [part (Doc.s a); part (Doc.p a); part (Doc.ot a); part (Doc.o a)]
  = pattern (Some sid) (asked predicate) None a.
Proof.
  unfold pattern, optional, asked.
  destruct (truthy predicate) eqn:Hp.
  - destruct predicate as [v|]; [|discriminate]. simpl.
    rewrite !same_part_KStr.
    destruct (is_association a), (opt_eqb (Doc.s a) sid), (opt_eqb (Doc.p a) v);
      reflexivity.
  - simpl. rewrite !same_part_KStr.
    destruct (is_association a), (opt_eqb (Doc.s a) sid); reflexivity.
Qed.

Lemma pattern_by_obj oid predicate a :
  is_association a
  && extends ([KStr oid] ++ optional predicate)
       [part (Doc.o a); part (Doc.p a); part (Doc.st a); part (Doc.s a)]
  = pattern None (asked predicate) (Some oid) a.
Proof.
  unfold pattern, optional, asked.
  destruct (truthy predicate) eqn:Hp.
  - destruct predicate as [v|]; [|discriminate]. simpl.
    rewrite !same_part_KStr.
    destruct (is_association a), (opt_eqb (Doc.o a) oid), (opt_eqb (Doc.p a) v);
      reflexivity.
  - simpl. rewrite !same_part_KStr.
    destruct (is_association a), (opt_eqb (Doc.o a) oid); reflexivity.
Qed.

Lemma pattern_by_pred v a :
  is_association a
  && extends [KStr v] [part (Doc.p a); part (Doc.s a); part (Doc.o a)]
  = pattern None (Some v) None a.
Proof.
  unfold pattern. simpl. rewrite !same_part_KStr.
  destruct (is_association a), (opt_eqb (Doc.p a) v); reflexivity.
Qed.

Ltac real_parts := repeat constructor; apply real_part.

(** Without [anyside], the arguments are accepted when something is given
    and the loaded objects carry an id. *)
Lemma accepted_without_anyside subject predicate obj :
  accepted_arguments subject predicate obj None = true
  <-> given subject || given obj || truthy predicate = true
      /\ has_id subject = true /\ has_id obj = true.
Proof.
  unfold accepted_arguments, well_formed_arguments.
  cbn [given_anyside anyside_expected object_as_key andb negb].
  rewrite orb_false_r, !andb_true_r, !andb_true_iff. tauto.
Qed.

(** Without [anyside] and without pagination: the ids of the associations
    that carry the components given. *)
Lemma find_associations_scan_ids (db : Store) (subject : option Ref)
    (predicate : option string) (obj : option Ref) :
  accepted_arguments subject predicate obj None = true ->
  exists ids,
    find_associations db subject predicate obj true None no_filter = ok (Ids ids)
    /\ Permutation ids
         (ids_of (filter (pattern (id_of subject) (asked predicate) (id_of obj)) db)).
Proof.
  intros Ha. apply accepted_without_anyside in Ha as (Hg & Hs & Ho).
  destruct (ref_id_has_id "Object id not available in subject" _ Hs) as [sid Hsid].
  destruct (ref_id_has_id "Object id not available in object" _ Ho) as [oid Hoid].
  unfold find_associations.
  rewrite (find_associations_rows_scan db subject predicate obj no_filter sid oid
             Hg Hsid Hoid).
  cbn [bind ok]. eexists. split; [reflexivity|].
  unfold ids_of.
  destruct (given subject) eqn:Gs, (given obj) eqn:Go; cbn [andb].
  - rewrite (id_of_given _ _ _ Gs Hsid), (id_of_given _ _ _ Go Hoid).
    rewrite (prefix_scan_single db association.by_match false _ is_association
               (fun a => [part (Doc.s a); part (Doc.o a); part (Doc.p a)])
               (fun a => Some a)) by (intros; reflexivity || real_parts).
    rewrite map_map. cbn [Row.id].
    erewrite filter_ext; [reflexivity|]. intros a. apply pattern_by_match.
  - rewrite (id_of_given _ _ _ Gs Hsid), (id_of_not_given _ Go).
    rewrite (prefix_scan_single db association.by_sub false _ is_association
               (fun a => [part (Doc.s a); part (Doc.p a); part (Doc.ot a);
                          part (Doc.o a)])
               (fun a => Some a)) by (intros; reflexivity || real_parts).
    rewrite map_map. cbn [Row.id].
    erewrite filter_ext; [reflexivity|]. intros a. apply pattern_by_sub.
  - rewrite (id_of_not_given _ Gs), (id_of_given _ _ _ Go Hoid).
    rewrite (prefix_scan_single db association.by_obj false _ is_association
               (fun a => [part (Doc.o a); part (Doc.p a); part (Doc.st a);
                          part (Doc.s a)])
               (fun a => Some a)) by (intros; reflexivity || real_parts).
    rewrite map_map. cbn [Row.id].
    erewrite filter_ext; [reflexivity|]. intros a. apply pattern_by_obj.
  - rewrite (id_of_not_given _ Gs), (id_of_not_given _ Go).
    simpl in Hg. destruct (asked_truthy _ Hg) as [v [-> ->]].
    rewrite (prefix_scan_single db association.by_pred false _ is_association
               (fun a => [part (Doc.p a); part (Doc.s a); part (Doc.o a)])
               (fun a => Some a)) by (intros; reflexivity || real_parts).
    rewrite map_map. cbn [Row.id part].
    erewrite filter_ext; [reflexivity|]. intros a. apply pattern_by_pred.
Qed.

(** X2. Without [anyside] and without pagination, [find_associations]
    returns with [id_only=True] the ids of exactly the associations that
    are not retired and carry every component that is given: the subject
    id, the predicate and the object id, each compared only when its
    argument is given. *)
Theorem find_associations_pattern (db : Store) (subject : option Ref)
    (predicate : option string) (obj : option Ref) :
  accepted_arguments subject predicate obj None = true ->
  exists ids,
    find_associations db subject predicate obj true None no_filter = ok (Ids ids)
    /\ Permutation ids
         (ids_of (filter (pattern (id_of subject) (asked predicate) (id_of obj)) db)).
Proof. apply find_associations_scan_ids. Qed.

(** ** [find_associations] by any side *)

Lemma pair_emissions_perm {A B} (c p1 p2 : A -> bool) (r1 r2 : A -> B)
    (g : A -> list B) l :
  (forall d, g d = if c d
                   then (if p1 d then [r1 d] else []) ++ (if p2 d then [r2 d] else [])
                   else []) ->
  Permutation (flat_map g l)
    (map r1 (filter (fun d => c d && p1 d) l)
     ++ map r2 (filter (fun d => c d && p2 d) l)).
Proof.
  intros Hg. induction l as [|d l IH]; simpl; [constructor|].
  rewrite Hg. destruct (c d); simpl; [|exact IH].
  destruct (p1 d), (p2 d); simpl.
  - constructor. now apply Permutation_cons_app.
  - now constructor.
  - now apply Permutation_cons_app.
  - exact IH.
Qed.

Lemma view_keys_perm db map_fun inc k :
  Permutation (view db map_fun inc no_filter (Keys [k]))
    (flat_map (fun d => filter (fun r => key_eqb (Row.key r) k)
                          (map (row_of inc d) (map_fun d))) db).
Proof.
  rewrite view_keys. simpl. rewrite app_nil_r.
  rewrite (Permutation_filter _ _ _ (sort_rows_perm _)).
  unfold emitted. now rewrite filter_flat_map.
Qed.

Lemma by_idpred_real d e :
  In e (association.by_idpred d) -> exists l, fst e = KArray l /\ Forall real l.
Proof.
  unfold association.by_idpred. destruct (is_association d); [|contradiction].
  intros [<-|[<-|[]]]; simpl; eexists; (split; [reflexivity|]);
    repeat constructor; apply real_part.
Qed.

(** X3. An any-side lookup for one id, with or without a predicate and
    without pagination, returns the ids of the associations that have the
    id as subject followed, up to order, by those that have it as object;
    an association from a document to itself is returned twice. *)
Theorem find_associations_anyside_both (db : Store) (i : string)
    (predicate : option string) :
  i <> "" ->
  exists ids,
    find_associations db None predicate None true (Some (AnyId i)) no_filter
    = ok (Ids ids)
    /\ Permutation ids
         (ids_of (filter (pattern (Some i) (asked predicate) None) db)
          ++ ids_of (filter (pattern None (asked predicate) (Some i)) db)).
Proof.
  intros Hi. apply String.eqb_neq in Hi.
  unfold find_associations, find_associations_rows.
  cbn [given given_anyside is_list andb orb negb ref_id bind ok].
  rewrite Hi, andb_false_r. cbn [negb orb andb].
  rewrite orb_true_r. cbn [negb].
  unfold ids_of, asked.
  destruct (truthy predicate) eqn:Hp.
  - destruct predicate as [v|]; [|discriminate].
    eexists. split; [reflexivity|].
    rewrite (prefix_scan_perm db association.by_idpred false)
      by (intros d e _; apply by_idpred_real).
    rewrite (pair_emissions_perm is_association
               (fun a => opt_eqb (Doc.s a) i && opt_eqb (Doc.p a) v)
               (fun a => opt_eqb (Doc.o a) i && opt_eqb (Doc.p a) v)
               (fun a => Row.mk (Doc._id a) (KArray [part (Doc.s a); part (Doc.p a)])
                           (Some a) None)
               (fun a => Row.mk (Doc._id a) (KArray [part (Doc.o a); part (Doc.p a)])
                           (Some a) None)).
    + rewrite map_app, !map_map. cbn [Row.id].
      apply Permutation_app; erewrite filter_ext; try reflexivity;
        intros a; unfold pattern;
        destruct (is_association a), (opt_eqb (Doc.s a) i), (opt_eqb (Doc.o a) i),
          (opt_eqb (Doc.p a) v); reflexivity.
    + intros d. unfold association.by_idpred.
      destruct (is_association d); [|reflexivity].
      cbn [filter map fst key_extends extends part]. rewrite !same_part_KStr.
      destruct (opt_eqb (Doc.s d) i), (opt_eqb (Doc.o d) i), (opt_eqb (Doc.p d) v);
        reflexivity.
  - eexists. split; [reflexivity|].
    cbn [map element_key]. rewrite view_keys_perm.
    rewrite (pair_emissions_perm is_association
               (fun a => opt_eqb (Doc.s a) i) (fun a => opt_eqb (Doc.o a) i)
               (fun a => Row.mk (Doc._id a) (KScalar (part (Doc.s a))) (Some a) None)
               (fun a => Row.mk (Doc._id a) (KScalar (part (Doc.o a))) (Some a) None)).
    + rewrite map_app, !map_map. cbn [Row.id].
      apply Permutation_app; erewrite filter_ext; try reflexivity;
        intros a; unfold pattern;
        destruct (is_association a), (opt_eqb (Doc.s a) i), (opt_eqb (Doc.o a) i);
        reflexivity.
    + intros d. unfold association.by_id.
      destruct (is_association d); [|reflexivity].
      cbn [filter map fst snd row_of Row.key]. rewrite !part_eqb.
      destruct (opt_eqb (Doc.s d) i), (opt_eqb (Doc.o d) i); reflexivity.
Qed.

(** ** Referenced documents and [delete] *)

Lemma anyside_rows_referenced db d :
  Nat.eqb (List.length (anyside_rows db no_filter d)) 0 = negb (referenced db d).
Proof.
  unfold referenced. destruct (existsb (references d) db) eqn:E; simpl.
  - apply existsb_exists in E as (a & Ha & Href).
    pose proof (references_anyside_row db d a Ha Href) as H.
    destruct (anyside_rows db no_filter d); [destruct H|reflexivity].
  - rewrite anyside_rows_empty; [reflexivity|].
    intros a Ha. destruct (references d a) eqn:Href; auto.
    assert (existsb (references d) db = true) as H
      by (apply existsb_exists; eauto).
    congruence.
Qed.

Lemma length_firstn_1 {A} (l : list A) :
  Nat.eqb (List.length (firstn 1 l)) 0 = Nat.eqb (List.length l) 0.
Proof. destruct l; reflexivity. Qed.

(** [_is_in_association] in terms of the documents of the store. *)
Lemma is_in_association_run (db : Store) (obj_id : string) :
  _is_in_association db obj_id
  = if obj_id =? "" then raise (BadRequest "Must provide object id")
    else ok (referenced db obj_id).
Proof.
  unfold _is_in_association. destruct (obj_id =? "") eqn:E; [reflexivity|].
  apply String.eqb_neq in E.
  rewrite (find_associations_anyside db obj_id true _ E). cbn [bind ok found_length].
  rewrite length_map, anyside_rows_limit, length_firstn_1, anyside_rows_referenced.
  now rewrite negb_involutive.
Qed.

(** X4. [_is_in_association] refuses an empty id with BadRequest and
    otherwise tells whether some association of the store that is not
    retired has the id as subject or as object. *)
Theorem is_in_association_referenced (db : Store) (obj_id : string) :
  _is_in_association db obj_id
  = if obj_id =? "" then raise (BadRequest "Must provide object id")
    else ok (referenced db obj_id).
Proof. apply is_in_association_run. Qed.

Lemma base_delete_doc_no_warning doc db : fst (fst (base_delete_doc doc db)) = [].
Proof.
  unfold base_delete_doc. destruct (find _ db); [|reflexivity].
  destruct (match doc with DocId _ => false | DocDict d => _ end); reflexivity.
Qed.

(** [delete_doc] without cascade in terms of the store's own deletion. *)
Lemma delete_doc_without_cascade (doc : DocArg) (db : Store) :
  doc_id_of doc <> "" ->
  delete_doc doc false db
  = (if referenced db (doc_id_of doc)
     then ["Deleting object %s that still has associations"] else [],
     snd (fst (base_delete_doc doc db)), snd (base_delete_doc doc db)).
Proof.
  intros Hd. apply String.eqb_neq in Hd.
  unfold delete_doc. fold (doc_id_of doc). unfold bindM at 1.
  unfold bindM, lift. rewrite is_in_association_run, Hd.
  pose proof (base_delete_doc_no_warning doc db) as Hw.
  destruct (referenced db (doc_id_of doc)); unfold warn, retM, ok;
    cbv beta iota;
    destruct (base_delete_doc doc db) as [[w db'] r]; simpl in *; now subst.
Qed.

(** X5. Without cascade, [delete_doc] of a document with an id logs the
    warning exactly when the document is still referenced, also when the
    store then refuses the deletion; the store it leaves and the outcome
    are those of the store's own deletion, the associations stay. *)
Theorem delete_doc_warns (doc : DocArg) (db : Store) :
  doc_id_of doc <> "" ->
  delete_doc doc false db
  = (if referenced db (doc_id_of doc)
     then ["Deleting object %s that still has associations"] else [],
     snd (fst (base_delete_doc doc db)), snd (base_delete_doc doc db)).
Proof. apply delete_doc_without_cascade. Qed.





(** ** Creating, finding and deleting an association *)

Lemma ref_id_ok_has_id msg r i : ref_id msg r = ok i -> has_id r = true.
Proof.
  destruct r as [[j|x]|]; simpl; auto.
  destruct (obj_id x); [auto|discriminate].
Qed.

Lemma validated_arguments db sref pred oref sid st oid ot :
  validated db sref pred oref sid st oid ot ->
  accepted_arguments (Some sref) (Some pred) (Some oref) None = true
  /\ id_of (Some sref) = Some sid /\ id_of (Some oref) = Some oid
  /\ asked (Some pred) = Some pred.
Proof.
  intros (Hgs & Hp & Hgo & [sx Hs] & [ox Ho] & _).
  pose proof (resolve_ref_id _ _ "Object id not available in subject" _ _ _ _ Hs)
    as Hsid.
  pose proof (resolve_ref_id _ _ "Object id not available in object" _ _ _ _ Ho)
    as Hoid.
  apply String.eqb_neq in Hp.
  repeat split.
  - apply accepted_without_anyside.
    rewrite Hgs, (ref_id_ok_has_id _ _ _ Hsid), (ref_id_ok_has_id _ _ _ Hoid).
    auto.
  - eapply id_of_given; eauto.
  - eapply id_of_given; eauto.
  - unfold asked. simpl. now rewrite Hp.
Qed.

Lemma filter_none {A} (f : A -> bool) l :
  List.length (filter f l) = 0 -> filter f l = [].
Proof. destruct (filter f l); [auto|discriminate]. Qed.

Lemma filter_fresh (db : Store) new_id :
  (forall x, In x db -> Doc._id x <> new_id) ->
  filter (fun x => negb (Doc._id x =? new_id)) db = db.
Proof.
  intros H. induction db as [|x db IH]; simpl; auto.
  assert ((Doc._id x =? new_id) = false) as ->
    by (apply String.eqb_neq, H; now left).
  simpl. f_equal. apply IH. intros y Hy. apply H. now right.
Qed.

(** A validated call for a triple that is not yet in the store, with an
    id that is not yet in the store, appends the association. *)
Lemma create_association_appends db sref pred oref new_id ts sid st oid ot :
  validated db sref pred oref sid st oid ot ->
  triple_count sid pred oid db = 0 ->
  (forall x, In x db -> Doc._id x <> new_id) ->
  create_association (Some sref) (Some pred) (Some oref) new_id ts db
  = ([], db ++ [association_doc new_id sid st pred oid ot ts], ok (new_id, "1")).
Proof.
  intros Hv Hc Hf. rewrite (create_association_validated _ _ _ _ _ _ _ _ _ _ Hv).
  rewrite Hc, (fresh_id _ _ Hf). reflexivity.
Qed.

(** The triple lookup in the store that the call leaves. *)
Lemma find_created_association db sref pred oref new_id ts sid st oid ot :
  validated db sref pred oref sid st oid ot ->
  triple_count sid pred oid db = 0 ->
  find_associations (db ++ [association_doc new_id sid st pred oid ot ts])
    (Some sref) (Some pred) (Some oref) true None no_filter
  = ok (Ids [new_id]).
Proof.
  intros Hv Hc.
  pose proof (validated_app db (association_doc new_id sid st pred oid ot ts)
                _ _ _ _ _ _ _ Hv) as Hv'.
  destruct (validated_arguments _ _ _ _ _ _ _ _ Hv') as (Ha & Hs & Ho & Hp).
  destruct (find_associations_scan_ids
              (db ++ [association_doc new_id sid st pred oid ot ts])
              _ _ _ Ha) as (ids & -> & Hperm).
  rewrite Hs, Ho, Hp in Hperm.
  rewrite filter_app in Hperm.
  change (pattern (Some sid) (Some pred) (Some oid)) with (matches sid pred oid)
    in Hperm.
  rewrite (filter_none _ _ Hc) in Hperm. simpl in Hperm.
  rewrite matches_association_doc, !String.eqb_refl in Hperm. simpl in Hperm.
  apply Permutation_sym, Permutation_length_1_inv in Hperm. now subst.
Qed.

(** X7. After a successful [create_association] (a validated call for a
    triple that is not in the store, under an id that is not in the
    store), [find_associations] with the same subject, predicate and
    object returns the id of the new association and nothing else. *)
Theorem create_then_find (db : Store) (sref : Ref) (pred : string) (oref : Ref)
    (new_id ts sid st oid ot : string) :
  validated db sref pred oref sid st oid ot ->
  triple_count sid pred oid db = 0 ->
  (forall x, In x db -> Doc._id x <> new_id) ->
  find_associations
    (store_after (create_association (Some sref) (Some pred) (Some oref) new_id ts) db)
    (Some sref) (Some pred) (Some oref) true None no_filter
  = ok (Ids [new_id]).
Proof.
  intros Hv Hc Hf. unfold store_after.
  rewrite (create_association_appends _ _ _ _ _ ts _ _ _ _ Hv Hc Hf).
  cbn [fst snd]. now apply find_created_association.
Qed.

(** Deleting by triple in the store that the call leaves. *)
Lemma delete_created_association db sref pred oref new_id ts sid st oid ot :
  validated db sref pred oref sid st oid ot ->
  triple_count sid pred oid db = 0 ->
  (forall x, In x db -> Doc._id x <> new_id) ->
  new_id <> "" ->
  exists w,
    delete_association (Triple (Some sref) (Some pred) (Some oref))
      (db ++ [association_doc new_id sid st pred oid ot ts])
    = (w, db, ok None).
Proof.
  intros Hv Hc Hf Hn.
  unfold delete_association, bindM at 1, lift.
  rewrite (find_created_association _ _ _ _ new_id ts _ _ _ _ Hv Hc).
  cbn [ok found_ids]. unfold bindM, delete, retM.
  rewrite (delete_doc_without_cascade (DocId new_id) _ Hn).
  unfold base_delete_doc. cbn [doc_id_of].
  destruct (find_some_id (db ++ [association_doc new_id sid st pred oid ot ts]) new_id)
    as [x ->].
  { eexists. split; [apply in_or_app; right; left; reflexivity|reflexivity]. }
  cbn [fst snd]. rewrite filter_app, (filter_fresh _ _ Hf). simpl.
  rewrite String.eqb_refl. simpl. rewrite !app_nil_r. eexists. reflexivity.
Qed.

(** X8. [delete_association] with the triple of an association that
    [create_association] has just created removes it again: the store is
    the one before the creation, and the call returns [None]. *)
Theorem create_then_delete_association (db : Store) (sref : Ref) (pred : string)
    (oref : Ref) (new_id ts sid st oid ot : string) :
  validated db sref pred oref sid st oid ot ->
  triple_count sid pred oid db = 0 ->
  (forall x, In x db -> Doc._id x <> new_id) ->
  new_id <> "" ->
  let created :=
    store_after (create_association (Some sref) (Some pred) (Some oref) new_id ts) db in
  store_after (delete_association (Triple (Some sref) (Some pred) (Some oref))) created
  = db
  /\ snd (delete_association (Triple (Some sref) (Some pred) (Some oref)) created)
     = ok None.
Proof.
  intros Hv Hc Hf Hn created. unfold created, store_after.
  rewrite (create_association_appends _ _ _ _ _ ts _ _ _ _ Hv Hc Hf).
  cbn [fst snd].
  destruct (delete_created_association _ _ _ _ _ ts _ _ _ _ Hv Hc Hf Hn) as [w ->].
  split; reflexivity.
Qed.

(** ** [delete_association] by triple *)

Lemma remove_by_id (f : Doc.t -> bool) (db : Store) a :
  NoDup (ids_of db) -> In a db ->
  List.length (filter f (filter (fun x => negb (Doc._id x =? Doc._id a)) db))
  + (if f a then 1 else 0)
  = List.length (filter f db).
Proof.
  unfold ids_of. induction db as [|x db IH]; simpl; [contradiction|].
  intros Hnd Ha. inversion Hnd as [|? ? Hx Hnd']; subst.
  destruct Ha as [->|Ha].
  - rewrite String.eqb_refl. simpl.
    rewrite filter_fresh.
    + destruct (f a); simpl; lia.
    + intros y Hy E. apply Hx. rewrite <- E. now apply in_map.
  - assert ((Doc._id x =? Doc._id a) = false) as ->.
    { apply String.eqb_neq. intros E. apply Hx. rewrite E. now apply in_map. }
    simpl. specialize (IH Hnd' Ha).
    destruct (f x); simpl; lia.
Qed.

Lemma filter_all {A} (l : list A) : filter (fun _ => true) l = l.
Proof. induction l; simpl; congruence. Qed.

(** What [delete_association] does with the ids that the lookup returns. *)
Lemma delete_association_found db subject predicate obj ids :
  find_associations db subject predicate obj true None no_filter = ok (Ids ids) ->
  (forall i, In i ids -> i <> "") ->
  delete_association (Triple subject predicate obj) db
  = match ids with
    | [] => ([], db, ok (Some true))
    | aid :: _ =>
        (if referenced db aid
         then ["Deleting object %s that still has associations"] else [],
         snd (fst (base_delete_doc (DocId aid) db)),
         match snd (base_delete_doc (DocId aid) db) with
         | inl e => inl e
         | inr _ => ok None
         end)
    end.
Proof.
  intros Hfind Hids. unfold delete_association, bindM at 1, lift.
  rewrite Hfind. cbn [ok found_ids]. destruct ids as [|aid rest]; [reflexivity|].
  unfold bindM, delete, retM.
  rewrite (delete_doc_without_cascade (DocId aid) db) by (apply Hids; now left).
  cbn [doc_id_of].
  destruct (snd (base_delete_doc (DocId aid) db)); [reflexivity|].
  now rewrite app_nil_r.
Qed.

(** X9. In a store of documents with distinct ids that are not empty,
    [delete_association] with a triple (or a part of it) that no
    association carries changes nothing and returns [True]; when
    associations carry it, the call deletes exactly one of them, whatever
    their number, and returns [None]. *)
Theorem delete_association_deletes_one (db : Store) (subject : option Ref)
    (predicate : option string) (obj : option Ref) :
  NoDup (ids_of db) ->
  (forall x, In x db -> Doc._id x <> "") ->
  accepted_arguments subject predicate obj None = true ->
  let carries := pattern (id_of subject) (asked predicate) (id_of obj) in
  let call := delete_association (Triple subject predicate obj) db in
  (filter carries db = [] -> call = ([], db, ok (Some true)))
  /\ (filter carries db <> [] ->
      snd call = ok None
      /\ List.length (snd (fst call)) + 1 = List.length db
      /\ List.length (filter carries (snd (fst call))) + 1
         = List.length (filter carries db)).
Proof.
  intros Hnd Hne Ha carries call.
  destruct (find_associations_scan_ids db _ _ _ Ha) as (ids & Hfind & Hperm).
  fold carries in Hperm.
  assert (forall i, In i ids -> exists a, In a db /\ carries a = true /\ Doc._id a = i)
    as Hin.
  { intros i Hi. apply (Permutation_in _ Hperm) in Hi.
    unfold ids_of in Hi. apply in_map_iff in Hi as (a & E & Hi).
    apply filter_In in Hi as [Hi Hc]. eauto. }
  assert (forall i, In i ids -> i <> "") as Hids.
  { intros i Hi. destruct (Hin i Hi) as (a & Ha' & _ & <-). now apply Hne. }
  unfold call. rewrite (delete_association_found _ _ _ _ _ Hfind Hids).
  split.
  - intros Hnone. rewrite Hnone in Hperm.
    apply Permutation_sym, Permutation_nil in Hperm. now subst.
  - intros Hsome. destruct ids as [|aid rest].
    { apply Permutation_nil in Hperm.
      unfold ids_of in Hperm. apply map_eq_nil in Hperm. contradiction. }
    destruct (Hin aid (or_introl eq_refl)) as (a & Ha' & Hc & <-).
    rewrite base_delete_doc_id by eauto. cbn [fst snd].
    repeat split.
    + pose proof (remove_by_id (fun _ => true) db a Hnd Ha') as H.
      rewrite !filter_all in H. exact H.
    + pose proof (remove_by_id carries db a Hnd Ha') as H.
      rewrite Hc in H. exact H.
Qed.

(** ** An id or the object read under it *)

Lemma read_doc_id db i d : read_doc db i = ok d -> Doc._id d = i.
Proof.
  unfold read_doc. destruct (find _ db) as [d'|] eqn:E; [|discriminate].
  intros H. inversion H. subst. apply find_some in E as [_ E].
  now apply String.eqb_eq.
Qed.

Lemma resolve_read db msg i x :
  read db i = ok x -> resolve db msg (ById i) = resolve db msg (Loaded x).
Proof.
  unfold resolve, read. destruct (read_doc db i) as [e|d] eqn:E; [discriminate|].
  cbn [bind ok]. intros H. inversion H. subst x. simpl.
  now rewrite (read_doc_id _ _ _ E).
Qed.

Lemma ref_id_read db msg i x :
  read db i = ok x -> ref_id msg (Some (ById i)) = ref_id msg (Some (Loaded x)).
Proof.
  unfold read. destruct (read_doc db i) as [e|d] eqn:E; [discriminate|].
  cbn [bind ok]. intros H. inversion H. subst x. simpl.
  now rewrite (read_doc_id _ _ _ E).
Qed.

(** X10. [create_association] does not distinguish an id that is not
    empty from the object that [read] returns for it, on the subject side
    and on the object side: the warnings, the store and the outcome are
    the same. *)
Theorem create_association_id_or_object (db : Store) (i : string) (x : IonObject)
    (predicate : option string) (other : option Ref) (new_id ts : string) :
  i <> "" -> read db i = ok x ->
  create_association (Some (ById i)) predicate other new_id ts db
  = create_association (Some (Loaded x)) predicate other new_id ts db
  /\ create_association other predicate (Some (ById i)) new_id ts db
     = create_association other predicate (Some (Loaded x)) new_id ts db.
Proof.
  intros Hi Hx. apply String.eqb_neq in Hi.
  destruct predicate as [pred|], other as [r|]; try (split; reflexivity).
  unfold create_association.
  change (given (Some (ById i))) with (negb (i =? "")).
  change (given (Some (Loaded x))) with true.
  rewrite Hi. cbn [negb andb]. rewrite !andb_true_r.
  split.
  - destruct (negb (truthy (Some pred) && given (Some r))); [reflexivity|].
    unfold bindM, lift.
    now rewrite (resolve_read db "Subject id or rev not available" i x Hx).
  - destruct (negb (given (Some r) && truthy (Some pred))); [reflexivity|].
    unfold bindM, lift.
    now rewrite (resolve_read db "Object id or rev not available" i x Hx).
Qed.

(** X11. [find_associations] does not distinguish an id that is not empty
    from the object that [read] returns for it, as subject and as object,
    whatever the other arguments and the pagination. *)
Theorem find_associations_id_or_object (db : Store) (i : string) (x : IonObject)
    (predicate : option string) (other : option Ref) (id_only : bool)
    (kwargs : ViewArgs) :
  i <> "" -> read db i = ok x ->
  find_associations db (Some (ById i)) predicate other id_only None kwargs
  = find_associations db (Some (Loaded x)) predicate other id_only None kwargs
  /\ find_associations db other predicate (Some (ById i)) id_only None kwargs
     = find_associations db other predicate (Some (Loaded x)) id_only None kwargs.
Proof.
  intros Hi Hx. apply String.eqb_neq in Hi.
  unfold find_associations, find_associations_rows.
  cbn [given]. rewrite Hi. cbn [negb].
  rewrite (ref_id_read db "Object id not available in subject" i x Hx).
  rewrite (ref_id_read db "Object id not available in object" i x Hx).
  split; reflexivity.
Qed.

(** ** Resource queries by name, keyword and nested type *)

Lemma extends_optional restype d rest :
  extends (optional restype) (KStr (Doc.type_ d) :: rest) = of_type restype d.
Proof.
  unfold optional, of_type. destruct restype as [t|]; simpl; [|reflexivity].
  destruct (t =? ""); simpl; [reflexivity|].
  change (KStr (Doc.type_ d)) with (part (Some (Doc.type_ d))).
  rewrite same_part_KStr. simpl. now rewrite andb_true_r.
Qed.

Lemma by_name_live d :
  resource.by_name d
  = if live_resource d
    then [(KArray [KStr (name_of d); KStr (Doc.type_ d)], None)] else [].
Proof.
  unfold resource.by_name, live_resource, name_of.
  destruct (Doc.lcstate d), (Doc.name d); simpl;
    rewrite ?andb_true_r, ?andb_false_r; auto.
Qed.

(** A scan of the by-name index for a name and, optionally, a type. *)
Lemma by_name_scan db name restype :
  Permutation
    (map Row.id (view db resource.by_name false no_filter
                   (prefix_scan ([KStr name] ++ optional restype))))
    (ids_of (filter (fun d => live_resource d && opt_eqb (Doc.name d) name
                              && of_type restype d) db)).
Proof.
  rewrite (prefix_scan_single db resource.by_name false _ live_resource
             (fun d => [KStr (name_of d); KStr (Doc.type_ d)]) (fun _ => None))
    by (intros; apply by_name_live || (repeat constructor; discriminate)).
  rewrite map_map. cbn [Row.id]. unfold ids_of.
  erewrite filter_ext; [reflexivity|]. intros d. cbv beta.
  destruct (live_resource d) eqn:Hl; [|reflexivity]. cbn [andb app extends].
  rewrite extends_optional. f_equal.
  unfold live_resource in Hl. unfold name_of.
  destruct (Doc.name d) as [n|]; [|now rewrite !andb_false_r in Hl].
  change (KStr n) with (part (Some n)). now rewrite same_part_KStr.
Qed.

(** X12. [find_res_by_name] returns, without pagination, the ids of
    exactly the documents that have a type, a lifecycle state other than
    RETIRED and the name asked for, the whole name being compared, and,
    when a resource type is supplied, that type. *)
Theorem find_res_by_name_exact (db : Store) (name : string)
    (restype : option string) :
  exists ids assocs,
    find_res_by_name db name restype true None = ok (Ids ids, assocs)
    /\ Permutation ids
         (ids_of (filter (fun d => live_resource d && opt_eqb (Doc.name d) name
                                   && of_type restype d) db)).
Proof.
  unfold find_res_by_name, _prepare_find_return. cbn [negb filter_args].
  do 2 eexists. split; [reflexivity|]. apply by_name_scan.
Qed.

Lemma map_flat_map {A B C} (g : B -> C) (f : A -> list B) l :
  map g (flat_map f l) = flat_map (fun x => map g (f x)) l.
Proof.
  induction l as [|x l IH]; simpl; auto. now rewrite map_app, IH.
Qed.

Lemma flat_map_filter {A B} (c : A -> bool) (f g : A -> list B) l :
  (forall x, f x = if c x then g x else []) ->
  flat_map f l = flat_map g (filter c l).
Proof.
  intros H. induction l as [|x l IH]; simpl; auto.
  rewrite H, IH. destruct (c x); reflexivity.
Qed.

(** A prefix scan of an index that holds, for every current document, one
    key [[value, type]] per value. *)
Lemma entries_scan db map_fun (vals : Doc.t -> list string) v restype :
  (forall d, map_fun d
             = if current d
               then map (fun x => (KArray [KStr x; KStr (Doc.type_ d)], None)) (vals d)
               else []) ->
  Permutation
    (map Row.id (view db map_fun false no_filter
                   (prefix_scan ([KStr v] ++ optional restype))))
    (entries vals v restype db).
Proof.
  intros Hm. rewrite prefix_scan_perm.
  - rewrite map_flat_map. unfold entries.
    erewrite flat_map_filter; [reflexivity|].
    intros d. cbv beta. rewrite Hm. destruct (current d); [|reflexivity].
    cbn [andb]. rewrite filter_map_swap, !map_map. cbn [fst Row.id row_of].
    assert (filter (fun x => key_extends ([KStr v] ++ optional restype)
                               (KArray [KStr x; KStr (Doc.type_ d)])) (vals d)
            = if of_type restype d then filter (String.eqb v) (vals d) else [])
      as ->.
    { rewrite (filter_ext _ (fun x => (v =? x) && of_type restype d)).
      - destruct (of_type restype d).
        + apply filter_ext. intros x. apply andb_true_r.
        + induction (vals d) as [|x l IH]; simpl; [reflexivity|].
          now rewrite andb_false_r.
      - intros x. unfold key_extends. cbn [app extends].
        rewrite extends_optional.
        change (KStr x) with (part (Some x)). rewrite same_part_KStr. simpl.
        now rewrite (String.eqb_sym v x). }
    now destruct (of_type restype d).
  - intros d e _. rewrite Hm. destruct (current d); [|contradiction].
    intros He. apply in_map_iff in He as (x & <- & _). simpl.
    eexists. split; [reflexivity|]. repeat constructor; discriminate.
Qed.

Lemma by_keyword_current d :
  resource.by_keyword d
  = if current d
    then map (fun x => (KArray [KStr x; KStr (Doc.type_ d)], None)) (keywords_of d)
    else [].
Proof.
  unfold resource.by_keyword, keywords_of, current.
  destruct (Doc.keywords d); [reflexivity|].
  now destruct (has_type d && not_retired (Doc.lcstate d)).
Qed.

(** X13. [find_res_by_keyword] refuses an empty keyword with BadRequest;
    otherwise it returns, without pagination, the id of every typed
    document that is not RETIRED (and of the type supplied) once per
    occurrence of the keyword in its keyword list: a document that lists
    the keyword twice is returned twice, and the lifecycle state and the
    name need not be defined. *)
Theorem find_res_by_keyword_entries (db : Store) (keyword restype : option string) :
  match keyword with
  | Some kw =>
      if kw =? ""
      then find_res_by_keyword db keyword restype true None
           = raise (BadRequest "Argument keyword illegal")
      else exists ids assocs,
             find_res_by_keyword db keyword restype true None = ok (Ids ids, assocs)
             /\ Permutation ids (entries keywords_of kw restype db)
  | None =>
      find_res_by_keyword db keyword restype true None
      = raise (BadRequest "Argument keyword illegal")
  end.
Proof.
  unfold find_res_by_keyword. destruct keyword as [kw|]; [|reflexivity].
  cbn [truthy]. destruct (kw =? ""); [reflexivity|].
  cbn [negb filter_args _prepare_find_return part].
  do 2 eexists. split; [reflexivity|].
  apply entries_scan, by_keyword_current.
Qed.

Lemma filter_eqb_nonempty v l :
  v <> "" ->
  filter (String.eqb v) (filter (fun nt => negb (nt =? "")) l)
  = filter (String.eqb v) l.
Proof.
  intros Hv. rewrite filter_filter. apply filter_ext. intros x.
  destruct (v =? x) eqn:E; [|now rewrite andb_false_r].
  apply String.eqb_eq in E. subst x. apply String.eqb_neq in Hv. now rewrite Hv.
Qed.

(** X14. [find_res_by_nested_type] refuses an empty type with BadRequest;
    otherwise it returns the id of every typed document that is not
    RETIRED (and of the type supplied) once per attribute that holds an
    object of the nested type. *)
Theorem find_res_by_nested_type_entries (db : Store)
    (nested_type restype : option string) :
  match nested_type with
  | Some nt =>
      if nt =? ""
      then find_res_by_nested_type db nested_type restype true None
           = raise (BadRequest "Argument nested_type illegal")
      else exists ids assocs,
             find_res_by_nested_type db nested_type restype true None
             = ok (Ids ids, assocs)
             /\ Permutation ids (entries Doc.nested nt restype db)
  | None =>
      find_res_by_nested_type db nested_type restype true None
      = raise (BadRequest "Argument nested_type illegal")
  end.
Proof.
  unfold find_res_by_nested_type. destruct nested_type as [nt|]; [|reflexivity].
  cbn [truthy]. destruct (nt =? "") eqn:E; [reflexivity|].
  apply String.eqb_neq in E.
  cbn [negb filter_args _prepare_find_return part].
  do 2 eexists. split; [reflexivity|].
  rewrite (entries_scan db resource.by_nestedtype
             (fun d => filter (fun x => negb (x =? "")) (Doc.nested d)) nt restype)
    by reflexivity.
  unfold entries. erewrite flat_map_ext_in; [reflexivity|].
  intros d _. cbv beta. now rewrite filter_eqb_nonempty.
Qed.

(** ** Resource queries by attribute and by lifecycle state *)

Lemma same_part_sym a b : same_part a b = same_part b a.
Proof.
  apply bool_ext. rewrite !same_part_eq. split; congruence.
Qed.

Lemma same_part_part x v : same_part (part x) (KStr v) = opt_eqb x v.
Proof. rewrite same_part_sym. apply same_part_KStr. Qed.

Lemma same_part_strings a b : same_part (KStr a) (KStr b) = (b =? a).
Proof.
  change (KStr b) with (part (Some b)). now rewrite same_part_KStr.
Qed.

Lemma by_attribute_single d :
  resource.by_attribute d
  = if current d && (Doc.type_ d =? "UserInfo") && defined (Doc.contact_email d)
    then [(KArray [KStr (Doc.type_ d); KStr "contact.email";
                   KStr (match Doc.contact_email d with Some e => e | None => "" end)],
           None)]
    else [].
Proof.
  unfold resource.by_attribute, current.
  destruct (has_type d && not_retired (Doc.lcstate d)); simpl.
  - destruct (Doc.contact_email d); simpl.
    + now destruct (Doc.type_ d =? "UserInfo").
    + now rewrite andb_false_r.
  - reflexivity.
Qed.

(** X15. [find_res_by_attribute] refuses an empty attribute name with
    BadRequest; otherwise it finds only e-mail addresses of UserInfo
    documents that are not RETIRED: the result is empty unless the type
    asked for is UserInfo and the attribute [contact.email], and then
    holds the documents with a contact e-mail, with the value supplied
    when one is supplied. *)
Theorem find_res_by_attribute_user_email (db : Store)
    (restype attr_name attr_value : option string) :
  if truthy attr_name
  then exists ids assocs,
         find_res_by_attribute db restype attr_name attr_value true None
         = ok (Ids ids, assocs)
         /\ Permutation ids
              (ids_of (filter (user_email restype attr_name attr_value) db))
  else find_res_by_attribute db restype attr_name attr_value true None
       = raise (BadRequest "Argument attr_name illegal").
Proof.
  unfold find_res_by_attribute. destruct (truthy attr_name); [|reflexivity].
  cbn [negb filter_args _prepare_find_return].
  do 2 eexists. split; [reflexivity|].
  rewrite (prefix_scan_single db resource.by_attribute false _
             (fun d => current d && (Doc.type_ d =? "UserInfo")
                       && defined (Doc.contact_email d))
             (fun d => [KStr (Doc.type_ d); KStr "contact.email";
                        KStr (match Doc.contact_email d with
                              | Some e => e | None => "" end)])
             (fun _ => None))
    by (intros; apply by_attribute_single || (repeat constructor; discriminate)).
  rewrite map_map. cbn [Row.id]. unfold ids_of.
  erewrite filter_ext; [reflexivity|]. intros d. cbv beta.
  unfold user_email, optional. cbn [app extends].
  rewrite !same_part_part.
  destruct (current d); [|reflexivity].
  destruct (Doc.type_ d =? "UserInfo") eqn:Et; [|reflexivity].
  apply String.eqb_eq in Et. rewrite Et.
  destruct (Doc.contact_email d) as [email|]; simpl;
    [|now rewrite !andb_false_r].
  destruct (opt_eqb restype "UserInfo"), (opt_eqb attr_name "contact.email");
    simpl; try reflexivity.
  destruct (truthy attr_value); simpl; [|reflexivity].
  rewrite same_part_part. now rewrite andb_true_r.
Qed.

Lemma by_lcstate_pair d :
  resource.by_lcstate d
  = if has_type d && defined (Doc.lcstate d) && defined (Doc.availability d)
       && defined (Doc.name d)
    then [(KArray [KNum 0; part (Doc.lcstate d); KStr (Doc.type_ d);
                   KStr (substring200 (name_of d))], None);
          (KArray [KNum 1; part (Doc.availability d); KStr (Doc.type_ d);
                   KStr (substring200 (name_of d))], None)]
    else [].
Proof.
  unfold resource.by_lcstate, name_of.
  destruct (Doc.lcstate d), (Doc.availability d), (Doc.name d); simpl;
    rewrite ?andb_true_r, ?andb_false_r; try reflexivity;
    now destruct (has_type d).
Qed.

(** A scan of the by-lcstate index for a state on its axis and,
    optionally, a type. *)
Lemma by_lcstate_scan db state restype :
  Permutation
    (map Row.id
       (view db resource.by_lcstate false no_filter
          (prefix_scan ((if mem state AVAILABILITY
                         then [KNum 1; KStr state]
                         else [KNum 0; KStr state]) ++ optional restype))))
    (ids_of (filter (in_state state restype) db)).
Proof.
  rewrite prefix_scan_perm.
  2:{ intros d e _. rewrite by_lcstate_pair.
      destruct (has_type d && _ && _ && _); [|contradiction].
      intros [<-|[<-|[]]]; simpl; eexists; (split; [reflexivity|]);
        repeat constructor; try discriminate; apply real_part. }
  set (c := fun d => has_type d && defined (Doc.lcstate d)
                     && defined (Doc.availability d) && defined (Doc.name d)).
  rewrite (pair_emissions_perm c
             (fun d => negb (mem state AVAILABILITY)
                       && opt_eqb (Doc.lcstate d) state && of_type restype d)
             (fun d => mem state AVAILABILITY
                       && opt_eqb (Doc.availability d) state && of_type restype d)
             (fun d => Row.mk (Doc._id d)
                         (KArray [KNum 0; part (Doc.lcstate d); KStr (Doc.type_ d);
                                  KStr (substring200 (name_of d))]) None None)
             (fun d => Row.mk (Doc._id d)
                         (KArray [KNum 1; part (Doc.availability d);
                                  KStr (Doc.type_ d);
                                  KStr (substring200 (name_of d))]) None None)).
  - rewrite map_app, !map_map. cbn [Row.id]. unfold ids_of, in_state. fold c.
    destruct (mem state AVAILABILITY); cbn [negb andb].
    + rewrite (filter_ext _ (fun _ => false)) by (intros; apply andb_false_r).
      assert (forall l : list Doc.t, filter (fun _ => false) l = []) as ->
        by (induction l; auto).
      simpl. erewrite filter_ext; [reflexivity|].
      intros d. cbv beta. now rewrite andb_assoc.
    + rewrite (filter_ext (fun d => c d && false) (fun _ => false))
        by (intros; apply andb_false_r).
      assert (forall l : list Doc.t, filter (fun _ => false) l = []) as ->
        by (induction l; auto).
      rewrite app_nil_r. erewrite filter_ext; [reflexivity|].
      intros d. cbv beta. now rewrite andb_assoc.
  - intros d. rewrite by_lcstate_pair. fold (c d).
    destruct (c d); [|reflexivity].
    unfold row_of. cbn [filter map fst snd key_extends].
    destruct (mem state AVAILABILITY); cbn [app extends negb andb];
      rewrite ?extends_optional, ?same_part_KStr;
      change (same_part (KNum 1) (KNum 0)) with false;
      change (same_part (KNum 0) (KNum 1)) with false;
      change (same_part (KNum 1) (KNum 1)) with true;
      change (same_part (KNum 0) (KNum 0)) with true;
      cbn [andb];
      [destruct (opt_eqb (Doc.availability d) state)
      |destruct (opt_eqb (Doc.lcstate d) state)];
      cbn [andb]; destruct (of_type restype d); reflexivity.
Qed.

(** X16. [find_res_by_lcstate] returns, without pagination, the ids of
    the typed documents with lifecycle state, availability and name whose
    availability is the state searched for when that state is an
    availability state, and whose lifecycle state is the state searched
    for otherwise; the state searched for is the text before the first
    underscore.  Documents in state RETIRED are not left out. *)
Theorem find_res_by_lcstate_axis (db : Store) (lcstate : string)
    (restype : option string) :
  let state := if contains "_" lcstate then fst (split_first "_" lcstate)
               else lcstate in
  exists ids assocs,
    snd (find_res_by_lcstate db lcstate restype true None) = ok (Ids ids, assocs)
    /\ Permutation ids (ids_of (filter (in_state state restype) db)).
Proof.
  intros state. unfold find_res_by_lcstate. fold state.
  cbn [snd negb filter_args _prepare_find_return].
  do 2 eexists. split; [reflexivity|]. apply by_lcstate_scan.
Qed.

(** ** Resource queries by alternate id *)

Lemma altid_key_shape altid :
  exists v ns, resource.altid_key altid = KArray [KStr v; KStr ns].
Proof.
  unfold resource.altid_key.
  destruct (split ":" altid) as [|a [|b [|c l]]]; eauto.
Qed.

Lemma by_altid_shape d e :
  In e (resource.by_altid d) -> exists v ns, fst e = KArray [KStr v; KStr ns].
Proof.
  assert (In e (if has_type d && truthy (Doc.uirefid d) && not_retired (Doc.lcstate d)
                then [(KArray [part (Doc.uirefid d); KStr "UIREFID"], None)]
                else []) ->
          exists v ns, fst e = KArray [KStr v; KStr ns]) as Hfallback.
  { destruct (Doc.uirefid d) as [u|]; simpl; rewrite ?andb_false_r;
      [|contradiction].
    destruct (has_type d && negb (u =? "") && not_retired (Doc.lcstate d));
      [|contradiction].
    intros [<-|[]]. simpl. eauto. }
  unfold resource.by_altid. destruct (Doc.alt_ids d) as [ids|]; [|exact Hfallback].
  destruct (has_type d && not_retired (Doc.lcstate d)); [|exact Hfallback].
  intros He. apply in_map_iff in He as (altid & <- & _). apply altid_key_shape.
Qed.

Lemma altid_wanted_row alt_id alt_id_ns v ns i dd :
  let key := if truthy alt_id
             then [part alt_id]
                  ++ (match alt_id_ns with Some x => [KStr x] | None => [] end)
             else [] in
  let r := Row.mk i (KArray [KStr v; KStr ns]) None dd in
  key_extends key (Row.key r)
  && (if truthy alt_id_ns && negb (truthy alt_id)
      then in_namespace alt_id_ns r else true)
  = altid_wanted alt_id alt_id_ns (KArray [KStr v; KStr ns]).
Proof.
  unfold altid_wanted, in_namespace, key_at. cbn [Row.key nth key_extends].
  destruct (truthy alt_id) eqn:Ha.
  - rewrite andb_false_r, andb_true_r. cbn [app extends].
    rewrite same_part_part.
    destruct alt_id_ns as [x|]; cbn [extends]; [|now rewrite andb_true_r].
    rewrite same_part_strings. now rewrite andb_true_r.
  - cbn [extends negb andb]. rewrite andb_true_r.
    destruct (truthy alt_id_ns) eqn:Hn; [|reflexivity].
    destruct alt_id_ns as [x|]; [|discriminate]. simpl.
    apply String.eqb_sym.
Qed.

(** X17. [find_res_by_alternative_id] returns, without pagination, the id
    of a document once per entry of the by-altid index that is asked for:
    with an alternate id, the entries with that value, in the namespace
    when a namespace is passed; with a namespace alone, every entry of the
    namespace; with neither, every entry of the index. *)
Theorem find_res_by_alternative_id_entries (db : Store)
    (alt_id alt_id_ns : option string) :
  exists ids assocs,
    find_res_by_alternative_id db alt_id alt_id_ns true None = ok (Ids ids, assocs)
    /\ Permutation ids
         (flat_map (fun d => map (fun _ => Doc._id d)
                               (filter (altid_wanted alt_id alt_id_ns)
                                       (map fst (resource.by_altid d)))) db).
Proof.
  unfold find_res_by_alternative_id. cbn [negb filter_args].
  do 2 eexists. split; [reflexivity|].
  set (key := if truthy alt_id then _ else _).
  set (rows := view db resource.by_altid false no_filter (prefix_scan key)).
  set (post := fun r : Row.t =>
                 if truthy alt_id_ns && negb (truthy alt_id)
                 then in_namespace alt_id_ns r else true).
  assert ((if truthy alt_id_ns && negb (truthy alt_id)
           then filter (in_namespace alt_id_ns) rows else rows)
          = filter post rows) as ->.
  { unfold post. destruct (truthy alt_id_ns && negb (truthy alt_id)); auto.
    clear. induction rows; simpl; congruence. }
  assert (forall d e, In d db -> In e (resource.by_altid d) ->
            exists l, fst e = KArray l /\ Forall real l) as Hreal.
  { intros d e _ He. destruct (by_altid_shape d e He) as (v & ns & ->).
    eexists. split; [reflexivity|]. repeat constructor; discriminate. }
  unfold rows.
  rewrite (Permutation_filter _ _ _
             (prefix_scan_perm db resource.by_altid false key Hreal)).
  rewrite filter_flat_map, map_flat_map.
  erewrite flat_map_ext_in; [reflexivity|].
  intros d _. cbv beta.
  rewrite !filter_map_swap, filter_filter, !map_map. cbn [Row.id].
  f_equal. apply filter_ext_in. intros e He.
  destruct (by_altid_shape d e He) as (v & ns & Hk).
  unfold row_of, post. rewrite Hk.
  apply (altid_wanted_row alt_id alt_id_ns v ns (Doc._id d) None).
Qed.

(** ** When row projection succeeds *)

Lemma is_ok_bind {A B} (c : result A) (k : A -> result B) :
  (forall a, is_ok (k a) = true) -> is_ok (bind c k) = is_ok c.
Proof. intros H. destruct c; simpl; auto. Qed.

Lemma is_ok_traverse {A B} (f : A -> result B) l :
  is_ok (traverse f l) = forallb (fun x => is_ok (f x)) l.
Proof.
  induction l as [|x l IH]; simpl; [reflexivity|].
  unfold bind. destruct (f x); simpl; [reflexivity|].
  rewrite <- IH. now destruct (traverse f l).
Qed.

Lemma is_ok_except {A} (r : result A) :
  is_ok (except_ResourceNotFound r) = is_ok r.
Proof. destruct r as [[| | | |[|]|]|]; reflexivity. Qed.

Lemma forallb_negb_existsb {A} (f g : A -> bool) l :
  Forall (fun x => f x = negb (g x)) l -> forallb f l = negb (existsb g l).
Proof.
  induction 1 as [|x l H _ IH]; simpl; [reflexivity|].
  rewrite H, IH. now destruct (g x), (existsb g l).
Qed.

Lemma parse_results_is_ok doc : is_ok (_parse_results doc) = negb (fetch_fails doc).
Proof.
  induction doc as [err|rows IH|id key value doc IHk IHv IHd|l IH|items IH|x]
    using Raw_nested_ind.
  - cbn [_parse_results]. now rewrite is_ok_except.
  - rewrite parse_ViewResults, is_ok_except, parse_RawList.
    rewrite is_ok_bind by reflexivity. rewrite is_ok_traverse.
    now apply forallb_negb_existsb.
  - cbn [_parse_results fetch_fails]. rewrite !negb_orb, <- IHk, <- IHv.
    unfold bind at 1. destruct (_parse_results key); [reflexivity|].
    unfold bind at 1. destruct (_parse_results value); [reflexivity|].
    destruct doc as [y|]; [|reflexivity].
    rewrite <- (IHd y eq_refl). simpl.
    unfold bind. now destruct (_parse_results y).
  - rewrite parse_RawList. rewrite is_ok_bind by reflexivity.
    rewrite is_ok_traverse. now apply forallb_negb_existsb.
  - cbn [fetch_fails].
    destruct (existsb (fun kv => fst kv =? "_id") items) eqn:Hid.
    { cbn [_parse_results]. now rewrite Hid. }
    rewrite (parse_RawDict items Hid). rewrite is_ok_bind by reflexivity.
    rewrite is_ok_traverse.
    apply (forallb_negb_existsb _ (fun kv => fetch_fails (snd kv))).
    eapply Forall_impl; [|exact IH].
    intros kv H. cbv beta in *. rewrite <- H. unfold bind.
    now destruct (_parse_results (snd kv)).
  - reflexivity.
Qed.

(** X18. [_parse_results] returns a result exactly for the responses in
    which no fetch of rows fails where it reads them, that is anywhere but
    inside a dict that carries ["_id"] (such a dict is handed to the
    deserializer as it is). *)
Theorem parse_results_succeeds (doc : Raw) :
  (exists parsed, _parse_results doc = ok parsed) <-> fetch_fails doc = false.
Proof.
  pose proof (parse_results_is_ok doc) as H. split.
  - intros [parsed E]. rewrite E in H. simpl in H.
    now destruct (fetch_fails doc).
  - intros E. rewrite E in H. destruct (_parse_results doc) as [e|p]; [discriminate|].
    now exists p.
Qed.

(** ** The neighbours and the edges of a traversal *)

Lemma attr_of_ok f l ids : attr_of f l = ok ids -> ids = map (endpoint f) l.
Proof.
  revert ids. induction l as [|[x|] l IH]; simpl; intros ids H.
  - now inversion H.
  - unfold bind in H. destruct (attr_of f l) as [e|ids']; [discriminate|].
    inversion H. f_equal. now apply IH.
  - discriminate.
Qed.

Lemma read_doc_mult_ids db l docs :
  read_doc_mult db l = ok docs -> map Doc._id docs = l.
Proof.
  revert docs. induction l as [|i l IH]; simpl; intros docs H.
  - now inversion H.
  - unfold bind in H. destruct (read_doc db i) as [e|d] eqn:E; [discriminate|].
    destruct (read_doc_mult db l) as [e|ds]; [discriminate|].
    inversion H. simpl. f_equal; [now apply read_doc_id in E|now apply IH].
Qed.

Lemma read_mult_ids db ids objs :
  read_mult db ids = ok objs -> neighbour_ids (NeighbourObjects objs) = ids.
Proof.
  unfold read_mult. destruct (existsb _ ids) eqn:Hd; [discriminate|].
  unfold bind. destruct (read_doc_mult db _) as [e|docs] eqn:E; [discriminate|].
  intros H. inversion H. apply read_doc_mult_ids in E.
  simpl. rewrite map_map. simpl.
  change (fun x : Doc.t => Some (Doc._id x)) with (fun x => Some (Doc._id x)).
  rewrite <- (map_map Doc._id Some), E. clear -Hd.
  induction ids as [|[i|] ids IH]; simpl in *; [reflexivity| |discriminate].
  f_equal. now apply IH.
Qed.

Lemma neighbours_of_edges db f l id_only (r : Neighbours * list (option IonObject)) :
  (obj_ids <- attr_of f l ;;
   if id_only : bool
   then ok (NeighbourIds obj_ids, l)
   else obj_list <- read_mult db obj_ids ;; ok (NeighbourObjects obj_list, l))
  = ok r ->
  snd r = l /\ neighbour_ids (fst r) = map (endpoint f) l.
Proof.
  unfold bind. destruct (attr_of f l) as [e|ids] eqn:E; [discriminate|].
  apply attr_of_ok in E. destruct id_only.
  - intros H. inversion H. simpl. auto.
  - destruct (read_mult db ids) as [e|objs] eqn:Er; [discriminate|].
    intros H. inversion H. split; [reflexivity|].
    cbn [fst]. rewrite (read_mult_ids _ _ _ Er). exact E.
Qed.

(** X19. Whatever [id_only], the neighbours that [find_objects] returns
    pair with the edges it returns: as many, in the same order, the k-th
    neighbour being (the document stored under) the object id of the k-th
    association; for [find_subjects] it is the subject id. *)
Theorem traversal_pairs (db : Store) (seed : option Ref)
    (predicate endpoint_type : option string) (id_only : bool) (kwargs : ViewArgs)
    (neighbours : Neighbours) (assocs : list (option IonObject)) :
  (find_objects db seed predicate endpoint_type id_only kwargs
   = ok (neighbours, assocs) ->
   neighbour_ids neighbours = map (endpoint Doc.o) assocs)
  /\ (find_subjects db endpoint_type predicate seed id_only kwargs
      = ok (neighbours, assocs) ->
      neighbour_ids neighbours = map (endpoint Doc.s) assocs).
Proof.
  split.
  - unfold find_objects. destruct (negb (given seed)); [discriminate|].
    destruct (truthy endpoint_type && negb (truthy predicate)); [discriminate|].
    unfold bind at 1. destruct (ref_id _ seed) as [e|sid]; [discriminate|].
    intros H. apply neighbours_of_edges in H as [<- H]. exact H.
  - unfold find_subjects. destruct (negb (given seed)); [discriminate|].
    destruct (truthy endpoint_type && negb (truthy predicate)); [discriminate|].
    unfold bind at 1. destruct (ref_id _ seed) as [e|oid]; [discriminate|].
    intros H. apply neighbours_of_edges in H as [<- H]. exact H.
Qed.

(** ** [find_resources] *)

Lemma by_type_scan db restype :
  exists rows,
    find_res_by_type db (Some restype) (Some "") true (Some no_filter)
    = ok (Ids (map Row.id rows), map type_name_id rows)
    /\ Permutation (map Row.id rows)
         (ids_of (filter (fun d => live_resource d && of_type (Some restype) d) db)).
Proof.
  destruct (find_res_by_type_rows db (Some restype) true (Some no_filter) eq_refl)
    as (rows & Hrows & Hperm & _).
  exists rows. split; [exact Hrows|].
  rewrite (Permutation_map Row.id Hperm), map_map. cbn [by_type_row Row.id].
  unfold ids_of, of_type.
  erewrite filter_ext; [reflexivity|]. intros d. cbv beta.
  now destruct (restype =? "").
Qed.

(** X20. [find_resources(restype, lcstate, name)] with [id_only] and the
    defaults of the other arguments: a name with a lifecycle state is
    refused with BadRequest; a name selects the documents of that name
    that are not retired; otherwise a lifecycle state selects the
    documents in that state (on the availability axis when it is an
    availability state); otherwise all resources that are not retired are
    returned; a resource type that is not empty restricts each of them. *)
Theorem find_resources_answers (db : Store) (restype lcstate name : string) :
  let call := find_resources db restype lcstate name true in
  let state := if contains "_" lcstate then fst (split_first "_" lcstate)
               else lcstate in
  if name =? ""
  then if lcstate =? ""
       then exists ids assocs,
              call = ([], ok (Ids ids, assocs))
              /\ Permutation ids
                   (ids_of (filter (fun d => live_resource d
                                             && of_type (Some restype) d) db))
       else exists ids assocs,
              snd call = ok (Ids ids, assocs)
              /\ Permutation ids
                   (ids_of (filter (in_state state (Some restype)) db))
  else if lcstate =? ""
       then exists ids assocs,
              call = ([], ok (Ids ids, assocs))
              /\ Permutation ids
                   (ids_of (filter (fun d => live_resource d
                                             && opt_eqb (Doc.name d) name
                                             && of_type (Some restype) d) db))
       else exists msg, call = ([], raise (BadRequest msg)).
Proof.
  intros call state. unfold call, find_resources, find_resources_ext.
  rewrite !truthy_Some. cbn [truthy orb andb].
  change (_get_view_args None None false) with no_filter.
  destruct (name =? "") eqn:En; cbn [negb];
    destruct (lcstate =? "") eqn:El; cbn [negb].
  - apply String.eqb_eq in El. subst lcstate.
    destruct (restype =? "") eqn:Er; cbn [negb andb].
    + apply String.eqb_eq in Er. subst restype.
      destruct (by_type_scan db "") as (rows & Hrows & Hperm).
      do 2 eexists. split; [|exact Hperm].
      f_equal. exact Hrows.
    + rewrite ?andb_false_r.
      destruct (by_type_scan db restype) as (rows & Hrows & Hperm).
      do 2 eexists. split; [|exact Hperm].
      f_equal. exact Hrows.
  - assert (snd (find_res_by_lcstate db lcstate (Some restype) true (Some no_filter))
            = ok (Ids (map Row.id
                         (view db resource.by_lcstate false no_filter
                            (prefix_scan ((if mem state AVAILABILITY
                                           then [KNum 1; KStr state]
                                           else [KNum 0; KStr state])
                                          ++ optional (Some restype))))),
                  map lcstate_type_name_id
                      (view db resource.by_lcstate false no_filter
                            (prefix_scan ((if mem state AVAILABILITY
                                           then [KNum 1; KStr state]
                                           else [KNum 0; KStr state])
                                          ++ optional (Some restype))))))
      as Hcall by reflexivity.
    destruct (restype =? ""); cbn [negb andb]; rewrite ?andb_true_r;
      do 2 eexists; (split; [exact Hcall|apply by_lcstate_scan]).
  - do 2 eexists. split; [reflexivity|]. apply by_name_scan.
  - eexists. reflexivity.
Qed.

(** ** The view designs and the directory paths *)

(** X21. [get_couch_view_designs] raises (a [KeyError]) exactly for a
    profile that [COUCHDB_CONFIGS] does not list: every category that a
    profile names is defined in [COUCHDB_VIEWS].  For a profile that is
    listed it returns the categories of the profile in their order, each
    with the views that [COUCHDB_VIEWS] defines for it. *)
Theorem get_couch_view_designs_profiles (config : string) :
  match getitem COUCHDB_CONFIGS config with
  | Some views =>
      exists designs,
        get_couch_view_designs config = Some designs
        /\ map fst designs = views
        /\ Forall (fun cv => getitem COUCHDB_VIEWS (fst cv) = Some (snd cv)) designs
  | None => get_couch_view_designs config = None
  end.
Proof.
  unfold get_couch_view_designs.
  unfold COUCHDB_CONFIGS. cbn [getitem].
  repeat match goal with
         | |- context [if ?k =? config then _ else _] => destruct (k =? config)
         end;
    try reflexivity;
    (eexists; split; [vm_compute; reflexivity|];
     split; [reflexivity|repeat constructor]).
Qed.

Lemma split_nonempty c v : split c v <> [].
Proof.
  destruct v as [|a r]; simpl; [discriminate|].
  destruct (Ascii.eqb a c); [discriminate|].
  destruct (split c r); discriminate.
Qed.

(** Joining the pieces of a split gives the string back. *)
Lemma concat_split c v : String.concat (String c "") (split c v) = v.
Proof.
  induction v as [|a r IH]; simpl; [reflexivity|].
  destruct (Ascii.eqb a c) eqn:E.
  - apply Ascii.eqb_eq in E. subst a.
    destruct (split c r) as [|h t] eqn:Es; [now apply split_nonempty in Es|].
    simpl in *. now rewrite IH.
  - destruct (split c r) as [|h t] eqn:Es; [now apply split_nonempty in Es|].
    destruct t as [|y t]; simpl in *; now rewrite <- IH.
Qed.

Lemma string_append_assoc (a b c : string) :
  ((a ++ b) ++ c = a ++ (b ++ c))%string.
Proof. induction a as [|x a IH]; simpl; [reflexivity|now rewrite IH]. Qed.

Lemma concat_snoc sep l (k : string) :
  l <> [] ->
  String.concat sep (l ++ [k]) = (String.concat sep l ++ sep ++ k)%string.
Proof.
  induction l as [|x l IH]; [congruence|]. intros _.
  destruct l as [|y l]; [reflexivity|].
  change (String.concat sep ((x :: y :: l) ++ [k]))
    with (x ++ sep ++ String.concat sep ((y :: l) ++ [k]))%string.
  rewrite IH by discriminate. simpl.
  now rewrite !string_append_assoc.
Qed.

(** X22. The by-path index of the directory holds, for an entry below an
    absolute parent path, the segments of the path of the entry: joined
    with slashes they give the key of the entry for the root parent and
    the parent path, a slash and the key otherwise (without the leading
    slash); a document that is not a DirEntry gets no key. *)
Theorem by_path_levels (doc : directory.DirEntry) (p : string) :
  directory.parent doc = String "/" p ->
  (directory.type_ doc = "DirEntry" ->
   directory.by_path doc = [((directory.org doc, directory.levels doc), doc)])
  /\ (directory.type_ doc <> "DirEntry" -> directory.by_path doc = [])
  /\ String.concat "/" (directory.levels doc)
     = (if p =? "" then directory.key doc
        else p ++ "/" ++ directory.key doc)%string.
Proof.
  intros Hp. unfold directory.by_path. split; [|split].
  - intros ->. reflexivity.
  - intros Ht. apply String.eqb_neq in Ht. now rewrite Ht.
  - unfold directory.levels. rewrite Hp. cbn [split Ascii.eqb Bool.eqb tl].
    destruct p as [|a r]; [reflexivity|].
    assert ((String "/" (String a r) =? "/") = false) as -> by reflexivity.
    cbn [String.eqb]. rewrite concat_snoc by apply split_nonempty.
    now rewrite (concat_split "/" (String a r)).
Qed.

(** ** What a cascading delete keeps *)

(** X23. Deleting the document [d] with [del_associations=True] removes
    nothing but the documents stored under [d] and under the ids of the
    associations that reference [d]: every other document of the store is
    still there after the call, whether it succeeds or raises. *)
Theorem delete_doc_cascade_keeps (db : Store) (d : string) (x : Doc.t) :
  d <> "" ->
  In x db ->
  Doc._id x <> d ->
  (forall a, In a db -> references d a = true -> Doc._id a <> Doc._id x) ->
  In x (store_after (delete_doc (DocId d) true) db).
Proof.
  intros Hd Hx Hid Hother. unfold store_after.
  rewrite (delete_doc_cascade_run db d Hd).
  set (kept := filter _ db).
  assert (In x kept) as Hkept.
  { apply filter_In. split; [exact Hx|].
    destruct (mem (Doc._id x) _) eqn:Hm; [|reflexivity].
    apply mem_In, in_map_iff in Hm as (r & Hr & Hin).
    apply anyside_row_references in Hin as (a & Ha & Href & Hra).
    elim (Hother a Ha Href). congruence. }
  unfold base_delete_doc.
  destruct (find _ kept); [|exact Hkept].
  cbn [fst snd]. apply filter_In. split; [exact Hkept|].
  apply negb_true_iff, String.eqb_neq. exact Hid.
Qed.

(** ** The name query and the type query *)

(** X24. Whatever [find_res_by_name] returns for a name and a resource
    type, [find_res_by_type] returns for that type: the two indexes admit
    the same documents. *)
Theorem find_res_by_name_within_type (db : Store) (name restype : string)
    (by_name by_type : list string) (named typed : list Dict) :
  find_res_by_name db name (Some restype) true None = ok (Ids by_name, named) ->
  find_res_by_type db (Some restype) None true None = ok (Ids by_type, typed) ->
  incl by_name by_type.
Proof.
  intros Hn Ht i Hi.
  unfold find_res_by_name, _prepare_find_return in Hn.
  cbn [negb filter_args] in Hn. unfold ok in Hn. injection Hn as Hids _.
  destruct (by_type_scan db restype) as (rows & Hrows & Hperm).
  change (find_res_by_type db (Some restype) (Some "") true (Some no_filter))
    with (find_res_by_type db (Some restype) None true None) in Hrows.
  rewrite Hrows in Ht. unfold ok in Ht. injection Ht as Hids' _.
  rewrite <- Hids'.
  apply (Permutation_in _ (Permutation_sym Hperm)).
  rewrite <- Hids in Hi. apply (Permutation_in _ (by_name_scan db name _)) in Hi.
  unfold ids_of in *. apply in_map_iff in Hi as (x & <- & Hx).
  apply in_map. apply filter_In in Hx as [Hx Hc]. apply filter_In.
  split; [exact Hx|].
  destruct (live_resource x); [|discriminate].
  now destruct (opt_eqb (Doc.name x) name); [|discriminate].
Qed.

(** ** [read_mult] *)

Lemma read_doc_mult_failure db l e :
  read_doc_mult db l = raise e -> exists msg, e = NotFound msg.
Proof.
  induction l as [|i l IH]; simpl; [discriminate|].
  unfold bind, read_doc. destruct (find _ db).
  - cbn [ok]. destruct (read_doc_mult db l) as [e'|ds]; [|discriminate].
    intros H. inversion H. subst. now apply IH.
  - intros H. inversion H. eauto.
Qed.

Lemma existsb_undefined (l : list (option string)) :
  existsb (fun i => negb (defined i)) l = true <-> In None l.
Proof.
  rewrite existsb_exists. split.
  - intros ([i|] & Hin & H); [discriminate|exact Hin].
  - intros H. exists None. auto.
Qed.

(** X25. [read_mult] raises BadRequest exactly when one of the ids is not a
    string ([None], as the object of an association without [o]); when it
    returns, it returns one object per id, in the order of the ids, each
    carrying its id. *)
Theorem read_mult_strings (db : Store) (object_ids : list (option string)) :
  ((exists msg, read_mult db object_ids = raise (BadRequest msg))
   <-> In None object_ids)
  /\ (forall objs,
        read_mult db object_ids = ok objs ->
        map (fun x => match x with Some y => obj_id y | None => None end) objs
        = object_ids).
Proof.
  split; [split|].
  - intros [msg H]. apply existsb_undefined.
    unfold read_mult in H. destruct (existsb _ object_ids); [reflexivity|].
    unfold bind in H. destruct (read_doc_mult db _) as [e|docs] eqn:E;
      [|discriminate].
    apply read_doc_mult_failure in E as [m ->]. discriminate.
  - intros H. apply existsb_undefined in H. unfold read_mult. rewrite H. eauto.
  - intros objs H. exact (read_mult_ids db object_ids objs H).
Qed.

End Datastore.

(* ===================================================================== *)
(** * The properties on the example data *)

(** The range-scan scenario: the two resources of type A, in name order. *)
Example find_by_type_A :
  find_res_by_type three_resources (Some "A") None true None
  = ok (Ids ["r2"; "r1"],
        [[("type", KStr "A"); ("name", KStr "alpha"); ("id", KStr "r2")];
         [("type", KStr "A"); ("name", KStr "beta"); ("id", KStr "r1")]]).
Proof. vm_compute. reflexivity. Qed.

Example create_hasDevice :
  create_association example_getextends example_Predicates
    (Some (ById "p1")) (Some "hasDevice") (Some (ById "d2")) "a3" "3" platform_store
  = ([], platform_store
         ++ [association_doc "a3" "p1" "PlatformDevice" "hasDevice" "d2"
               "InstrumentDevice" "3"],
     ok ("a3", "1")).
Proof. vm_compute. reflexivity. Qed.

Lemma three_resources_unique : unique_triples three_resources.
Proof. intros sid pred oid. vm_compute. repeat constructor. Qed.

(** After a successful [create_association] the same call is refused, and
    the stores reached from the three resources keep the triples unique. *)
Lemma create_association_no_duplicate_witness :
  create_association example_getextends example_Predicates
    (Some (ById "p1")) (Some "hasDevice") (Some (ById "d2")) "a4" "4"
    (platform_store
     ++ [association_doc "a3" "p1" "PlatformDevice" "hasDevice" "d2"
           "InstrumentDevice" "3"])
  = ([], platform_store
         ++ [association_doc "a3" "p1" "PlatformDevice" "hasDevice" "d2"
               "InstrumentDevice" "3"],
     raise (BadRequest
       "Association between %s and %s with predicate %s already exists"))
  /\ unique_triples
       (run example_getextends example_Predicates
          [CreateAssociation (Some (ById "r1")) (Some "hasDevice") (Some (ById "r2"))
             "a1" "1";
           Delete (ById "r1") true]
          three_resources).
Proof.
  split.
  - destruct (create_association_no_duplicate example_getextends example_Predicates
                platform_store (ById "p1") "hasDevice" (ById "d2") "a3" "3")
      as (_ & _ & _ & Htwice & _).
    apply (Htwice [] _ ("a3", "1") "a4" "4"). vm_compute. reflexivity.
  - destruct (create_association_no_duplicate example_getextends example_Predicates
                three_resources (ById "r1") "hasDevice" (ById "r2") "a1" "1")
      as (_ & _ & _ & _ & Hinv).
    apply Hinv. intros sid pred oid. vm_compute. repeat constructor.
Defined.

(** C1 as the specification words it does not hold: no association with
    the triple (d1, hasDevice, d2) exists, yet the call persists nothing,
    because the subject type is illegal; and a successful call returns the
    id and the revision of the new Association, not the Association. *)
Lemma no_duplicate_yet_not_persisted :
  triple_count "d1" "hasDevice" "d2" platform_store = 0
  /\ create_association example_getextends example_Predicates
       (Some (ById "d1")) (Some "hasDevice") (Some (ById "d2")) "a3" "3"
       platform_store
     = ([], platform_store,
        raise (BadRequest "Illegal subject type %s for predicate %s"))
  /\ snd (create_association example_getextends example_Predicates
            (Some (ById "p1")) (Some "hasDevice") (Some (ById "d2")) "a3" "3"
            platform_store)
     = ok ("a3", "1").
Proof. repeat split; vm_compute; reflexivity. Qed.

(** An instrument as subject of [hasDevice]: its type is not in the domain
    and extends no type of the domain. *)
Lemma create_association_type_check_witness :
  snd (create_association example_getextends example_Predicates
         (Some (ById "d1")) (Some "hasDevice") (Some (ById "d2")) "a3" "3"
         platform_store)
  = raise (BadRequest "Illegal subject type %s for predicate %s")
  <-> ~ permitted example_getextends "InstrumentDevice" ["PlatformDevice"].
Proof.
  refine (proj1 (proj2
            (create_association_type_check example_getextends example_Predicates
               platform_store (ById "d1") "hasDevice" (ById "d2") "a3" "3"
               _ "d1" "InstrumentDevice" _ "d2" "InstrumentDevice"
               {| domain := ["PlatformDevice"]; range := ["Device"] |}
               _ _ _ _ _ _)));
    try reflexivity.
  discriminate.
Defined.

(** The edges of the platform by [hasDevice] are among its edges. *)
Lemma traversal_narrows_witness :
  incl [Some (deserialize (association_doc "a1" "p1" "PlatformDevice" "hasDevice"
                             "d1" "InstrumentDevice" "1"))]
       [Some (deserialize (association_doc "a1" "p1" "PlatformDevice" "hasDevice"
                             "d1" "InstrumentDevice" "1"));
        Some (deserialize (association_doc "a2" "p1" "PlatformDevice" "hasModel"
                             "d2" "InstrumentDevice" "2"))].
Proof.
  apply (proj1 (traversal_narrows platform_store (Some (ById "p1"))
                  (Some "hasDevice") None true)
           (NeighbourIds [Some "d1"]) _ (NeighbourIds [Some "d1"; Some "d2"]) _);
    vm_compute; reflexivity.
Defined.

(** Deleting the device [d1] without cascade warns and leaves the
    association [a1] dangling; with cascade nothing references it after. *)
Lemma delete_doc_associations_witness :
  "d1" <> ""
  /\ delete_doc (DocId "d1") false platform_store
     = (["Deleting object %s that still has associations"],
        filter (fun x => negb (Doc._id x =? "d1")) platform_store, inr tt)
  /\ find_associations (store_after (delete_doc (DocId "d1") true) platform_store)
       None None None true (Some (AnyId "d1")) no_filter
     = ok (Ids []).
Proof.
  assert ("d1" <> "") as Hd by discriminate.
  destruct (delete_doc_associations platform_store "d1" Hd) as [Hcascade Hwarn].
  split; [exact Hd|]. split.
  - apply Hwarn.
    + exists (association_doc "a1" "p1" "PlatformDevice" "hasDevice" "d1"
                "InstrumentDevice" "1").
      split; [simpl; tauto|reflexivity].
    + exists (resource_doc "d1" "InstrumentDevice" "DEPLOYED" "AVAILABLE" "ctd").
      split; [simpl; tauto|reflexivity].
  - unfold store_after.
    destruct (delete_doc (DocId "d1") true platform_store) as [[w db'] r] eqn:E.
    destruct (Hcascade w db' r eq_refl) as (Hempty & _).
    exact (Hempty true).
Defined.



(** A compound state: the maturity prefix is searched on axis 0. *)
Lemma find_res_by_lcstate_compound_witness :
  contains "_" "DEPLOYED_AVAILABLE" = true
  /\ find_res_by_lcstate example_AVAILABILITY three_resources "DEPLOYED_AVAILABLE"
       (Some "A") true None
     = (["Search for compound lcstate restricted to maturity: %s"],
        ok (Ids ["r2"],
            [[("lcstate", KStr "DEPLOYED"); ("type", KStr "A");
              ("name", KStr "alpha"); ("id", KStr "r2")]])).
Proof.
  split; [reflexivity|].
  destruct (find_res_by_lcstate_compound example_AVAILABILITY three_resources
              "DEPLOYED_AVAILABLE" (Some "A") true None eq_refl)
    as (_ & _ & H).
  rewrite H. vm_compute. reflexivity.
Defined.

(** The alternate id without a colon is found, under the namespace "_". *)
Lemma by_altid_index_witness :
  exists rows,
    find_res_by_alternative_id [resource_with_alt_ids] (Some "legacy") None true None
    = ok (Ids (map Row.id rows),
          map (fun row => [("alt_id", key_at row 0); ("alt_id_ns", key_at row 1);
                           ("id", KStr (Row.id row))]) rows)
    /\ In (Row.mk "r7" (KArray [KStr "legacy"; KStr "_"]) None None) rows.
Proof.
  destruct by_altid_index as (_ & _ & _ & Hfind).
  apply (Hfind [resource_with_alt_ids] resource_with_alt_ids
           ["PRE:123"; "legacy"; "a:b:c"] "legacy" true);
    try reflexivity; simpl; auto; discriminate.
Defined.

Example by_altid_keys :
  resource.by_altid resource_with_alt_ids
  = [(KArray [KStr "123"; KStr "PRE"], None);
     (KArray [KStr "legacy"; KStr "_"], None);
     (KArray [KStr "a:b:c"; KStr "_"], None)].
Proof. reflexivity. Qed.

(** A missing index surfaces as BadRequest. *)
Lemma parse_results_projection_witness :
  _parse_results example_deserializer
    (ViewResults (inl (ResourceNotFound "missing_named_view")))
  = raise (BadRequest "The desired resource does not exist.")
  /\ _parse_results example_deserializer
       (RawList [RawPrim (PInt 1); RawDict [("a", RawPrim PNone)]])
     = ok (ParsedList [ParsedPrim (PInt 1); ParsedDict [("a", ParsedPrim PNone)]]).
Proof.
  destruct (parse_results_projection example_deserializer)
    as (_ & _ & Hlist & _ & _ & _ & Hmissing & _).
  split; [apply Hmissing|].
  rewrite Hlist. reflexivity.
Defined.

(** C9 as the specification words it does not hold: a resource deleted
    during the scan is reported by the store as a ResourceNotFound, which
    surfaces as BadRequest, not as NotFound. *)
Lemma deleted_resource_is_BadRequest :
  _parse_results example_deserializer (ViewResults (inl (ResourceNotFound "deleted")))
  = raise (BadRequest "The desired resource does not exist.")
  /\ ~ (exists msg,
          _parse_results example_deserializer
            (ViewResults (inl (ResourceNotFound "deleted")))
          = raise (NotFound msg)).
Proof.
  split; [reflexivity|]. intros [msg H]. discriminate.
Qed.



(* ===================================================================== *)
(** * The further properties on the example data *)


(** The associations of the platform by [hasDevice]. *)
Lemma find_associations_pattern_witness :
  exists ids,
    find_associations platform_store (Some (ById "p1")) (Some "hasDevice") None
      true None no_filter
    = ok (Ids ids)
    /\ Permutation ids ["a1"].
Proof.
  apply (find_associations_pattern platform_store (Some (ById "p1"))
           (Some "hasDevice") None).
  reflexivity.
Defined.

(** The node that is part of itself is found on both sides. *)
Lemma find_associations_anyside_both_witness :
  exists ids,
    find_associations self_reference None None None true (Some (AnyId "n1")) no_filter
    = ok (Ids ids)
    /\ Permutation ids (["l1"] ++ ["l1"]).
Proof.
  apply (find_associations_anyside_both self_reference "n1" None).
  discriminate.
Defined.

(** Deleting the platform without cascade warns and deletes it. *)
Lemma delete_doc_warns_witness :
  delete_doc (DocId "p1") false platform_store
  = (["Deleting object %s that still has associations"], tl platform_store, inr tt).
Proof.
  apply (delete_doc_warns (DocId "p1") platform_store).
  simpl. discriminate.
Defined.


Lemma platform_validated :
  validated example_getextends example_Predicates platform_store
    (ById "p1") "hasDevice" (ById "d2") "p1" "PlatformDevice" "d2" "InstrumentDevice".
Proof.
  unfold validated.
  repeat split; try reflexivity; try discriminate; eexists; try reflexivity.
  repeat split; reflexivity.
Qed.

Lemma platform_fresh : forall x, In x platform_store -> Doc._id x <> "a3".
Proof.
  intros x Hx. simpl in Hx.
  destruct Hx as [<-|[<-|[<-|[<-|[<-|[]]]]]]; discriminate.
Qed.

(** The new association between the platform and the second device is
    found, and deleting it by its triple gives the store back. *)
Lemma create_then_find_witness :
  find_associations
    (store_after (create_association example_getextends example_Predicates
                    (Some (ById "p1")) (Some "hasDevice") (Some (ById "d2")) "a3" "3")
       platform_store)
    (Some (ById "p1")) (Some "hasDevice") (Some (ById "d2")) true None no_filter
  = ok (Ids ["a3"]).
Proof.
  apply (create_then_find example_getextends example_Predicates platform_store
           (ById "p1") "hasDevice" (ById "d2") "a3" "3"
           "p1" "PlatformDevice" "d2" "InstrumentDevice").
  - exact platform_validated.
  - reflexivity.
  - exact platform_fresh.
Defined.

Lemma create_then_delete_association_witness :
  store_after
    (delete_association (Triple (Some (ById "p1")) (Some "hasDevice")
                           (Some (ById "d2"))))
    (store_after (create_association example_getextends example_Predicates
                    (Some (ById "p1")) (Some "hasDevice") (Some (ById "d2")) "a3" "3")
       platform_store)
  = platform_store.
Proof.
  apply (create_then_delete_association example_getextends example_Predicates
           platform_store (ById "p1") "hasDevice" (ById "d2") "a3" "3"
           "p1" "PlatformDevice" "d2" "InstrumentDevice").
  - exact platform_validated.
  - reflexivity.
  - exact platform_fresh.
  - discriminate.
Defined.

(** The platform has two associations; deleting by its subject alone
    deletes one of them. *)
Lemma delete_association_deletes_one_witness :
  let call := delete_association (Triple (Some (ById "p1")) None None)
                platform_store in
  snd call = ok None
  /\ List.length (snd (fst call)) + 1 = 5
  /\ List.length (filter (pattern (Some "p1") None None) (snd (fst call))) + 1 = 2.
Proof.
  assert (NoDup (ids_of platform_store)) as Hnd
    by (repeat constructor; simpl; intuition discriminate).
  assert (forall x, In x platform_store -> Doc._id x <> "") as Hne.
  { intros x Hx. simpl in Hx.
    destruct Hx as [<-|[<-|[<-|[<-|[<-|[]]]]]]; discriminate. }
  apply (proj2 (delete_association_deletes_one platform_store (Some (ById "p1"))
                  None None Hnd Hne eq_refl)).
  vm_compute. discriminate.
Defined.

(** The platform by id and as the object read under its id. *)
Lemma create_association_id_or_object_witness :
  create_association example_getextends example_Predicates
    (Some (ById "p1")) (Some "hasDevice") (Some (ById "d2")) "a3" "3" platform_store
  = create_association example_getextends example_Predicates
      (Some (Loaded (deserialize
                       (resource_doc "p1" "PlatformDevice" "DEPLOYED" "AVAILABLE"
                          "platform"))))
      (Some "hasDevice") (Some (ById "d2")) "a3" "3" platform_store.
Proof.
  apply (proj1 (create_association_id_or_object example_getextends example_Predicates
                  platform_store "p1" _ (Some "hasDevice") (Some (ById "d2")) "a3" "3"
                  ltac:(discriminate) eq_refl)).
Defined.

Lemma find_associations_id_or_object_witness :
  find_associations platform_store (Some (ById "p1")) None None true None no_filter
  = find_associations platform_store
      (Some (Loaded (deserialize
                       (resource_doc "p1" "PlatformDevice" "DEPLOYED" "AVAILABLE"
                          "platform"))))
      None None true None no_filter.
Proof.
  apply (proj1 (find_associations_id_or_object platform_store "p1" _ None None true
                  no_filter ltac:(discriminate) eq_refl)).
Defined.

(** A response without a failed fetch is projected. *)
Lemma parse_results_succeeds_witness :
  exists parsed,
    _parse_results example_deserializer
      (ViewResults (inr [RawRow (Some "r1") (RawPrim (PStr "k")) (RawPrim PNone) None]))
    = ok parsed.
Proof.
  apply (proj2 (parse_results_succeeds example_deserializer _)).
  reflexivity.
Defined.

(** The objects of the platform pair with its associations. *)
Lemma traversal_pairs_witness :
  [Some "d1"; Some "d2"]
  = map (endpoint Doc.o)
      [Some (deserialize (association_doc "a1" "p1" "PlatformDevice" "hasDevice"
                            "d1" "InstrumentDevice" "1"));
       Some (deserialize (association_doc "a2" "p1" "PlatformDevice" "hasModel"
                            "d2" "InstrumentDevice" "2"))].
Proof.
  apply (proj1 (traversal_pairs platform_store (Some (ById "p1")) None None true
                  no_filter (NeighbourIds [Some "d1"; Some "d2"]) _)).
  vm_compute. reflexivity.
Defined.

(** The path of the service entry. *)
Lemma by_path_levels_witness :
  String.concat "/" (directory.levels service_entry) = "Services/resource_registry".
Proof.
  apply (proj2 (proj2 (by_path_levels service_entry "Services" eq_refl))).
Defined.

(** Deleting the first device with cascade keeps the second. *)
Lemma delete_doc_cascade_keeps_witness :
  In (resource_doc "d2" "InstrumentDevice" "DRAFT" "PRIVATE" "adcp")
     (store_after (delete_doc (DocId "d1") true) platform_store).
Proof.
  apply (delete_doc_cascade_keeps platform_store "d1").
  - discriminate.
  - simpl. tauto.
  - discriminate.
  - intros a Ha Href. simpl in Ha.
    destruct Ha as [<-|[<-|[<-|[<-|[<-|[]]]]]]; discriminate.
Defined.

(** The resource named alpha of type A is among the resources of type A. *)
Lemma find_res_by_name_within_type_witness : incl ["r2"] ["r2"; "r1"].
Proof.
  eapply (find_res_by_name_within_type three_resources "alpha" "A");
    vm_compute; reflexivity.
Defined.
